(** * NeuroView EEG viewer: signal-processing core and trial controller

    A shallow embedding of [src/utils/dsp.ts], the [Spectrogram] and
    [EEGCanvas] components and the [ViewerStep] controller, with the
    properties stated about them in the specification.

    Numeric conventions.  A JavaScript [number] that the code only ever uses
    as an integer (array lengths, loop counters, trial indices, the integer
    fields of [FileConfig]) is a [Z] or a [nat].  The sample values and
    everything computed from them in [dsp.ts] are real numbers [R]: the
    arithmetic is exact and the rounding of binary64 is not modelled.  The
    quantities of the waveform renderer and of the controller that are
    quotients of integers are rationals [Q].

    A loop whose exit depends on its arguments takes a [fuel] that bounds
    its iterations; the properties give the fuel that is enough. *)

From Stdlib Require Import String Ascii DecimalString DecimalPos.
From Stdlib Require Import List Arith ZArith Lia Bool.
From Stdlib Require Import QArith Qround Qabs Lqa.
From Stdlib Require Import Reals Lra Zfloor.
From Equations Require Import Equations.
Import ListNotations.

Set Implicit Arguments.

(** ** Outcome of a call

    [Throw] is an uncaught [TypeError] (a property read on [undefined]);
    [OutOfFuel] is a loop that has not finished within the given number of
    iterations. *)

Inductive result (A : Type) : Type :=
| Ok (a : A)
| Throw
| OutOfFuel.

Arguments Ok {A} a.
Arguments Throw {A}.
Arguments OutOfFuel {A}.

Definition bind {A B : Type} (m : result A) (k : A -> result B) : result B :=
  match m with
  | Ok a => k a
  | Throw => Throw
  | OutOfFuel => OutOfFuel
  end.

Notation "x <- m ;; k" := (bind m (fun x => k))
  (at level 61, m at next level, right associativity).

(** [arr[k].field]: reading a field of an element throws when the element is
    [undefined]. *)
Definition elem {A : Type} (arr : list A) (k : nat) : result A :=
  match nth_error arr k with
  | Some a => Ok a
  | None => Throw
  end.

(** [for (k = 0; k < n; k++) out.push(body(k))] where [body] may throw. *)
Fixpoint for_each {A : Type} (body : nat -> result A) (ks : list nat)
  : result (list A) :=
  match ks with
  | [] => Ok []
  | k :: rest =>
      a <- body k ;;
      out <- for_each body rest ;;
      Ok (a :: out)
  end.

(** ** Signal processing ([src/utils/dsp.ts]) *)

Module Dsp.

Local Open Scope R_scope.

(** *** Colour ramp: [getHeatmapColor] *)

(** The string [rgb(r,g,b)] that the function returns, as its three
    components.  This is the function on the real numbers; [NaN] and the
    infinities are in [ColourScale] below. *)
Record RGB : Type := rgb { red : Z; green : Z; blue : Z }.

Definition getHeatmapColor (value : R) : RGB :=
  let clamped := Rmax 0 (Rmin 1 value) in
  if Rlt_dec clamped 0.25 then
    rgb 0 0 (Zfloor (clamped * 4 * 255))
  else if Rlt_dec clamped 0.5 then
    rgb (Zfloor ((clamped - 0.25) * 4 * 255))
        0
        (255 - Zfloor ((clamped - 0.25) * 4 * 200))
  else if Rlt_dec clamped 0.75 then
    rgb 255 (Zfloor ((clamped - 0.5) * 4 * 255)) 0
  else
    rgb 255 255 (Zfloor ((clamped - 0.75) * 4 * 255)).

(** The four segments of the ramp, as the specification lists them. *)
Inductive segment : Type := Seg1 | Seg2 | Seg3 | Seg4.

Definition in_segment (s : segment) (x : R) : Prop :=
  match s with
  | Seg1 => 0 <= x < 0.25
  | Seg2 => 0.25 <= x < 0.5
  | Seg3 => 0.5 <= x < 0.75
  | Seg4 => 0.75 <= x <= 1
  end.

(** Componentwise order on colours. *)
Definition rgb_le (c d : RGB) : Prop :=
  (red c <= red d)%Z /\ (green c <= green d)%Z /\ (blue c <= blue d)%Z.

(** *** Fast Fourier transform: [fft] *)

Record Complex : Type := mkComplex { real : R; imag : R }.

(** [input.filter((_, i) => p(i))], the index counted from [i]. *)
Fixpoint filter_index {A : Type} (p : nat -> bool) (i : nat) (l : list A)
  : list A :=
  match l with
  | [] => []
  | x :: rest =>
      if p i then x :: filter_index p (S i) rest
      else filter_index p (S i) rest
  end.

Definition even_indexed {A : Type} (input : list A) : list A :=
  filter_index (fun i => (i mod 2 =? 0)%nat) 0 input.

Definition odd_indexed {A : Type} (input : list A) : list A :=
  filter_index (fun i => negb (i mod 2 =? 0)%nat) 0 input.

(** The number of loop counters [k = 0, 1, ...] with [k < n / 2], the
    quotient being a JavaScript number ([1.5] for [n = 3]). *)
Definition below_half (n : nat) : nat := Nat.div2 (S n).

(** One pass of the body of the combining loop: the two outputs
    [combined[k]] and [combined[k + n / 2]]. *)
Definition butterfly (n : nat) (even odd : list Complex) (k : nat)
  : result (Complex * Complex) :=
  let angle := -2 * PI * INR k / INR n in
  let w := mkComplex (cos angle) (sin angle) in
  o <- elem odd k ;;
  let wOdd := mkComplex (real w * real o - imag w * imag o)
                        (real w * imag o + imag w * real o) in
  e <- elem even k ;;
  Ok (mkComplex (real e + real wOdd) (imag e + imag wOdd),
      mkComplex (real e - real wOdd) (imag e - imag wOdd)).

(** The combining loop.  For an even [n] the writes at [k] and [k + n / 2]
    fill the [n] slots of [combined] in this order.  For an odd [n >= 3]
    the read of [odd[(n - 1) / 2]] has thrown before the loop ends (see
    [fft_combine_odd_length]), so the array is never returned. *)
Definition fft_combine (n : nat) (even odd : list Complex)
  : result (list Complex) :=
  pairs <- for_each (butterfly n even odd) (seq 0 (below_half n)) ;;
  Ok (map fst pairs ++ map snd pairs).

Equations? fft (input : list Complex) : result (list Complex)
  by wf (length input) lt :=
  fft input with le_gt_dec (length input) 1 => {
    | left _ => Ok input
    | right _ =>
        even <- fft (even_indexed input) ;;
        odd <- fft (odd_indexed input) ;;
        fft_combine (length input) even odd }.
Proof.
  all: assert (Hle : forall (p : nat -> bool) (l : list Complex) (i : nat),
                 (length (filter_index p i l) <= length l)%nat)
         by (intros p l; induction l as [|x rest IH]; intro i; cbn;
             [lia | destruct (p i); cbn; specialize (IH (S i)); lia]).
  - destruct input as [|x [|y rest]]; cbn in *; try lia.
    match goal with
    | |- context [filter_index ?p ?i ?l] => specialize (Hle p l i)
    end.
    lia.
  - destruct input as [|x rest]; cbn in *; try lia.
    match goal with
    | |- context [filter_index ?p ?i ?l] => specialize (Hle p l i)
    end.
    lia.
Qed.

(** *** Magnitude spectrum: [computeMagnitude] *)

(** [Math.pow(2, Math.ceil(Math.log2(n)))] for an array length [n].
    [Math.log2(0)] is [-Infinity], and [Math.pow(2, -Infinity)] is [0]. *)
Definition paddedLength (n : nat) : nat :=
  match n with
  | O => O
  | S _ => (2 ^ Nat.log2_up n)%nat
  end.

Definition computeMagnitude (signal : list R) : result (list R) :=
  let pow2 := paddedLength (length signal) in
  let complexSignal :=
    map (fun i => mkComplex (if (i <? length signal)%nat
                             then nth i signal 0 else 0) 0)
        (seq 0 pow2) in
  spectrum <- fft complexSignal ;;
  for_each (fun i => s <- elem spectrum i ;;
                     Ok (sqrt (real s ^ 2 + imag s ^ 2)))
           (seq 0 (below_half pow2)).

(** *** Hann window: [hanningWindow]

    For [size = 1] the quotient is [0 / 0], which is [NaN] in JavaScript;
    the model is read for [size >= 2] only. *)
Definition hanningWindow (size : nat) : list R :=
  map (fun i => 0.5 * (1 - cos ((2 * PI * INR i) / (INR size - 1))))
      (seq 0 size).

(** *** Short-time Fourier transform: [computeSpectrogram] *)

(** The values the running extremes take: they start at [-Infinity] and
    [Infinity] and are overwritten by pseudo-decibel values. *)
Inductive bound : Type :=
| MinusInfinity
| Finite (x : R)
| PlusInfinity.

(** [val > m] *)
Definition gt_bound (val : R) (m : bound) : bool :=
  match m with
  | MinusInfinity => true
  | Finite x => if Rlt_dec x val then true else false
  | PlusInfinity => false
  end.

(** [val < m] *)
Definition lt_bound (val : R) (m : bound) : bool :=
  match m with
  | MinusInfinity => false
  | Finite x => if Rlt_dec val x then true else false
  | PlusInfinity => true
  end.

Definition log10 (x : R) : R := ln x / ln 10.

(** The mutable variables of the loop: [result], [maxMag], [minMag]. *)
Record Loop : Type := mkLoop {
  loop_result : list (list R);
  loop_maxMag : bound;
  loop_minMag : bound
}.

(** The callback of [mags.map]: it returns [val] and updates the two
    extremes, here the pair [(maxMag, minMag)]. *)
Definition logMag (ext : bound * bound) (m : R) : (bound * bound) * R :=
  let val := log10 (m + 1e-6) * 20 in
  let maxMag := if gt_bound val (fst ext) then Finite val else fst ext in
  let minMag := if lt_bound val (snd ext) then Finite val else snd ext in
  ((maxMag, minMag), val).

(** [arr.map(f)] for a callback that updates captured variables. *)
Fixpoint map_state {S A B : Type} (f : S -> A -> S * B) (st : S) (l : list A)
  : S * list B :=
  match l with
  | [] => (st, [])
  | a :: rest =>
      let (st1, b) := f st a in
      let (st2, bs) := map_state f st1 rest in
      (st2, b :: bs)
  end.

(** The window that starts at [i]: [signal[i + j] * windowFunc[j]].  Under
    the loop guard with [0 <= i] every read is inside the array. *)
Definition windowed (signal windowFunc : list R) (windowSize : nat) (i : Z)
  : list R :=
  map (fun j => nth (Z.to_nat (i + Z.of_nat j)) signal 0 * nth j windowFunc 0)
      (seq 0 windowSize).

(** The sliding-window loop, from the counter [i] on.  [fuel] bounds the
    number of iterations still allowed. *)
Fixpoint slide (fuel : nat) (signal windowFunc : list R) (windowSize : nat)
  (step : Z) (i : Z) (st : Loop) : result Loop :=
  if (i <=? Z.of_nat (length signal) - Z.of_nat windowSize)%Z then
    match fuel with
    | O => OutOfFuel
    | S fuel' =>
        let chunk := windowed signal windowFunc windowSize i in
        mags <- computeMagnitude chunk ;;
        let (ext, logMags) :=
          map_state logMag (loop_maxMag st, loop_minMag st) mags in
        slide fuel' signal windowFunc windowSize step (i + step)
              (mkLoop (loop_result st ++ [logMags]) (fst ext) (snd ext))
    end
  else Ok st.

Record SpectrogramData : Type := mkSpectrogramData {
  magnitudes : list (list R);
  freqs : list R;
  times : list R;
  maxMag : bound;
  minMag : bound
}.

Definition computeSpectrogram (fuel : nat) (signal : list R) (sampleRate : R)
  (windowSize : nat) (overlap : Z) : result SpectrogramData :=
  let step := (Z.of_nat windowSize - overlap)%Z in
  let windowFunc := hanningWindow windowSize in
  st <- slide fuel signal windowFunc windowSize step 0
              (mkLoop [] MinusInfinity PlusInfinity) ;;
  let numFreqBins := (windowSize / 2)%nat in
  let freqs := map (fun i => (INR i * sampleRate) / INR windowSize)
                   (seq 0 numFreqBins) in
  let times := map (fun i => (INR i * IZR step) / sampleRate)
                   (seq 0 (length (loop_result st))) in
  Ok (mkSpectrogramData (loop_result st) freqs times
                        (loop_maxMag st) (loop_minMag st)).

End Dsp.

(** ** The spectrogram view ([Spectrogram] component) *)

Module SpectrogramView.

Import Dsp.
Local Open Scope R_scope.

Definition nFft : nat := 256.

(** The memoised [specData]: [null] for an empty [data]. *)
Definition specData (fuel : nat) (data : list R) (sampleRate : R)
  : result (option SpectrogramData) :=
  if (length data =? 0)%nat then Ok None
  else
    sd <- computeSpectrogram fuel data sampleRate nFft (Z.of_nat (nFft / 2)) ;;
    Ok (Some sd).

(** One [fillRect] call with the [fillStyle] in force. *)
Record Cell : Type := mkCell {
  fillStyle : RGB;
  cell_x : Z;
  cell_y : Z;
  cell_w : Z;
  cell_h : Z
}.

Inductive Drawing : Type :=
| NotDrawn
| Painted (cells : list Cell).

(** The extremes as numbers.  A cell is painted only when some row has an
    entry, and then both extremes are finite; the other cases are never
    read. *)
Definition bound_value (b : bound) : R :=
  match b with
  | Finite x => x
  | _ => 0
  end.

(** The drawing effect.  [canvas] and [ctx] tell whether the canvas element
    and its 2-D context exist; [containerWidth] is
    [containerRef.current?.clientWidth || 800]. *)
Definition drawEffect (canvas ctx : bool) (specData : option SpectrogramData)
  (containerWidth height : Z) : result Drawing :=
  match canvas, specData with
  | false, _ | _, None => Ok NotDrawn
  | true, Some sd =>
      if negb ctx then Ok NotDrawn
      else
        let numTimeBins := length (magnitudes sd) in
        row0 <- elem (magnitudes sd) 0 ;;
        let numFreqBins := length row0 in
        let cellWidth := IZR containerWidth / INR numTimeBins in
        let cellHeight := IZR height / INR numFreqBins in
        let range := bound_value (maxMag sd) - bound_value (minMag sd) in
        Ok (Painted
          (flat_map (fun t =>
             map (fun f =>
               let mag := nth f (nth t (magnitudes sd) []) 0 in
               let norm := (mag - bound_value (minMag sd))
                           / (if Req_dec_T range 0 then 1 else range) in
               let y := IZR height - (INR f + 1) * cellHeight in
               mkCell (getHeatmapColor norm)
                      (Zfloor (INR t * cellWidth))
                      (Zfloor y)
                      (Zceil cellWidth + 1)
                      (Zceil cellHeight + 1))
               (seq 0 numFreqBins))
             (seq 0 numTimeBins)))
  end.

(** What the component renders. *)
Inductive View : Type :=
| ProcessingSignalData
| CanvasWithLegend.

Definition render (specData : option SpectrogramData) : View :=
  match specData with
  | None => ProcessingSignalData
  | Some _ => CanvasWithLegend
  end.

End SpectrogramView.

(** ** The time axis of the waveform renderer ([EEGCanvas] component) *)

Module Canvas.

Local Open Scope Z_scope.

(** [a > b] and [a < b] on rationals. *)
Definition Qgtb (a b : Q) : bool := negb (Qle_bool a b).
Definition Qltb (a b : Q) : bool := negb (Qle_bool b a).

Definition tickInterval (totalTime : Q) : Z :=
  let tickInterval := 1 in
  let tickInterval := if Qgtb totalTime 10 then 2 else tickInterval in
  let tickInterval := if Qgtb totalTime 30 then 5 else tickInterval in
  tickInterval.

(** A tick of the axis: the second it stands for, the sample index it is
    drawn at and the number printed in its label, [`${sec + startTime}s`]. *)
Record Tick : Type := mkTick {
  tick_sec : Z;
  tick_index : Z;
  tick_label : Q
}.

(** The tick loop, from the counter [sec] on. *)
Fixpoint tickLoop (fuel : nat) (totalPoints samplingRate : Z)
  (totalTime startTime : Q) (interval : Z) (sec : Z) : result (list Tick) :=
  if sec <=? Qceiling totalTime then
    match fuel with
    | O => OutOfFuel
    | S fuel' =>
        let sampleIndex := sec * samplingRate in
        rest <- tickLoop fuel' totalPoints samplingRate totalTime startTime
                         interval (sec + interval) ;;
        if (sampleIndex >=? totalPoints) && Qltb (inject_Z sec) totalTime
        then Ok rest
        else
          let effectiveIndex := Z.min sampleIndex (totalPoints - 1) in
          Ok (mkTick sec effectiveIndex (inject_Z sec + startTime)%Q :: rest)
    end
  else Ok [].

(** The ticks drawn for a slice of [totalPoints] rows.  The effect returns
    at once for an empty slice, and the axis is drawn for a positive
    duration only.  [samplingRate] is not zero. *)
Definition timeAxis (fuel : nat) (totalPoints : nat) (samplingRate : Z)
  (startTime : Q) : result (list Tick) :=
  if (totalPoints =? 0)%nat then Ok []
  else
    let totalTime := (inject_Z (Z.of_nat totalPoints) / inject_Z samplingRate)%Q in
    if Qgtb totalTime 0 then
      tickLoop fuel (Z.of_nat totalPoints) samplingRate totalTime startTime
               (tickInterval totalTime) 0
    else Ok [].

End Canvas.

(** ** Strings and the parsing built-ins

    A string is a sequence of code units below 256. *)

Module JsString.

Local Open Scope Z_scope.

(** White space and line terminators below 256: TAB, LF, VT, FF, CR, SP and
    NBSP. *)
Definition isWhiteSpace (c : ascii) : bool :=
  let n := Z.of_nat (nat_of_ascii c) in
  (n =? 9) || (n =? 10) || (n =? 11) || (n =? 12) || (n =? 13)
  || (n =? 32) || (n =? 160).

Fixpoint trimStart (s : string) : string :=
  match s with
  | EmptyString => EmptyString
  | String c rest => if isWhiteSpace c then trimStart rest else s
  end.

Fixpoint trimEnd (s : string) : string :=
  match s with
  | EmptyString => EmptyString
  | String c rest =>
      match trimEnd rest with
      | EmptyString => if isWhiteSpace c then EmptyString
                       else String c EmptyString
      | kept => String c kept
      end
  end.

Definition trim (s : string) : string := trimEnd (trimStart s).

(** Truthiness of a string: only the empty string is falsy. *)
Definition truthy (s : string) : bool :=
  match s with
  | EmptyString => false
  | String _ _ => true
  end.

(** The value of [c] as a digit of the given radix. *)
Definition digitValue (radix : Z) (c : ascii) : option Z :=
  let n := Z.of_nat (nat_of_ascii c) in
  let v := if (48 <=? n) && (n <=? 57) then Some (n - 48)
           else if (97 <=? n) && (n <=? 122) then Some (n - 87)
           else if (65 <=? n) && (n <=? 90) then Some (n - 55)
           else None in
  match v with
  | Some d => if d <? radix then Some d else None
  | None => None
  end.

(** The longest run of digits at the front of [s], and what follows it. *)
Fixpoint digits (radix : Z) (s : string) : list Z * string :=
  match s with
  | EmptyString => ([], EmptyString)
  | String c rest =>
      match digitValue radix c with
      | Some d => let (ds, after) := digits radix rest in (d :: ds, after)
      | None => ([], s)
      end
  end.

Definition digitsValue (radix : Z) (ds : list Z) : Z :=
  fold_left (fun acc d => radix * acc + d) ds 0.

(** A JavaScript number that may be [NaN] or infinite.  The finite values
    are exact: rounding to binary64 is not modelled. *)
Inductive number : Type :=
| NaN
| PlusInf
| MinusInf
| Num (q : Q).

Definition isNaN (x : number) : bool :=
  match x with
  | NaN => true
  | _ => false
  end.

Definition isFinite (x : number) : bool :=
  match x with
  | Num _ => true
  | _ => false
  end.

(** [x !== y] *)
Definition strictNe (x y : number) : bool :=
  match x, y with
  | NaN, _ | _, NaN => true
  | PlusInf, PlusInf => false
  | MinusInf, MinusInf => false
  | Num p, Num q => negb (Qeq_bool p q)
  | _, _ => true
  end.

Definition negate (x : number) : number :=
  match x with
  | NaN => NaN
  | PlusInf => MinusInf
  | MinusInf => PlusInf
  | Num q => Num (- q)
  end.

(** [ExponentPart]: [e] or [E], an optional sign and at least one digit.
    Anything else is not part of the literal and counts as exponent [0]. *)
Definition exponentPart (s : string) : Z :=
  match s with
  | String c rest =>
      if (Ascii.eqb c "e" || Ascii.eqb c "E")%char then
        let (neg, body) :=
          match rest with
          | String "+"%char r => (false, r)
          | String "-"%char r => (true, r)
          | _ => (false, rest)
          end in
        match digits 10 body with
        | ([], _) => 0
        | (ds, _) => if neg then - digitsValue 10 ds else digitsValue 10 ds
        end
      else 0
  | EmptyString => 0
  end.

(** The longest prefix of [s] that is a [StrUnsignedDecimalLiteral], as its
    value; [None] when there is none. *)
Definition unsignedDecimal (s : string) : option number :=
  if String.prefix "Infinity" s then Some PlusInf
  else
    let (ip, r1) := digits 10 s in
    match r1 with
    | String "."%char r2 =>
        let (fp, r3) := digits 10 r2 in
        match ip, fp with
        | [], [] => None
        | _, _ =>
            Some (Num (inject_Z (digitsValue 10 (ip ++ fp))
                       * Qpower 10 (exponentPart r3 - Z.of_nat (length fp))))
        end
    | _ =>
        match ip with
        | [] => None
        | _ => Some (Num (inject_Z (digitsValue 10 ip)
                          * Qpower 10 (exponentPart r1)))
        end
    end.

Definition parseFloat (s : string) : number :=
  let t := trimStart s in
  let parsed :=
    match t with
    | String "-"%char r => option_map negate (unsignedDecimal r)
    | String "+"%char r => unsignedDecimal r
    | _ => unsignedDecimal t
    end in
  match parsed with
  | Some x => x
  | None => NaN
  end.

(** [parseInt(s)] without a radix: [None] is [NaN].  The integer is exact:
    its rounding to binary64 is not modelled. *)
Definition parseInt (s : string) : option Z :=
  let t := trimStart s in
  let (neg, body) :=
    match t with
    | String "-"%char r => (true, r)
    | String "+"%char r => (false, r)
    | _ => (false, t)
    end in
  let (radix, body) :=
    match body with
    | String "0"%char (String x r) =>
        if (Ascii.eqb x "x" || Ascii.eqb x "X")%char then (16, r)
        else (10, body)
    | _ => (10, body)
    end in
  match digits radix body with
  | ([], _) => None
  | (ds, _) => Some (if neg then - digitsValue radix ds
                     else digitsValue radix ds)
  end.

End JsString.

(** ** The trial controller ([ViewerStep] component) *)

Module Viewer.

Import JsString.
Local Open Scope Z_scope.

Inductive DataOrientation : Type := RowsAreTime | RowsAreChannels.

(** [FileConfig].  Every editor of these fields stores the result of
    [parseInt], so they are integers. *)
Record FileConfig : Type := mkFileConfig {
  samplingRate : Z;
  channelCount : Z;
  skipRows : Z;
  skipCols : Z;
  trialDurationSec : Z;
  orientation : DataOrientation
}.

Inductive AnnotationType : Type := artifact | seizure | normal | other.

Record Annotation : Type := mkAnnotation {
  id : string;
  trialIndex : Z;
  timestamp : Z;
  note : string;
  type : AnnotationType
}.

Inductive ViewMode : Type := raw | spectrogram.

(** The state cells of the component. *)
Record State : Type := mkState {
  currentTrial : Z;
  annotations : list Annotation;
  newNote : string;
  selectedType : AnnotationType;
  yScale : number;
  tempScale : string;
  tempDuration : string;
  viewMode : ViewMode;
  spectrogramChannel : nat;
  isScrollMode : bool
}.

Definition setCurrentTrial (f : Z -> Z) (s : State) : State :=
  mkState (f (currentTrial s)) (annotations s) (newNote s) (selectedType s)
          (yScale s) (tempScale s) (tempDuration s) (viewMode s)
          (spectrogramChannel s) (isScrollMode s).

Definition setAnnotations (anns : list Annotation) (s : State) : State :=
  mkState (currentTrial s) anns (newNote s) (selectedType s)
          (yScale s) (tempScale s) (tempDuration s) (viewMode s)
          (spectrogramChannel s) (isScrollMode s).

Definition setNewNote (text : string) (s : State) : State :=
  mkState (currentTrial s) (annotations s) text (selectedType s)
          (yScale s) (tempScale s) (tempDuration s) (viewMode s)
          (spectrogramChannel s) (isScrollMode s).

Definition setYScale (g : number) (s : State) : State :=
  mkState (currentTrial s) (annotations s) (newNote s) (selectedType s)
          g (tempScale s) (tempDuration s) (viewMode s)
          (spectrogramChannel s) (isScrollMode s).

(** The calls made to the owning session. *)
Inductive Callback : Type :=
| onUpdateAnnotations (anns : list Annotation)
| onConfigChange (config : FileConfig)
| onGainChange (gain : number).

(** *** Debounced parameters

    Both effects run when the debounced text changes, that is once the
    text field has been stable for the settle interval. *)

Definition gainEffect (debouncedScale : string) (s : State)
  : State * list Callback :=
  let val := parseFloat debouncedScale in
  if negb (isNaN val) && strictNe val (yScale s) then
    (setYScale val s, [onGainChange val])
  else (s, []).

Definition durationEffect (debouncedDuration : string) (config : FileConfig)
  : list Callback :=
  match parseInt debouncedDuration with
  | Some val =>
      if (val >? 0) && negb (val =? trialDurationSec config) then
        [onConfigChange (mkFileConfig (samplingRate config)
                           (channelCount config) (skipRows config)
                           (skipCols config) val (orientation config))]
      else []
  | None => []
  end.

(** *** Trial windows *)

Definition pointsPerTrial (config : FileConfig) : Z :=
  samplingRate config * trialDurationSec config.

(** [Math.ceil(data.length / pointsPerTrial)], for [pointsPerTrial] other
    than zero. *)
Definition totalTrials {A : Type} (data : list A) (config : FileConfig) : Z :=
  Qceiling (inject_Z (Z.of_nat (length data)) / inject_Z (pointsPerTrial config)).

(** [arr.slice(start, end)] for integer arguments. *)
Definition slice {A : Type} (arr : list A) (start end_ : Z) : list A :=
  let len := Z.of_nat (length arr) in
  let k := if start <? 0 then Z.max (len + start) 0 else Z.min start len in
  let final := if end_ <? 0 then Z.max (len + end_) 0 else Z.min end_ len in
  let count := Z.max (final - k) 0 in
  firstn (Z.to_nat count) (skipn (Z.to_nat k) arr).

Definition currentTrialDataSlice {A : Type} (data : list A)
  (config : FileConfig) (s : State) : list A :=
  if isScrollMode s then data
  else
    let startIndex := currentTrial s * pointsPerTrial config in
    let endIndex := Z.min (startIndex + pointsPerTrial config)
                          (Z.of_nat (length data)) in
    slice data startIndex endIndex.

(** [row[spectrogramChannel] || 0] for each row of the slice. *)
Definition spectrogramDataSeries (data : list (list R)) (config : FileConfig)
  (s : State) : list R :=
  match viewMode s with
  | raw => []
  | spectrogram =>
      map (fun row => nth (spectrogramChannel s) row 0%R)
          (currentTrialDataSlice data config s)
  end.

(** *** Navigation *)

Definition handlePrev (s : State) : State :=
  setCurrentTrial (fun c => Z.max 0 (c - 1)) s.

Definition handleNext {A : Type} (data : list A) (config : FileConfig)
  (s : State) : State :=
  setCurrentTrial (fun c => Z.min (totalTrials data config - 1) (c + 1)) s.

Definition jumpToTrial (idx : Z) (s : State) : State :=
  setCurrentTrial (fun _ => idx) s.

(** *** Annotations *)

(** [n.toString()] for a safe integer ([|n| < 2^53]): its decimal digits.
    A larger number is printed from its shortest round-trip digits, and
    from [1e21] on with an exponent; the model is not read there. *)
Definition toString (n : Z) : string :=
  DecimalString.NilZero.string_of_int (Z.to_int n).

(** [now] is the value of [Date.now()]. *)
Definition addAnnotation (now : Z) (config : FileConfig) (s : State)
  : State * list Callback :=
  if negb (truthy (trim (newNote s))) then (s, [])
  else
    let newAnn := mkAnnotation (toString now) (currentTrial s)
                    (currentTrial s * trialDurationSec config)
                    (newNote s) (selectedType s) in
    let updated := annotations s ++ [newAnn] in
    (setNewNote EmptyString (setAnnotations updated s),
     [onUpdateAnnotations updated]).

Definition deleteAnnotation (target : string) (s : State)
  : State * list Callback :=
  let updated :=
    filter (fun a => negb (String.eqb (id a) target)) (annotations s) in
  (setAnnotations updated s, [onUpdateAnnotations updated]).

(** The state after mounting. *)
Definition initialState (existingAnnotations : list Annotation)
  (initialGain : number) (config : FileConfig) (gainText : string) : State :=
  mkState 0 existingAnnotations EmptyString normal initialGain gainText
          (toString (trialDurationSec config)) raw 0%nat false.

End Viewer.

(** ** The discrete Fourier transform, as a sum *)

Module TransformSpec.

Import Dsp.
Local Open Scope R_scope.

Definition powerOfTwo (n : nat) : Prop := exists k : nat, n = (2 ^ k)%nat.

Definition cadd (a b : Complex) : Complex :=
  mkComplex (real a + real b) (imag a + imag b).

Definition cmul (a b : Complex) : Complex :=
  mkComplex (real a * real b - imag a * imag b)
            (real a * imag b + imag a * real b).

(** [exp(-2 pi i m / n)] *)
Definition twiddle (n m : nat) : Complex :=
  mkComplex (cos (-2 * PI * INR m / INR n)) (sin (-2 * PI * INR m / INR n)).

(** Bin [k] of the transform of [x]: the sum over [j] of
    [x[j] * exp(-2 pi i j k / n)]. *)
Definition dft (x : list Complex) (k : nat) : Complex :=
  fold_right cadd (mkComplex 0 0)
    (map (fun j => cmul (twiddle (length x) (j * k)) (nth j x (mkComplex 0 0)))
         (seq 0 (length x))).

(** The sum over the positions [p] of [l] of [g(i + stride * p) * l[p]]. *)
Fixpoint wsum (g : nat -> Complex) (i stride : nat) (l : list Complex)
  : Complex :=
  match l with
  | [] => mkComplex 0 0
  | x :: rest => cadd (cmul (g i) x) (wsum g (i + stride) stride rest)
  end.

End TransformSpec.

(** ** Rows of the spectrogram, as the specification describes them *)

Module RowSpec.

Import Dsp.
Local Open Scope R_scope.

(** The samples [[start, start + windowSize)] of the signal. *)
Definition samples (signal : list R) (start windowSize : nat) : list R :=
  firstn windowSize (skipn start signal).

Definition pointwiseProduct (xs ws : list R) : list R :=
  map (fun p => fst p * snd p) (combine xs ws).

(** The next power of two: the least one that is not below [n]. *)
Definition nextPowerOfTwo (n : nat) : nat := (2 ^ Nat.log2_up n)%nat.

Definition zeroPad (n : nat) (xs : list R) : list Complex :=
  map (fun x => mkComplex x 0) xs ++ repeat (mkComplex 0 0) (n - length xs).

(** [sqrt(re^2 + im^2)] *)
Definition modulus (c : Complex) : R := sqrt (real c ^ 2 + imag c ^ 2).

(** [20 * log10(magnitude + 1e-6)] *)
Definition pseudoDecibel (magnitude : R) : R := 20 * log10 (magnitude + 1e-6).

(** The Hann coefficient [w[i] = 0.5 * (1 - cos(2 pi i / (n - 1)))] of a
    window of [n] samples. *)
Definition hannCoefficient (n i : nat) : R :=
  0.5 * (1 - cos (2 * PI * INR i / (INR n - 1))).

(** Row [r] of the grid, from the samples that start at [start]: Hann
    coefficients, zero padding, discrete Fourier transform, magnitude of the
    first half of the bins, pseudo-decibels. *)
Definition specifiedRow (signal : list R) (windowSize start : nat)
  (row : list R) : Prop :=
  let paddedLength := nextPowerOfTwo windowSize in
  let weighted :=
    pointwiseProduct (samples signal start windowSize)
                     (map (hannCoefficient windowSize) (seq 0 windowSize)) in
  row = map (fun k =>
               pseudoDecibel
                 (modulus (TransformSpec.dft (zeroPad paddedLength weighted) k)))
            (seq 0 (paddedLength / 2)).

Definition isMinimum (m : R) (entries : list R) : Prop :=
  In m entries /\ forall e, In e entries -> m <= e.

Definition isMaximum (m : R) (entries : list R) : Prop :=
  In m entries /\ forall e, In e entries -> e <= m.

(** The constant floor [20 * log10(1e-6)]. *)
Definition floorLevel : R := 20 * log10 1e-6.

End RowSpec.

(** ** The sliding-window loop, unrolled

    The quantities the loop of [computeSpectrogram] goes through, named so
    that its invariant can be stated. *)

Module Sliding.

Import Dsp RowSpec.
Local Open Scope R_scope.

Definition czero : Complex := mkComplex 0 0.

(** The pseudo-decibel value as the callback computes it. *)
Definition decibel (m : R) : R := log10 (m + 1e-6) * 20.

(** The update of [(maxMag, minMag)] by one value. *)
Definition update (ext : bound * bound) (val : R) : bound * bound :=
  (if gt_bound val (fst ext) then Finite val else fst ext,
   if lt_bound val (snd ext) then Finite val else snd ext).

(** What the extremes are once the values [seen] have gone by. *)
Definition tracked (seen : list R) (ext : bound * bound) : Prop :=
  (seen = [] /\ ext = (MinusInfinity, PlusInfinity)) \/
  (exists hi lo, ext = (Finite hi, Finite lo) /\
                 isMaximum hi seen /\ isMinimum lo seen).

(** The magnitudes of the window that starts at [i]. *)
Definition magnitudesAt (signal : list R) (windowSize : nat) (i : Z)
  : list R :=
  match computeMagnitude
          (windowed signal (hanningWindow windowSize) windowSize i) with
  | Ok mags => mags
  | _ => []
  end.

Definition rowAt (signal : list R) (windowSize : nat) (i : Z) : list R :=
  map decibel (magnitudesAt signal windowSize i).

(** The rows pushed from the counter [i] on, when [count] windows remain. *)
Definition rowsFrom (signal : list R) (windowSize : nat) (step i : Z)
  (count : nat) : list (list R) :=
  map (fun k => rowAt signal windowSize (i + Z.of_nat k * step)) (seq 0 count).

End Sliding.

(** ** The controller's claims, as predicates *)

Module ControllerSpec.

Import JsString Viewer.
Local Open Scope Z_scope.

(** Empty or made of white space only. *)
Definition whitespaceOnly (s : string) : bool :=
  forallb isWhiteSpace (list_ascii_of_string s).

(** An edit is committed when its effect calls the session. *)
Definition gainCommitted (text : string) (s : State) : bool :=
  match snd (gainEffect text s) with
  | [] => false
  | _ :: _ => true
  end.

Definition durationCommitted (text : string) (config : FileConfig) : bool :=
  match durationEffect text config with
  | [] => false
  | _ :: _ => true
  end.

Definition withDuration (config : FileConfig) (val : Z) : FileConfig :=
  mkFileConfig (samplingRate config) (channelCount config) (skipRows config)
               (skipCols config) val (orientation config).

End ControllerSpec.

(** ** The time axis, as specified *)

Module AxisSpec.

Import Canvas.
Local Open Scope Z_scope.

(** The interval as the specification words it: 1 s below 10 s of data,
    2 s below 30 s, 5 s otherwise. *)
Definition specifiedInterval (totalTime : Q) : Z :=
  if Qltb totalTime 10 then 1
  else if Qltb totalTime 30 then 2
  else 5.

(** What holds of every tick drawn with the given interval. *)
Definition wellLabelled (startTime : Q) (interval : Z) (t : Tick) : Prop :=
  tick_label t = (inject_Z (tick_sec t) + startTime)%Q /\
  0 <= tick_sec t /\
  (interval | tick_sec t).

End AxisSpec.

(** ** Sample data *)

Module Sample.

Import Viewer.

(** A recording at 100 Hz, cut into trials of 5 s. *)
Definition config_100Hz_5s : FileConfig :=
  mkFileConfig 100 8 0 0 5 RowsAreTime.

(** A viewer on the given trial with the given text in the note field. *)
Definition state_at (trial : Z) (text : string) : State :=
  mkState trial [] text normal (JsString.Num 1) "1" "5" raw 0 false.

End Sample.

(** ** What the controller shows, and runs of navigation events *)

Module Session.

Import JsString Viewer.
Local Open Scope Z_scope.

(** [Math.max] and [Math.min] on rationals. *)
Definition Qmax2 (a b : Q) : Q := if Qle_bool a b then b else a.
Definition Qmin2 (a b : Q) : Q := if Qle_bool a b then a else b.

(** The content of the visualisation area.  [Waveform] is the [EEGCanvas]
    with its [data], the width of its wrapper ([None] is [100%]), [yScale]
    and [startTime]; [SpectrogramOf] is the [Spectrogram] with its [data]
    and [sampleRate]; the other two are the "no data" messages. *)
Inductive Visualization : Type :=
| Waveform (slice : list (list R)) (width : option Q) (gain : number)
           (startTime : Z)
| NoDataForTrialRange
| SpectrogramOf (series : list R) (sampleRate : Z)
| NoData.

Definition visualizationContent (data : list (list R)) (config : FileConfig)
  (s : State) : Visualization :=
  match viewMode s with
  | raw =>
      let slice := currentTrialDataSlice data config s in
      if (0 <? length slice)%nat then
        Waveform slice
          (if isScrollMode s
           then Some (Qmin2 (Qmax2 1000
                               (inject_Z (Z.of_nat (length slice))
                                / inject_Z (samplingRate config) * 100)%Q)
                            32000)
           else None)
          (yScale s)
          (if isScrollMode s then 0
           else currentTrial s * trialDurationSec config)
      else NoDataForTrialRange
  | spectrogram =>
      let series := spectrogramDataSeries data config s in
      if (0 <? length series)%nat then
        SpectrogramOf series (samplingRate config)
      else NoData
  end.

(** The two navigation controls (buttons or arrow keys). *)
Inductive NavEvent : Type := PressPrev | PressNext.

Definition navigate {A : Type} (data : list A) (config : FileConfig)
  (s : State) (e : NavEvent) : State :=
  match e with
  | PressPrev => handlePrev s
  | PressNext => handleNext data config s
  end.

Definition navigateAll {A : Type} (data : list A) (config : FileConfig)
  (s : State) (events : list NavEvent) : State :=
  fold_left (navigate data config) events s.

End Session.

(** ** Decimal digits *)

Module Printing.

Local Open Scope Z_scope.

(** The decimal digits of an unsigned decimal, as values. *)
Fixpoint digitsOf (d : Decimal.uint) : list Z :=
  match d with
  | Decimal.Nil => []
  | Decimal.D0 l => 0 :: digitsOf l
  | Decimal.D1 l => 1 :: digitsOf l
  | Decimal.D2 l => 2 :: digitsOf l
  | Decimal.D3 l => 3 :: digitsOf l
  | Decimal.D4 l => 4 :: digitsOf l
  | Decimal.D5 l => 5 :: digitsOf l
  | Decimal.D6 l => 6 :: digitsOf l
  | Decimal.D7 l => 7 :: digitsOf l
  | Decimal.D8 l => 8 :: digitsOf l
  | Decimal.D9 l => 9 :: digitsOf l
  end.


(** One step of reading a decimal number. *)
Definition accumulate (acc d : Z) : Z := 10 * acc + d.

End Printing.

(** ** Parsed rows to sample matrix ([processFullData])

    The text is split into rows of cells by the CSV library; the model
    starts from those rows. *)

Module DataParser.

Import JsString Viewer.
Local Open Scope Z_scope.

(** [!isNaN(val) ? val : 0] *)
Definition orZero (val : number) : number :=
  if isNaN val then Num 0 else val.

(** [parseFloat(row[j])].  A read outside the row gives [undefined], which
    parses to [NaN]. *)
Definition parseCell (row : list string) (j : Z) : number :=
  if j <? 0 then NaN
  else match nth_error row (Z.to_nat j) with
       | Some text => parseFloat text
       | None => NaN
       end.

(** The counters [j = skipCols, skipCols + 1, ...] below [len]. *)
Definition columnsFrom (skipCols : Z) (len : nat) : list Z :=
  map (fun k => skipCols + Z.of_nat k)
      (seq 0 (Z.to_nat (Z.of_nat len - skipCols))).

(** The loop over the cells of one row: push, then leave the loop once
    [numRow] has [expectedChannels] entries. *)
Fixpoint collect (row : list string) (expectedChannels : Z) (js : list Z)
  (numRow : list number) : list number :=
  match js with
  | [] => numRow
  | j :: rest =>
      let numRow := numRow ++ [orZero (parseCell row j)] in
      if Z.of_nat (length numRow) >=? expectedChannels then numRow
      else collect row expectedChannels rest numRow
  end.

(** Rows are time points. *)
Definition timeRows (dataRows : list (list string)) (skipCols : Z)
  (expectedChannels : Z) : list (list number) :=
  flat_map
    (fun row =>
       if Z.of_nat (length row) <=? skipCols then []
       else
         let numRow :=
           collect row expectedChannels (columnsFrom skipCols (length row)) [] in
         if (0 <? length numRow)%nat then [numRow] else [])
    dataRows.

(** Rows are channels: the result is filled with 0 and then written cell by
    cell, [result[t][ch]] from [rowData[t + skipCols]]. *)
Definition channelRowsToTime (channelRows : list (list string)) (skipCols : Z)
  : list (list number) :=
  match channelRows with
  | [] => []
  | firstRow :: _ =>
      let timePointsCount := Z.of_nat (length firstRow) - skipCols in
      if timePointsCount <=? 0 then []
      else
        map (fun t =>
               map (fun rowData =>
                      let colIdx := Z.of_nat t + skipCols in
                      if colIdx <? Z.of_nat (length rowData)
                      then orZero (parseCell rowData colIdx)
                      else Num 0)
                   channelRows)
            (seq 0 (Z.to_nat timePointsCount))
  end.

Definition processFullData (rawRows : list (list string))
  (skipRows skipCols expectedChannels : Z) (orientation : DataOrientation)
  : list (list number) :=
  match orientation with
  | RowsAreTime =>
      let dataRows := slice rawRows skipRows (Z.of_nat (length rawRows)) in
      timeRows dataRows skipCols expectedChannels
  | RowsAreChannels =>
      let channelRows :=
        slice rawRows skipRows (skipRows + expectedChannels) in
      channelRowsToTime channelRows skipCols
  end.

End DataParser.

Module Sample2.

Import Viewer.

(** A recording at 100 Hz, cut into trials of 2 s: 200 rows per trial. *)
Definition config_100Hz_2s : FileConfig :=
  mkFileConfig 100 1 0 0 2 RowsAreTime.

(** A viewer in the spectrogram view on the given trial. *)
Definition spectrogram_at (trial : Z) : State :=
  mkState trial [] "" normal (JsString.Num 1) "1" "2" spectrogram 0 false.

End Sample2.

(** ** The waveform canvas ([EEGCanvas]): layout and pointer

    Pixel quantities are exact rationals. *)

Module Waveform.

Import Canvas JsString Session.
Local Open Scope Q_scope.

(** [padding = { top: 20, bottom: 30, left: 50, right: 20 }] *)
Definition paddingTop : Q := 20.
Definition paddingBottom : Q := 30.
Definition paddingLeft : Q := 50.
Definition paddingRight : Q := 20.

Definition minRequiredHeight (channelCount : Z) : Q :=
  inject_Z channelCount * 40 + 50.

Definition finalHeight (observedHeight : Q) (channelCount : Z) : Q :=
  Qmax2 observedHeight (minRequiredHeight channelCount).

Definition usableHeight (finalHeight : Q) : Q :=
  finalHeight - paddingTop - paddingBottom.

(** [usableHeight / config.channelCount], for a channel count other than
    zero. *)
Definition slotHeight (finalHeight : Q) (channelCount : Z) : Q :=
  usableHeight finalHeight / inject_Z channelCount.

Definition centerY (finalHeight : Q) (channelCount : Z) (ch : Z) : Q :=
  paddingTop + inject_Z ch * slotHeight finalHeight channelCount
  + slotHeight finalHeight channelCount / 2.

(** [a / b] for finite [a] and [b]; a zero divisor is [+0] here. *)
Definition divide (a b : Q) : number :=
  if Qeq_bool b 0 then
    if Qeq_bool a 0 then NaN
    else if Qltb a 0 then MinusInf
    else PlusInf
  else Num (a / b).

(** [a / d] for a finite [a]. *)
Definition divideBy (a : Q) (d : number) : number :=
  match d with
  | NaN => NaN
  | PlusInf | MinusInf => Num 0
  | Num q => divide a q
  end.

(** [i * d] for an integer [i]. *)
Definition times (i : Z) (d : number) : number :=
  match d with
  | NaN => NaN
  | PlusInf =>
      if (i =? 0)%Z then NaN else if (i <? 0)%Z then MinusInf else PlusInf
  | MinusInf =>
      if (i =? 0)%Z then NaN else if (i <? 0)%Z then PlusInf else MinusInf
  | Num q => Num (inject_Z i * q)
  end.

(** [a + d] for a finite [a]. *)
Definition plus (a : Q) (d : number) : number :=
  match d with
  | Num q => Num (a + q)
  | other => other
  end.

(** What the handler does to the [tooltip] state: nothing, [setTooltip(null)],
    or a new tooltip.  Of the tooltip the marker position [x], the [time]
    and the index of the row whose [values] it lists are kept. *)
Inductive TooltipUpdate : Type :=
| Unchanged
| Cleared
| Shown (x : number) (time : Q) (index : Z).

(** [container] tells whether the container element exists; [rectWidth] and
    [rectLeft] are its bounding rectangle, [clientX] the pointer.
    [Math.round] of a finite [q] is [floor(q + 1/2)]; of [NaN] or an
    infinity it is that value, which fails [index >= 0 && index <
    totalPoints].  [samplingRate] is not zero. *)
Definition handleMouseMove (container : bool) (totalPoints : nat)
  (rectWidth rectLeft clientX startTime : Q) (samplingRate : Z)
  : TooltipUpdate :=
  if negb container || (totalPoints =? 0)%nat then Unchanged
  else
    let usableWidth := rectWidth - paddingLeft - paddingRight in
    let x := clientX - rectLeft in
    if Qltb x paddingLeft || Qgtb x (rectWidth - paddingRight) then Cleared
    else
      let xStep := divide usableWidth (inject_Z (Z.of_nat totalPoints - 1)) in
      let relativeX := x - paddingLeft in
      match divideBy relativeX xStep with
      | Num q =>
          let index := Qfloor (q + 1 / 2) in
          if (index >=? 0)%Z && (index <? Z.of_nat totalPoints)%Z then
            let time := startTime + inject_Z index / inject_Z samplingRate in
            let lineX := plus paddingLeft (times index xStep) in
            Shown lineX time index
          else Unchanged
      | _ => Unchanged
      end.

End Waveform.

(** ** The preview of the configuration step ([canvasData]) *)

Module Preview.

Import JsString Viewer.
Local Open Scope Z_scope.

(** [v || 0] for a number or [undefined] ([None]): [NaN], zero and
    [undefined] give 0. *)
Definition orElseZero (v : option number) : number :=
  match v with
  | None | Some NaN => Num 0
  | Some (Num q) => if Qeq_bool q 0 then Num 0 else Num q
  | Some infinite => infinite
  end.

Definition canvasData (parsedPreviewRaw : list (list number))
  (config : FileConfig) : list (list number) :=
  if (length parsedPreviewRaw =? 0)%nat then []
  else
    match orientation config with
    | RowsAreTime => parsedPreviewRaw
    | RowsAreChannels =>
        let channelRows := parsedPreviewRaw in
        let numChannels :=
          Z.min (Z.of_nat (length channelRows)) (channelCount config) in
        let numPoints := length (hd [] channelRows) in
        map (fun t =>
               map (fun ch => orElseZero (nth_error (nth ch channelRows []) t))
                   (seq 0 (Z.to_nat numChannels)))
            (seq 0 numPoints)
    end.

End Preview.

(** ** The debouncing hook ([useDebounce])

    The hook as a timed machine.  Its state is the debounced value, the
    [value] the effect last ran with, and the pending timeout with the
    value its callback captured and the time it is due. *)

Module Debounce.

Local Open Scope Z_scope.

Record Hook : Type := mkHook {
  debouncedValue : string;
  value : string;
  timer : option (string * Z)
}.

(** The first render: [useState(value)], then the effect sets a timeout. *)
Definition mount (v : string) (delay now : Z) : Hook :=
  mkHook v v (Some (v, now + delay)).

(** A render with the text [v] at the time [now].  The effect depends on
    [value] ([delay] is a constant): when it changed, the cleanup clears
    the pending timeout and the effect sets a new one. *)
Definition render (v : string) (delay now : Z) (h : Hook) : Hook :=
  if String.eqb v (value h) then h
  else mkHook (debouncedValue h) v (Some (v, now + delay)).

(** Time passes until [now]: a timeout that is due calls
    [setDebouncedValue] with the value it captured. *)
Definition elapse (now : Z) (h : Hook) : Hook :=
  match timer h with
  | Some (v, due) => if due <=? now then mkHook v (value h) None else h
  | None => h
  end.

(** A keystroke at a given time: time passes until then, and the component
    renders with the new text. *)
Definition keystroke (delay : Z) (h : Hook) (key : Z * string) : Hook :=
  render (snd key) delay (fst key) (elapse (fst key) h).

Definition typing (delay : Z) (h : Hook) (keys : list (Z * string)) : Hook :=
  fold_left (keystroke delay) keys h.

(** A burst: every keystroke changes the text and comes less than [delay]
    after the one before. *)
Fixpoint burst (delay : Z) (previous : Z * string) (keys : list (Z * string))
  : Prop :=
  match keys with
  | [] => True
  | key :: rest =>
      fst previous <= fst key < fst previous + delay /\
      snd key <> snd previous /\
      burst delay key rest
  end.

End Debounce.

(** ** The colour ramp on every JavaScript number

    [Dsp.getHeatmapColor] once more, with [NaN] and the infinities among
    the arguments and [NaN] among the components. *)

Module ColourScale.

Local Open Scope R_scope.

Inductive argument : Type :=
| NotANumber
| NegativeInfinity
| PositiveInfinity
| Real (x : R).

(** [Math.max(0, Math.min(1, value))]; [None] is [NaN]. *)
Definition clamp (value : argument) : option R :=
  match value with
  | NotANumber => None
  | NegativeInfinity => Some 0
  | PositiveInfinity => Some 1
  | Real x => Some (Rmax 0 (Rmin 1 x))
  end.

(** [clamped < t], which is false of [NaN]. *)
Definition below (clamped : option R) (t : R) : bool :=
  match clamped with
  | Some c => if Rlt_dec c t then true else false
  | None => false
  end.

(** [Math.floor(f(clamped))], which is [NaN] for [NaN]. *)
Definition floorOf (f : R -> R) (clamped : option R) : option Z :=
  option_map (fun c => Zfloor (f c)) clamped.

(** The three numbers printed into [rgb(r,g,b)]; [None] is [NaN]. *)
Record Components : Type := components {
  r : option Z;
  g : option Z;
  b : option Z
}.

Definition getHeatmapColor (value : argument) : Components :=
  let clamped := clamp value in
  if below clamped 0.25 then
    components (Some 0%Z) (Some 0%Z) (floorOf (fun c => c * 4 * 255) clamped)
  else if below clamped 0.5 then
    components (floorOf (fun c => (c - 0.25) * 4 * 255) clamped)
               (Some 0%Z)
               (option_map (fun n => (255 - n)%Z)
                           (floorOf (fun c => (c - 0.25) * 4 * 200) clamped))
  else if below clamped 0.75 then
    components (Some 255%Z) (floorOf (fun c => (c - 0.5) * 4 * 255) clamped)
               (Some 0%Z)
  else
    components (Some 255%Z) (Some 255%Z)
               (floorOf (fun c => (c - 0.75) * 4 * 255) clamped).

(** A colour of the real-valued function, as components. *)
Definition ofRGB (c : Dsp.RGB) : Components :=
  components (Some (Dsp.red c)) (Some (Dsp.green c)) (Some (Dsp.blue c)).

End ColourScale.

(** ** The age of the patient ([fetchPatientData])

    The age is computed from the year, month and day of the month that
    [getFullYear], [getMonth] and [getDate] give, in local time, for
    [new Date()] and for [new Date(patient.birthDate)]. *)

Module Patient.

Local Open Scope Z_scope.

(** A day of the calendar; [getMonth] counts from 0. *)
Record CalendarDate : Type := mkDate {
  getFullYear : Z;
  getMonth : Z;
  getDate : Z
}.

Definition isLeapYear (y : Z) : bool :=
  ((y mod 4 =? 0) && negb (y mod 100 =? 0)) || (y mod 400 =? 0).

Definition daysInMonth (y m : Z) : Z :=
  if m =? 1 then (if isLeapYear y then 29 else 28)
  else if (m =? 3) || (m =? 5) || (m =? 8) || (m =? 10) then 30
  else 31.

Definition dayBefore (d : CalendarDate) : CalendarDate :=
  if 1 <? getDate d then mkDate (getFullYear d) (getMonth d) (getDate d - 1)
  else if 0 <? getMonth d then
    mkDate (getFullYear d) (getMonth d - 1)
           (daysInMonth (getFullYear d) (getMonth d - 1))
  else mkDate (getFullYear d - 1) 11 31.

(** [new Date(patient.birthDate)] read by the local getters.  A date-only
    text ([YYYY-MM-DD], as FHIR gives it) is parsed as midnight UTC of the
    day [written].  [offsetMinutes] is local time minus UTC at that
    instant, less than a day either way: in a zone behind UTC the local
    day is the day before. *)
Definition localBirthDate (written : CalendarDate) (offsetMinutes : Z)
  : CalendarDate :=
  if offsetMinutes <? 0 then dayBefore written else written.

Definition calculatedAge (today birthDate : CalendarDate) : Z :=
  let calculatedAge := getFullYear today - getFullYear birthDate in
  let m := getMonth today - getMonth birthDate in
  if (m <? 0) || ((m =? 0) && (getDate today <? getDate birthDate))
  then calculatedAge - 1
  else calculatedAge.

(** The age shown for a birth date [written] in the record, on the local
    day [today]. *)
Definition age (today written : CalendarDate) (offsetMinutes : Z) : Z :=
  calculatedAge today (localBirthDate written offsetMinutes).

(** The order of the calendar. *)
Definition notAfter (a b : CalendarDate) : Prop :=
  getFullYear a < getFullYear b \/
  (getFullYear a = getFullYear b /\
   (getMonth a < getMonth b \/
    (getMonth a = getMonth b /\ getDate a <= getDate b))).

(** The same day and month, [years] later. *)
Definition anniversary (d : CalendarDate) (years : Z) : CalendarDate :=
  mkDate (getFullYear d + years) (getMonth d) (getDate d).

End Patient.

(** * Properties *)

Import Viewer Sample RowSpec Sliding ControllerSpec AxisSpec.

(** ** Navigation *)

Section Navigation.

Import JsString Viewer.
Local Open Scope Z_scope.

Variable A : Type.
Variable data : list A.
Variable config : FileConfig.

Lemma setCurrentTrial_same (f : Z -> Z) (s : State) :
  f (currentTrial s) = currentTrial s -> setCurrentTrial f s = s.
Proof.
  intro H. destruct s; unfold setCurrentTrial; simpl in *. now rewrite H.
Qed.

(** C9.  With at least one trial, "previous" at trial 0 and "next" at the
    last trial leave the state, and so [currentTrial], as it is.  Both
    handlers are total functions: no call raises. *)
Theorem navigation_clamped (s : State) :
  1 <= totalTrials data config ->
  (currentTrial s = 0 -> handlePrev s = s) /\
  (currentTrial s = totalTrials data config - 1 ->
   handleNext data config s = s).
Proof.
  intro Hpos. split; intro Hc.
  - apply setCurrentTrial_same. rewrite Hc. reflexivity.
  - apply setCurrentTrial_same. rewrite Hc. lia.
Qed.

End Navigation.


(** The clamp on a recording of 1000 rows, two trials of 500. *)
Lemma navigation_clamped_witness :
  let data := repeat tt 1000 in
  totalTrials data config_100Hz_5s = 2%Z /\
  handlePrev (state_at 0 "") = state_at 0 "" /\
  handleNext data config_100Hz_5s (state_at 1 "") = state_at 1 "".
Proof.
  intro data.
  assert (Htot : totalTrials data config_100Hz_5s = 2%Z) by (vm_compute; reflexivity).
  split; [exact Htot|].
  split.
  - apply (navigation_clamped data config_100Hz_5s (state_at 0 "")).
    + rewrite Htot. lia.
    + reflexivity.
  - apply (navigation_clamped data config_100Hz_5s (state_at 1 "")).
    + rewrite Htot. lia.
    + rewrite Htot. reflexivity.
Defined.

Section EmptyData.

Local Open Scope Z_scope.

Lemma totalTrials_nil (A : Type) (config : FileConfig) :
  totalTrials (@nil A) config = 0.
Proof.
  unfold totalTrials. simpl.
  destruct (pointsPerTrial config); reflexivity.
Qed.

(** C10.  For an empty matrix (and a trial length other than zero) the trial
    count is 0; from [currentTrial = 0], "next" stores
    [min(totalTrials - 1, currentTrial + 1) = -1], outside
    [[0, totalTrials - 1]], and "previous" leaves 0. *)
Theorem empty_data_next_is_minus_one (A : Type) (config : FileConfig)
  (s : State) :
  pointsPerTrial config <> 0 ->
  currentTrial s = 0 ->
  totalTrials (@nil A) config = 0 /\
  currentTrial (handleNext (@nil A) config s) = -1 /\
  currentTrial (handlePrev s) = 0.
Proof.
  intros _ Hc. split; [apply totalTrials_nil|].
  unfold handleNext, handlePrev, setCurrentTrial.
  cbn [currentTrial]. rewrite totalTrials_nil, Hc. split; reflexivity.
Qed.

End EmptyData.

(** The empty recording at 100 Hz and 5 s. *)
Lemma empty_data_next_is_minus_one_witness :
  totalTrials (@nil (list R)) config_100Hz_5s = 0%Z /\
  currentTrial (handleNext (@nil (list R)) config_100Hz_5s (state_at 0 "")) = (-1)%Z /\
  currentTrial (handlePrev (state_at 0 "")) = 0%Z.
Proof.
  apply (@empty_data_next_is_minus_one (list R) config_100Hz_5s (state_at 0 "")).
  - vm_compute. discriminate.
  - reflexivity.
Defined.

(** ** Annotations *)

Section Annotations.

Import JsString.
Local Open Scope Z_scope.


Lemma trimStart_whitespaceOnly (s : string) :
  whitespaceOnly s = true -> trimStart s = EmptyString.
Proof.
  unfold whitespaceOnly. induction s as [|c rest IH]; simpl; intro H.
  - reflexivity.
  - apply andb_true_iff in H. destruct H as [Hc Hrest].
    rewrite Hc. auto.
Qed.

Lemma trimEnd_empty (s : string) :
  trimEnd s = EmptyString -> whitespaceOnly s = true.
Proof.
  unfold whitespaceOnly. induction s as [|c rest IH]; simpl; intro H.
  - reflexivity.
  - destruct (trimEnd rest) eqn:E.
    + destruct (isWhiteSpace c); [|discriminate]. simpl. auto.
    + discriminate.
Qed.

Lemma trimStart_keeps (s : string) :
  whitespaceOnly (trimStart s) = true -> whitespaceOnly s = true.
Proof.
  unfold whitespaceOnly. induction s as [|c rest IH]; simpl; intro H.
  - reflexivity.
  - destruct (isWhiteSpace c) eqn:E; simpl.
    + auto.
    + simpl in H. rewrite E in H. discriminate.
Qed.

(** [note.trim()] is the empty string exactly for the notes that are empty
    or made of white space only. *)
Lemma trim_empty_iff (s : string) :
  truthy (trim s) = false <-> whitespaceOnly s = true.
Proof.
  unfold trim. split; intro H.
  - apply trimStart_keeps, trimEnd_empty.
    destruct (trimEnd (trimStart s)); [reflexivity | discriminate].
  - rewrite (trimStart_whitespaceOnly s H). reflexivity.
Qed.

(** C8.  Adding with an empty or white-space-only note changes nothing and
    calls nothing.  Adding with any other note appends exactly one
    annotation after the existing ones, bound to the current trial and
    stamped [currentTrial * trialDurationSec], and hands the new list to
    the session. *)
Theorem addAnnotation_spec (now : Z) (config : FileConfig) (s : State) :
  (whitespaceOnly (newNote s) = true ->
   addAnnotation now config s = (s, [])) /\
  (whitespaceOnly (newNote s) = false ->
   exists a : Annotation,
     annotations (fst (addAnnotation now config s)) = annotations s ++ [a] /\
     snd (addAnnotation now config s)
       = [onUpdateAnnotations (annotations s ++ [a])] /\
     trialIndex a = currentTrial s /\
     timestamp a = currentTrial s * trialDurationSec config /\
     note a = newNote s /\
     type a = selectedType s /\
     currentTrial (fst (addAnnotation now config s)) = currentTrial s).
Proof.
  unfold addAnnotation. split; intro H.
  - apply trim_empty_iff in H. rewrite H. reflexivity.
  - destruct (truthy (trim (newNote s))) eqn:E.
    + simpl. eexists. repeat split; reflexivity.
    + apply trim_empty_iff in E. congruence.
Qed.

End Annotations.

(** A blank note on trial 2 adds nothing; a note on trial 2 with trials of
    5 s is stamped 10. *)
Lemma addAnnotation_spec_witness :
  let s := state_at 2 "spike burst" in
  addAnnotation 1700000000000 config_100Hz_5s (state_at 2 "  ")
    = (state_at 2 "  ", []) /\
  exists a : Annotation,
    annotations (fst (addAnnotation 1700000000000 config_100Hz_5s s)) = [a] /\
    trialIndex a = 2%Z /\ timestamp a = 10%Z.
Proof.
  intro s.
  destruct (addAnnotation_spec 1700000000000 config_100Hz_5s
              (state_at 2 "  ")) as [Hblank _].
  destruct (addAnnotation_spec 1700000000000 config_100Hz_5s s)
    as [_ Hadd].
  split.
  - apply Hblank. reflexivity.
  - destruct (Hadd eq_refl) as (a & Ha & _ & Hi & Ht & _).
    exists a. repeat split; assumption.
Defined.

(** ** Trial windows *)

Section TrialWindows.

Local Open Scope Z_scope.

Variable A : Type.
Variable data : list A.
Variable config : FileConfig.

(** The ceiling of the quotient, in integer arithmetic. *)
Lemma totalTrials_div :
  totalTrials data config = - ((- Z.of_nat (length data)) / pointsPerTrial config).
Proof.
  unfold totalTrials, Qceiling. f_equal.
  rewrite Zdiv_Qdiv. apply Qfloor_comp.
  rewrite inject_Z_opp. unfold Qdiv. ring.
Qed.

(** [totalTrials] is the least integer [t] with [N <= t * L]. *)
Lemma totalTrials_ceiling :
  0 < pointsPerTrial config ->
  (totalTrials data config - 1) * pointsPerTrial config
    < Z.of_nat (length data)
    <= totalTrials data config * pointsPerTrial config.
Proof.
  intro HL. rewrite totalTrials_div.
  set (N := Z.of_nat (length data)). set (L := pointsPerTrial config) in *.
  pose proof (Z.div_mod (- N) L ltac:(lia)) as Hdm.
  pose proof (Z.mod_pos_bound (- N) L HL) as Hmod.
  nia.
Qed.

Lemma nth_error_slice (arr : list A) (start end_ : Z) (j : nat) :
  0 <= start -> 0 <= end_ <= Z.of_nat (length arr) ->
  nth_error (slice arr start end_) j =
    if start + Z.of_nat j <? end_
    then nth_error arr (Z.to_nat (start + Z.of_nat j))
    else None.
Proof.
  intros Hs He. unfold slice.
  destruct (start <? 0) eqn:E1; [lia|].
  destruct (end_ <? 0) eqn:E2; [lia|].
  rewrite nth_error_firstn, nth_error_skipn.
  destruct (start + Z.of_nat j <? end_) eqn:E3.
  - replace (j <? _)%nat with true by (symmetry; apply Nat.ltb_lt; lia).
    f_equal. lia.
  - destruct (j <? _)%nat eqn:E4; [|reflexivity].
    apply Nat.ltb_lt in E4. lia.
Qed.

(** C3.  In paged mode, for a positive sampling rate and trial duration and
    a trial index [i >= 0]: the trial length [L] is their product, the trial
    count is the ceiling of [N / L], and row [j] of the displayed slice is
    row [i * L + j] of the matrix exactly for the indices below
    [min((i + 1) * L, N)], so the slice is rows
    [[i * L, min((i + 1) * L, N))]. *)
Theorem trial_window (s : State) :
  0 < samplingRate config ->
  0 < trialDurationSec config ->
  0 <= currentTrial s ->
  isScrollMode s = false ->
  let L := pointsPerTrial config in
  let N := Z.of_nat (length data) in
  let i := currentTrial s in
  L = samplingRate config * trialDurationSec config /\
  (totalTrials data config - 1) * L < N <= totalTrials data config * L /\
  (forall j : nat,
     nth_error (currentTrialDataSlice data config s) j =
       if i * L + Z.of_nat j <? Z.min ((i + 1) * L) N
       then nth_error data (Z.to_nat (i * L + Z.of_nat j))
       else None) /\
  Z.of_nat (length (currentTrialDataSlice data config s))
    = Z.max 0 (Z.min ((i + 1) * L) N - i * L).
Proof.
  intros Hr Hd Hi Hpaged L N i.
  assert (HL : 0 < L) by (unfold L, pointsPerTrial; nia).
  split; [reflexivity|].
  split; [apply totalTrials_ceiling; exact HL|].
  assert (Hslice : forall j : nat,
     nth_error (currentTrialDataSlice data config s) j =
       if i * L + Z.of_nat j <? Z.min ((i + 1) * L) N
       then nth_error data (Z.to_nat (i * L + Z.of_nat j))
       else None).
  { intro j. unfold currentTrialDataSlice. rewrite Hpaged.
    fold L. fold N. fold i.
    replace (i * L + L) with ((i + 1) * L) by ring.
    apply nth_error_slice; [nia|].
    unfold N. split; [|lia]. apply Z.min_glb; [nia|lia]. }
  split; [exact Hslice|].
  set (sl := currentTrialDataSlice data config s) in *.
  destruct (Z.le_gt_cases (Z.min ((i + 1) * L) N) (i * L)) as [Hle|Hgt].
  - rewrite Z.max_l by lia.
    destruct sl as [|x rest] eqn:E; [reflexivity|].
    specialize (Hslice 0%nat). simpl in Hslice.
    destruct (i * L + 0 <? Z.min ((i + 1) * L) N) eqn:E1; [lia|discriminate].
  - rewrite Z.max_r by lia.
    set (n := Z.to_nat (Z.min ((i + 1) * L) N - i * L)).
    assert (Hn1 : (length sl <= n)%nat).
    { apply nth_error_None. rewrite Hslice.
      replace (_ <? _) with false; [reflexivity|].
      symmetry. apply Z.ltb_ge. unfold n. lia. }
    assert (Hn2 : (n <= length sl)%nat).
    { destruct n as [|m] eqn:En; [lia|].
      assert (Hm : nth_error sl m <> None).
      { rewrite Hslice.
        replace (_ <? _) with true
          by (symmetry; apply Z.ltb_lt; unfold n in En; lia).
        apply nth_error_Some. unfold N in *. unfold n in En. lia. }
      apply nth_error_Some in Hm. lia. }
    unfold n in *. lia.
Qed.

End TrialWindows.

(** 1000 rows at 100 Hz in trials of 5 s: two trials of 500 rows, rows
    [[0, 500)] and [[500, 1000)]. *)
Lemma trial_window_witness :
  let data := seq 0 1000 in
  pointsPerTrial config_100Hz_5s = 500%Z /\
  totalTrials data config_100Hz_5s = 2%Z /\
  currentTrialDataSlice data config_100Hz_5s (state_at 0 "") = seq 0 500 /\
  currentTrialDataSlice data config_100Hz_5s (state_at 1 "") = seq 500 500 /\
  (forall j : nat,
     nth_error (currentTrialDataSlice data config_100Hz_5s (state_at 1 "")) j =
       if (500 + Z.of_nat j <? 1000)%Z
       then nth_error data (Z.to_nat (500 + Z.of_nat j))
       else None).
Proof.
  intro data.
  split; [reflexivity|].
  split; [vm_compute; reflexivity|].
  split; [vm_compute; reflexivity|].
  split; [vm_compute; reflexivity|].
  pose proof (@trial_window nat data config_100Hz_5s (state_at 1 "")
                ltac:(reflexivity) ltac:(reflexivity) ltac:(discriminate) eq_refl)
    as H.
  exact (proj1 (proj2 (proj2 H))).
Defined.

(** ** Debounced parameters *)

Section DebouncedParameters.

Import JsString.
Local Open Scope Z_scope.


Lemma parseFloat_blank (text : string) :
  whitespaceOnly text = true -> parseFloat text = NaN.
Proof.
  intro H. unfold parseFloat.
  rewrite (trimStart_whitespaceOnly text H). reflexivity.
Qed.

Lemma parseInt_blank (text : string) :
  whitespaceOnly text = true -> parseInt text = None.
Proof.
  intro H. unfold parseInt.
  rewrite (trimStart_whitespaceOnly text H). reflexivity.
Qed.

(** C5, as the code has it.  The gain edit is committed exactly when
    [parseFloat] gives a number that is not [NaN], infinite values
    included, and that differs from the committed gain; the duration edit
    exactly when [parseInt] gives a positive integer that differs from the
    current duration.  A committed edit is applied and handed to the
    session; any other edit, and every empty or white-space-only one,
    leaves the state as it was and calls nothing. *)
Theorem debounced_commit (text : string) (s : State) (config : FileConfig) :
  (gainCommitted text s = true <->
   isNaN (parseFloat text) = false /\
   strictNe (parseFloat text) (yScale s) = true) /\
  (gainCommitted text s = true ->
   gainEffect text s
     = (setYScale (parseFloat text) s, [onGainChange (parseFloat text)])) /\
  (gainCommitted text s = false -> gainEffect text s = (s, [])) /\
  (durationCommitted text config = true <->
   exists val, parseInt text = Some val /\ 0 < val /\
               val <> trialDurationSec config) /\
  (forall val, durationCommitted text config = true ->
   parseInt text = Some val ->
   durationEffect text config = [onConfigChange (withDuration config val)]) /\
  (durationCommitted text config = false -> durationEffect text config = []) /\
  (whitespaceOnly text = true ->
   gainEffect text s = (s, []) /\ durationEffect text config = []).
Proof.
  unfold gainCommitted, durationCommitted, gainEffect, durationEffect.
  repeat split.
  - destruct (isNaN (parseFloat text)); [discriminate | reflexivity].
  - destruct (isNaN (parseFloat text)); [discriminate|].
    destruct (strictNe (parseFloat text) (yScale s));
      [reflexivity | discriminate].
  - intros [Hn Hd]. rewrite Hn, Hd. reflexivity.
  - destruct (negb (isNaN (parseFloat text))
              && strictNe (parseFloat text) (yScale s));
      [reflexivity | discriminate].
  - destruct (negb (isNaN (parseFloat text))
              && strictNe (parseFloat text) (yScale s));
      [discriminate | reflexivity].
  - destruct (parseInt text) as [val|]; [|discriminate].
    intro H. exists val.
    destruct (val >? 0) eqn:E1; [|discriminate].
    destruct (val =? trialDurationSec config) eqn:E2; [discriminate|].
    apply Z.eqb_neq in E2. repeat split; [lia | exact E2].
  - intros (val & Hp & Hpos & Hne). rewrite Hp.
    replace (val >? 0) with true by (symmetry; apply Z.gtb_lt; lia).
    apply Z.eqb_neq in Hne. rewrite Hne. reflexivity.
  - intros val H Hp. rewrite Hp in *.
    destruct ((val >? 0) && negb (val =? trialDurationSec config));
      [reflexivity | discriminate].
  - destruct (parseInt text) as [val|]; [|reflexivity].
    destruct ((val >? 0) && negb (val =? trialDurationSec config));
      [discriminate | reflexivity].
  - rewrite (parseFloat_blank text H). reflexivity.
  - rewrite (parseInt_blank text H). reflexivity.
Qed.

(** C5 as the specification words it fails in both directions: the text
    [Infinity] is committed though it does not parse to a finite number, and
    a text that parses to the committed gain is finite but calls nothing. *)
Lemma debounced_commit_not_iff_finite :
  (gainCommitted "Infinity" (state_at 2 "") = true /\
   isFinite (parseFloat "Infinity") = false) /\
  (isFinite (parseFloat "1") = true /\
   gainCommitted "1" (state_at 2 "") = false) /\
  (parseInt "5" = Some 5 /\
   durationCommitted "5" config_100Hz_5s = false) /\
  ~ (forall (text : string) (s : State),
       gainCommitted text s = true <-> isFinite (parseFloat text) = true).
Proof.
  repeat split; try reflexivity.
  intro H.
  destruct (H "Infinity"%string (state_at 2 "")) as [Hfin _].
  specialize (Hfin eq_refl). discriminate Hfin.
Qed.

End DebouncedParameters.

(** The texts [2.5] and [10] are committed; a blank and an empty text are
    not. *)
Lemma debounced_commit_witness :
  gainEffect "2.5" (state_at 0 "")
    = (setYScale (JsString.Num 2.5) (state_at 0 ""),
       [onGainChange (JsString.Num 2.5)]) /\
  gainEffect "   " (state_at 0 "") = (state_at 0 "", []) /\
  durationEffect "" config_100Hz_5s = [] /\
  durationEffect "10" config_100Hz_5s
    = [onConfigChange (withDuration config_100Hz_5s 10)].
Proof.
  pose proof (debounced_commit "2.5" (state_at 0 "") config_100Hz_5s)
    as (_ & Hg & _).
  pose proof (debounced_commit "   " (state_at 0 "") config_100Hz_5s)
    as (_ & _ & _ & _ & _ & _ & Hb).
  pose proof (debounced_commit "" (state_at 0 "") config_100Hz_5s)
    as (_ & _ & _ & _ & _ & _ & He).
  pose proof (debounced_commit "10" (state_at 0 "") config_100Hz_5s)
    as (_ & _ & _ & _ & Hd & _).
  split; [exact (Hg eq_refl)|].
  split; [exact (proj1 (Hb eq_refl))|].
  split; [exact (proj2 (He eq_refl))|].
  exact (Hd 10%Z eq_refl eq_refl).
Defined.

(** ** Time axis *)

Section TimeAxis.

Import Canvas.
Local Open Scope Z_scope.


Lemma Qgtb_true (a b : Q) : Qgtb a b = true <-> (b < a)%Q.
Proof.
  unfold Qgtb. rewrite negb_true_iff. split; intro H.
  - apply Qnot_le_lt. intro Hle. apply Qle_bool_iff in Hle. congruence.
  - destruct (Qle_bool a b) eqn:E; [|reflexivity].
    apply Qle_bool_iff in E. exfalso. exact (Qlt_not_le _ _ H E).
Qed.

Lemma Qgtb_false (a b : Q) : Qgtb a b = false <-> (a <= b)%Q.
Proof.
  unfold Qgtb. rewrite negb_false_iff. apply Qle_bool_iff.
Qed.

(** The three cases of [tickInterval]. *)
Lemma tickInterval_cases (totalTime : Q) :
  ((totalTime <= 10)%Q -> tickInterval totalTime = 1) /\
  ((10 < totalTime)%Q -> (totalTime <= 30)%Q -> tickInterval totalTime = 2) /\
  ((30 < totalTime)%Q -> tickInterval totalTime = 5).
Proof.
  unfold tickInterval. repeat split.
  - intro H.
    assert (H30 : (totalTime <= 30)%Q)
      by (eapply Qle_trans; [exact H | discriminate]).
    apply Qgtb_false in H, H30. rewrite H, H30. reflexivity.
  - intros H1 H2. apply Qgtb_true in H1. apply Qgtb_false in H2.
    rewrite H1, H2. reflexivity.
  - intro H. apply Qgtb_true in H. rewrite H.
    destruct (Qgtb totalTime 10); reflexivity.
Qed.

Lemma tickInterval_positive (totalTime : Q) : 1 <= tickInterval totalTime.
Proof.
  unfold tickInterval.
  destruct (Qgtb totalTime 30), (Qgtb totalTime 10); lia.
Qed.


Lemma tickLoop_labels (totalPoints samplingRate : Z) (totalTime startTime : Q)
  (interval : Z) :
  1 <= interval ->
  forall (fuel : nat) (sec : Z),
    0 <= sec -> (interval | sec) ->
    Qceiling totalTime - sec < Z.of_nat fuel ->
    exists ticks,
      tickLoop fuel totalPoints samplingRate totalTime startTime interval sec
        = Ok ticks /\
      Forall (wellLabelled startTime interval) ticks.
Proof.
  intro Hint. induction fuel as [|fuel IH]; intros sec Hsec Hdiv Hfuel.
  - simpl. replace (sec <=? Qceiling totalTime) with false
      by (symmetry; apply Z.leb_gt; lia).
    exists []. split; [reflexivity | constructor].
  - simpl. destruct (sec <=? Qceiling totalTime) eqn:E.
    + destruct (IH (sec + interval)) as (rest & Hrest & Hall).
      * lia.
      * apply Z.divide_add_r; [exact Hdiv | apply Z.divide_refl].
      * lia.
      * rewrite Hrest. simpl.
        destruct ((sec * samplingRate >=? totalPoints)
                  && Qltb (inject_Z sec) totalTime).
        -- exists rest. split; [reflexivity | exact Hall].
        -- eexists. split; [reflexivity|].
           constructor; [|exact Hall].
           repeat split; simpl; assumption.
    + exists []. split; [reflexivity | constructor].
Qed.

(** C6, as the code has it.  The interval is 1 s for a slice of at most
    10 s, 2 s above 10 s and up to 30 s, and 5 s above 30 s.  For a positive
    sampling rate and enough iterations the axis is drawn, and every tick
    stands for a multiple [sec] of the interval and is labelled
    [sec + startTime]. *)
Theorem time_axis_ticks (totalPoints : nat) (samplingRate : Z)
  (startTime : Q) (fuel : nat) :
  0 < samplingRate ->
  let totalTime :=
    (inject_Z (Z.of_nat totalPoints) / inject_Z samplingRate)%Q in
  Qceiling totalTime < Z.of_nat fuel ->
  ((totalTime <= 10)%Q -> tickInterval totalTime = 1) /\
  ((10 < totalTime)%Q -> (totalTime <= 30)%Q -> tickInterval totalTime = 2) /\
  ((30 < totalTime)%Q -> tickInterval totalTime = 5) /\
  exists ticks,
    timeAxis fuel totalPoints samplingRate startTime = Ok ticks /\
    Forall (wellLabelled startTime (tickInterval totalTime)) ticks.
Proof.
  intros Hrate totalTime Hfuel.
  destruct (tickInterval_cases totalTime) as (H1 & H2 & H3).
  repeat (split; [assumption|]).
  unfold timeAxis. destruct (totalPoints =? 0)%nat.
  - exists []. split; [reflexivity | constructor].
  - fold totalTime. destruct (Qgtb totalTime 0).
    + apply tickLoop_labels.
      * apply tickInterval_positive.
      * lia.
      * apply Z.divide_0_r.
      * lia.
    + exists []. split; [reflexivity | constructor].
Qed.

(** C6 as the specification words it fails at the two thresholds: a slice
    of exactly 10 s (1000 rows at 100 Hz) gets a 1 s interval where 2 s is
    specified, and one of exactly 30 s gets 2 s where 5 s is specified. *)
Lemma tick_interval_at_thresholds :
  let tenSeconds := (inject_Z (Z.of_nat 1000) / inject_Z 100)%Q in
  let thirtySeconds := (inject_Z (Z.of_nat 3000) / inject_Z 100)%Q in
  (tickInterval tenSeconds = 1 /\ specifiedInterval tenSeconds = 2) /\
  (tickInterval thirtySeconds = 2 /\ specifiedInterval thirtySeconds = 5) /\
  ~ (forall totalTime : Q,
       tickInterval totalTime = specifiedInterval totalTime).
Proof.
  repeat split; try reflexivity.
  intro H. specialize (H 10%Q). discriminate H.
Qed.

End TimeAxis.

(** The axis of the third 10 s trial of a 100 Hz recording: ticks every
    second, labelled from 10. *)
Lemma time_axis_ticks_witness :
  exists ticks,
    Canvas.timeAxis 20 1000 100 10 = Ok ticks /\
    Canvas.tickInterval (inject_Z (Z.of_nat 1000) / inject_Z 100) = 1%Z /\
    Forall (wellLabelled 10 1) ticks.
Proof.
  destruct (@time_axis_ticks 1000 100 10 20 ltac:(reflexivity)
              ltac:(vm_compute; reflexivity))
    as (H1 & _ & _ & ticks & Hticks & Hall).
  exists ticks. split; [exact Hticks|]. split.
  - apply H1. vm_compute. discriminate.
  - rewrite H1 in Hall; [exact Hall|]. vm_compute. discriminate.
Defined.

(** ** Colour ramp *)

Section ColourRamp.

Import Dsp.
Local Open Scope R_scope.

Lemma clamp_unit (x : R) : 0 <= x <= 1 -> Rmax 0 (Rmin 1 x) = x.
Proof.
  intros [H0 H1]. rewrite Rmin_right by exact H1. apply Rmax_right, H0.
Qed.

(** The colour on each segment, for an argument already in [[0, 1]]. *)
Lemma heatmap_segment (s : segment) (x : R) :
  in_segment s x ->
  getHeatmapColor x =
    match s with
    | Seg1 => rgb 0 0 (Zfloor (x * 4 * 255))
    | Seg2 => rgb (Zfloor ((x - 0.25) * 4 * 255)) 0
                  (255 - Zfloor ((x - 0.25) * 4 * 200))
    | Seg3 => rgb 255 (Zfloor ((x - 0.5) * 4 * 255)) 0
    | Seg4 => rgb 255 255 (Zfloor ((x - 0.75) * 4 * 255))
    end.
Proof.
  intro H. unfold getHeatmapColor.
  rewrite clamp_unit by (destruct s; simpl in H; lra).
  destruct s; simpl in H;
    repeat match goal with
           | |- context [Rlt_dec ?a ?b] => destruct (Rlt_dec a b); try lra
           end; reflexivity.
Qed.

Lemma Zfloor_value (x : R) (z : Z) : x = IZR z -> Zfloor x = z.
Proof. intro H. rewrite H. apply ZfloorZ. Qed.

(** C2, as the code has it.  The ramp starts at black and ends at white.
    On each of the four segments the red and green components never
    decrease; the blue component never decreases on the first, third and
    fourth segments and never increases on the second, where it ramps down
    from 255. *)
Theorem heatmap_endpoints_and_monotonicity :
  getHeatmapColor 0 = rgb 0 0 0 /\
  getHeatmapColor 1 = rgb 255 255 255 /\
  forall (s : segment) (u v : R),
    in_segment s u -> in_segment s v -> u <= v ->
    (red (getHeatmapColor u) <= red (getHeatmapColor v))%Z /\
    (green (getHeatmapColor u) <= green (getHeatmapColor v))%Z /\
    (s <> Seg2 ->
     (blue (getHeatmapColor u) <= blue (getHeatmapColor v))%Z) /\
    (s = Seg2 ->
     (blue (getHeatmapColor v) <= blue (getHeatmapColor u))%Z).
Proof.
  split; [|split].
  - rewrite (heatmap_segment Seg1) by (simpl; lra).
    f_equal. apply Zfloor_value. lra.
  - rewrite (heatmap_segment Seg4) by (simpl; lra).
    f_equal. apply Zfloor_value. lra.
  - intros s u v Hu Hv Huv.
    rewrite (heatmap_segment s u Hu), (heatmap_segment s v Hv).
    destruct s; cbn [red green blue in_segment] in *; repeat split; intros;
      try lia; try congruence;
      try (apply Zfloor_le; lra);
      try (apply Z.sub_le_mono_l, Zfloor_le; lra).
Qed.

(** C2 as the specification words it fails on the second segment: from
    0.25 to 0.375 the blue component drops from 255 to 155. *)
Lemma heatmap_blue_decreases_on_second_segment :
  in_segment Seg2 0.25 /\ in_segment Seg2 0.375 /\ 0.25 <= 0.375 /\
  getHeatmapColor 0.25 = rgb 0 0 255 /\
  getHeatmapColor 0.375 = rgb 127 0 155 /\
  ~ (forall (s : segment) (u v : R),
       in_segment s u -> in_segment s v -> u <= v ->
       rgb_le (getHeatmapColor u) (getHeatmapColor v)).
Proof.
  assert (Hu : in_segment Seg2 0.25) by (simpl; lra).
  assert (Hv : in_segment Seg2 0.375) by (simpl; lra).
  assert (Cu : getHeatmapColor 0.25 = rgb 0 0 255).
  { rewrite (heatmap_segment Seg2 _ Hu).
    replace (Zfloor ((0.25 - 0.25) * 4 * 255)) with 0%Z
      by (symmetry; apply Zfloor_value; lra).
    replace (Zfloor ((0.25 - 0.25) * 4 * 200)) with 0%Z
      by (symmetry; apply Zfloor_value; lra).
    reflexivity. }
  assert (Cv : getHeatmapColor 0.375 = rgb 127 0 155).
  { rewrite (heatmap_segment Seg2 _ Hv).
    replace (Zfloor ((0.375 - 0.25) * 4 * 255)) with 127%Z
      by (symmetry; apply Zfloor_eq; simpl; lra).
    replace (Zfloor ((0.375 - 0.25) * 4 * 200)) with 100%Z
      by (symmetry; apply Zfloor_value; lra).
    reflexivity. }
  repeat split; try assumption; try lra.
  intro H. destruct (H Seg2 0.25 0.375 Hu Hv ltac:(lra)) as (_ & _ & Hb).
  rewrite Cu, Cv in Hb. simpl in Hb. lia.
Qed.

End ColourRamp.

(** From 0.5 to 0.625, on the third segment, no component decreases. *)
Lemma heatmap_endpoints_and_monotonicity_witness :
  (Dsp.red (Dsp.getHeatmapColor 0.5) <= Dsp.red (Dsp.getHeatmapColor 0.625))%Z /\
  (Dsp.green (Dsp.getHeatmapColor 0.5) <= Dsp.green (Dsp.getHeatmapColor 0.625))%Z /\
  (Dsp.blue (Dsp.getHeatmapColor 0.5) <= Dsp.blue (Dsp.getHeatmapColor 0.625))%Z.
Proof.
  destruct heatmap_endpoints_and_monotonicity as (_ & _ & Hmono).
  destruct (Hmono Dsp.Seg3 0.5%R 0.625%R) as (Hr & Hg & Hb & _).
  - simpl. lra.
  - simpl. lra.
  - lra.
  - repeat split; [exact Hr | exact Hg | apply Hb; discriminate].
Defined.

(** ** Slices shorter than one window *)

Section ShortSlice.

Import Dsp SpectrogramView.

Lemma slide_not_entered (fuel : nat) (signal windowFunc : list R)
  (windowSize : nat) (step i : Z) (st : Loop) :
  (Z.of_nat (length signal) - Z.of_nat windowSize < i)%Z ->
  slide fuel signal windowFunc windowSize step i st = Ok st.
Proof.
  intro H. destruct fuel; simpl;
    replace (i <=? _)%Z with false by (symmetry; apply Z.leb_gt; lia);
    reflexivity.
Qed.

(** A signal shorter than one window gives an empty grid, whatever the
    overlap, and leaves the extremes at their initial infinities. *)
Lemma computeSpectrogram_short (fuel : nat) (signal : list R) (sampleRate : R)
  (windowSize : nat) (overlap : Z) :
  (length signal < windowSize)%nat ->
  exists sd,
    computeSpectrogram fuel signal sampleRate windowSize overlap = Ok sd /\
    magnitudes sd = [] /\
    maxMag sd = MinusInfinity /\ minMag sd = PlusInfinity.
Proof.
  intro H. unfold computeSpectrogram.
  rewrite slide_not_entered by lia. simpl.
  eexists. repeat split; reflexivity.
Qed.

(** C4, what the code does.  For a slice that is not empty but shorter than
    the 256-sample window, [computeSpectrogram] returns an empty grid; the
    component then renders its canvas, not a placeholder, and the drawing
    effect throws a [TypeError] on [magnitudes[0].length]. *)
Theorem short_slice_draw_throws (fuel : nat) (data : list R) (sampleRate : R)
  (containerWidth height : Z) :
  (0 < length data < nFft)%nat ->
  exists sd,
    specData fuel data sampleRate = Ok (Some sd) /\
    magnitudes sd = [] /\
    render (Some sd) = CanvasWithLegend /\
    drawEffect true true (Some sd) containerWidth height = Throw.
Proof.
  intros [Hpos Hshort]. unfold specData.
  replace (length data =? 0)%nat with false
    by (symmetry; apply Nat.eqb_neq; lia).
  destruct (computeSpectrogram_short fuel data sampleRate
              (Z.of_nat (nFft / 2)) Hshort) as (sd & Hsd & Hgrid & _).
  rewrite Hsd. exists sd. simpl.
  repeat split; try assumption.
  unfold drawEffect. rewrite Hgrid. reflexivity.
Qed.

End ShortSlice.

(** A trial of 100 samples at 100 Hz. *)
Lemma short_slice_draw_throws_witness :
  exists sd,
    SpectrogramView.specData 0 (repeat 0%R 100) 100 = Ok (Some sd) /\
    Dsp.magnitudes sd = [] /\
    SpectrogramView.drawEffect true true (Some sd) 800 500 = Throw.
Proof.
  destruct (@short_slice_draw_throws 0 (repeat 0%R 100) 100%R 800 500)
    as (sd & Hsd & Hgrid & _ & Hthrow).
  - rewrite repeat_length. unfold SpectrogramView.nFft. lia.
  - exists sd. repeat split; assumption.
Defined.

(** ** Fourier transform and magnitude spectrum *)

Section Transform.

Import Dsp.
Local Open Scope nat_scope.

Lemma for_each_map {A : Type} (body : nat -> result A) (g : nat -> A)
  (ks : list nat) :
  (forall k, In k ks -> body k = Ok (g k)) ->
  for_each body ks = Ok (map g ks).
Proof.
  induction ks as [|k rest IH]; intro H; simpl.
  - reflexivity.
  - rewrite (H k) by (left; reflexivity). simpl.
    rewrite IH by (intros j Hj; apply H; right; exact Hj).
    reflexivity.
Qed.

Lemma elem_nth {A : Type} (arr : list A) (k : nat) (d : A) :
  k < length arr -> elem arr k = Ok (nth k arr d).
Proof.
  intro H. unfold elem. rewrite (nth_error_nth' arr d H). reflexivity.
Qed.

Lemma elem_beyond {A : Type} (arr : list A) (k : nat) :
  length arr <= k -> elem arr k = Throw.
Proof.
  intro H. unfold elem. apply nth_error_None in H. rewrite H. reflexivity.
Qed.

Lemma filter_index_length_le {A : Type} (p : nat -> bool) (l : list A) :
  forall i, (length (filter_index p i l) <= length l)%nat.
Proof.
  induction l as [|x rest IH]; intro i; simpl.
  - lia.
  - destruct (p i); simpl; specialize (IH (S i)); lia.
Qed.

Lemma even_indexed_shorter {A : Type} (input : list A) :
  (1 < length input -> length (even_indexed input) < length input)%nat.
Proof.
  unfold even_indexed.
  destruct input as [|x [|y rest]]; cbn; try lia.
  intros _.
  match goal with
  | |- context [filter_index ?p ?i ?l] =>
      pose proof (filter_index_length_le p l i)
  end.
  lia.
Qed.

Lemma odd_indexed_shorter {A : Type} (input : list A) :
  (1 < length input -> length (odd_indexed input) < length input)%nat.
Proof.
  unfold odd_indexed.
  destruct input as [|x rest]; cbn; try lia.
  intros _.
  match goal with
  | |- context [filter_index ?p ?i ?l] =>
      pose proof (filter_index_length_le p l i)
  end.
  lia.
Qed.

Lemma parity_step (i : nat) : (S i mod 2 =? 0) = negb (i mod 2 =? 0).
Proof.
  destruct (Nat.eqb_spec (S i mod 2) 0), (Nat.eqb_spec (i mod 2) 0);
    try reflexivity; exfalso;
    pose proof (Nat.div_mod_eq i 2); pose proof (Nat.div_mod_eq (S i) 2);
    pose proof (Nat.mod_upper_bound i 2); pose proof (Nat.mod_upper_bound (S i) 2);
    lia.
Qed.

(** The two halves of an array, by length. *)
Lemma filter_parity_length {A : Type} (l : list A) :
  forall i,
    length (filter_index (fun i => i mod 2 =? 0) i l)
      = (if i mod 2 =? 0 then Nat.div2 (S (length l)) else Nat.div2 (length l))
    /\
    length (filter_index (fun i => negb (i mod 2 =? 0)) i l)
      = (if i mod 2 =? 0 then Nat.div2 (length l) else Nat.div2 (S (length l))).
Proof.
  induction l as [|x rest IH]; intro i.
  - destruct (i mod 2 =? 0); split; reflexivity.
  - destruct (IH (S i)) as [He Ho]. rewrite parity_step in He, Ho.
    cbn [filter_index length].
    destruct (i mod 2 =? 0); cbn [negb length] in *; rewrite He, Ho;
      split; reflexivity.
Qed.

Lemma even_indexed_length {A : Type} (l : list A) :
  length (even_indexed l) = Nat.div2 (S (length l)).
Proof. exact (proj1 (filter_parity_length l 0)). Qed.

Lemma odd_indexed_length {A : Type} (l : list A) :
  length (odd_indexed l) = Nat.div2 (length l).
Proof. exact (proj2 (filter_parity_length l 0)). Qed.

Lemma filter_index_Forall {A : Type} (P : A -> Prop) (p : nat -> bool)
  (l : list A) :
  Forall P l -> forall i, Forall P (filter_index p i l).
Proof.
  induction 1 as [|x rest Hx Hrest IH]; intro i; simpl.
  - constructor.
  - destruct (p i); [constructor; [exact Hx|]|]; apply IH.
Qed.

Lemma fft_step (input : list Complex) :
  fft input =
    if le_gt_dec (length input) 1 then Ok input
    else
      even <- fft (even_indexed input) ;;
      odd <- fft (odd_indexed input) ;;
      fft_combine (length input) even odd.
Proof.
  rewrite fft_equation_1. destruct (le_gt_dec (length input) 1); reflexivity.
Qed.

Lemma half_of_power (k : nat) :
  Nat.div2 (S (2 ^ S k)) = 2 ^ k /\ Nat.div2 (2 ^ S k) = 2 ^ k.
Proof.
  rewrite Nat.pow_succ_r'. split.
  - apply Nat.div2_succ_double.
  - apply Nat.div2_double.
Qed.

Lemma power_positive (k : nat) : 1 <= 2 ^ k.
Proof. pose proof (Nat.pow_nonzero 2 k). lia. Qed.

(** The combining loop on two halves of length [2 ^ k]. *)
Lemma fft_combine_power (k : nat) (even odd : list Complex) :
  length even = 2 ^ k -> length odd = 2 ^ k ->
  exists out,
    fft_combine (2 ^ S k) even odd = Ok out /\ length out = 2 ^ S k.
Proof.
  intros He Ho. unfold fft_combine, below_half.
  rewrite (proj1 (half_of_power k)).
  set (zero := mkComplex 0 0).
  erewrite for_each_map.
  - cbn [bind]. eexists. split; [reflexivity|].
    rewrite length_app, !length_map, length_seq, Nat.pow_succ_r'. lia.
  - intros j Hj. apply in_seq in Hj. unfold butterfly.
    rewrite (elem_nth odd zero) by lia. cbn [bind].
    rewrite (elem_nth even zero) by lia. cbn [bind].
    instantiate (1 := fun j =>
      let angle := (-2 * PI * INR j / INR (2 ^ S k))%R in
      let o := nth j odd zero in
      let e := nth j even zero in
      let wr := (cos angle * real o - sin angle * imag o)%R in
      let wi := (cos angle * imag o + sin angle * real o)%R in
      (mkComplex (real e + wr) (imag e + wi),
       mkComplex (real e - wr) (imag e - wi))).
    reflexivity.
Qed.

(** On an input whose length is a power of two the transform returns, and
    the output has the length of the input. *)
Lemma fft_power_of_two (k : nat) :
  forall input, length input = 2 ^ k ->
  exists out, fft input = Ok out /\ length out = 2 ^ k.
Proof.
  induction k as [|k IH]; intros input Hlen; rewrite fft_step.
  - destruct (le_gt_dec (length input) 1) as [_|Hgt].
    + exists input. split; [reflexivity | exact Hlen].
    + simpl in Hlen. lia.
  - destruct (le_gt_dec (length input) 1) as [Hle|_].
    + pose proof (power_positive k). rewrite Hlen, Nat.pow_succ_r' in Hle. lia.
    + destruct (IH (even_indexed input)) as (even & He & Hel).
      { rewrite even_indexed_length, Hlen. apply half_of_power. }
      destruct (IH (odd_indexed input)) as (odd & Ho & Hol).
      { rewrite odd_indexed_length, Hlen. apply half_of_power. }
      rewrite He, Ho, Hlen. cbn [bind].
      apply fft_combine_power; assumption.
Qed.

End Transform.

Section MagnitudeSpectrum.

Import Dsp.
Local Open Scope nat_scope.

Lemma for_each_length {A : Type} (body : nat -> result A) (ks : list nat)
  (out : list A) :
  for_each body ks = Ok out -> length out = length ks.
Proof.
  revert out. induction ks as [|k rest IH]; intros out H; simpl in H.
  - inversion H. reflexivity.
  - destruct (body k); try discriminate. simpl in H.
    destruct (for_each body rest) as [tail| |]; try discriminate.
    inversion H. simpl. f_equal. apply IH. reflexivity.
Qed.

Lemma for_each_throw {A : Type} (body : nat -> result A) (ks : list nat)
  (k : nat) :
  (forall j, body j <> OutOfFuel) ->
  In k ks -> body k = Throw -> for_each body ks = Throw.
Proof.
  intros Hfuel. induction ks as [|j rest IH]; intros Hin Hk; simpl.
  - destruct Hin.
  - destruct (body j) eqn:Ej; simpl.
    + destruct Hin as [->|Hin]; [congruence|].
      rewrite (IH Hin Hk). reflexivity.
    + reflexivity.
    + exfalso. exact (Hfuel j Ej).
Qed.

Lemma butterfly_has_fuel (n : nat) (even odd : list Complex) (j : nat) :
  butterfly n even odd j <> OutOfFuel.
Proof.
  unfold butterfly, elem.
  destruct (nth_error odd j); simpl; [|discriminate].
  destruct (nth_error even j); simpl; discriminate.
Qed.

(** For an odd length [n >= 3] the combining loop reads [odd[(n - 1) / 2]],
    one past the end of the odd half, and throws. *)
Lemma fft_combine_odd_length (n : nat) (even odd : list Complex) :
  Nat.odd n = true -> length odd = Nat.div2 n ->
  fft_combine n even odd = Throw.
Proof.
  intros Hodd Hlen. unfold fft_combine.
  rewrite (@for_each_throw _ (butterfly n even odd) _ (Nat.div2 n)).
  - reflexivity.
  - apply butterfly_has_fuel.
  - apply in_seq. unfold below_half.
    pose proof (Nat.div2_odd n) as Hn. rewrite Hodd in Hn. simpl in Hn.
    assert (Hs : S n = 2 * S (Nat.div2 n)) by lia.
    rewrite Hs, Nat.div2_double. lia.
  - unfold butterfly. rewrite elem_beyond by lia. reflexivity.
Qed.

(** Whenever the transform returns, the output has the length of the
    input. *)
Lemma fft_length :
  forall (n : nat) (input out : list Complex),
    length input <= n -> fft input = Ok out -> length out = length input.
Proof.
  induction n as [|n IH]; intros input out Hn Hc;
    rewrite fft_step in Hc;
    destruct (le_gt_dec (length input) 1) as [Hle|Hgt];
    try (inversion Hc; reflexivity); try lia.
  pose proof (even_indexed_shorter input Hgt) as Hev.
  pose proof (odd_indexed_shorter input Hgt) as Hod.
  destruct (fft (even_indexed input)) as [even| |] eqn:Ee; try discriminate.
  destruct (fft (odd_indexed input)) as [odd| |] eqn:Eo; try discriminate.
  cbn [bind] in Hc.
  apply IH in Ee; [|lia]. apply IH in Eo; [|lia].
  rewrite odd_indexed_length in Eo.
  destruct (Nat.odd (length input)) eqn:Hpar.
  - rewrite (fft_combine_odd_length _ even odd Hpar Eo) in Hc. discriminate.
  - unfold fft_combine in Hc.
    destruct (for_each _ _) as [pairs| |] eqn:Ep; try discriminate.
    apply for_each_length in Ep. rewrite length_seq in Ep.
    inversion Hc. rewrite length_app, !length_map, Ep. unfold below_half.
    pose proof (Nat.div2_odd (length input)) as Hdiv.
    rewrite Hpar in Hdiv. simpl in Hdiv.
    assert (Hs : S (length input) = S (2 * Nat.div2 (length input))) by lia.
    rewrite Hs, Nat.div2_succ_double. lia.
Qed.

(** The transform of an all-zero input of length [2 ^ k] is that input. *)
Lemma all_equal_repeat {A : Type} (z : A) (l : list A) :
  Forall (eq z) l -> l = repeat z (length l).
Proof.
  induction 1 as [|x rest Hx Hrest IH]; simpl.
  - reflexivity.
  - rewrite <- Hx, <- IH. reflexivity.
Qed.


Lemma fft_zero (k : nat) :
  forall input, length input = 2 ^ k -> Forall (eq czero) input ->
  fft input = Ok input.
Proof.
  induction k as [|k IH]; intros input Hlen Hzero; rewrite fft_step.
  - destruct (le_gt_dec (length input) 1) as [_|Hgt]; [reflexivity|].
    simpl in Hlen. lia.
  - destruct (le_gt_dec (length input) 1) as [Hle|_].
    { pose proof (power_positive k). rewrite Hlen, Nat.pow_succ_r' in Hle. lia. }
    assert (Hel : length (even_indexed input) = 2 ^ k)
      by (rewrite even_indexed_length, Hlen; apply half_of_power).
    assert (Hol : length (odd_indexed input) = 2 ^ k)
      by (rewrite odd_indexed_length, Hlen; apply half_of_power).
    assert (Hez : Forall (eq czero) (even_indexed input))
      by (apply filter_index_Forall; exact Hzero).
    assert (Hoz : Forall (eq czero) (odd_indexed input))
      by (apply filter_index_Forall; exact Hzero).
    rewrite (IH _ Hel Hez), (IH _ Hol Hoz). cbn [bind].
    rewrite (all_equal_repeat Hez), (all_equal_repeat Hoz), Hel, Hol.
    unfold fft_combine, below_half.
    rewrite Hlen, (proj1 (half_of_power k)).
    rewrite (for_each_map _ (fun _ => (czero, czero))).
    + cbn [bind]. rewrite !map_map. cbn [fst snd].
      rewrite !map_const, length_seq, <- repeat_app.
      rewrite (all_equal_repeat Hzero) at 1. rewrite Hlen.
      do 2 f_equal. rewrite Nat.pow_succ_r'. lia.
    + intros j Hj. apply in_seq in Hj. unfold butterfly.
      rewrite (elem_nth _ czero) by (rewrite repeat_length; lia).
      cbn [bind]. rewrite nth_repeat. unfold czero. cbn [real imag].
      do 2 f_equal; f_equal; ring.
Qed.

End MagnitudeSpectrum.


Section Windows.

Import Dsp RowSpec.
Local Open Scope nat_scope.

Lemma map_seq_nth {A B : Type} (f : A -> B) (l : list A) (d : A) :
  map (fun i => f (nth i l d)) (seq 0 (length l)) = map f l.
Proof.
  induction l as [|x rest IH]; simpl.
  - reflexivity.
  - f_equal. rewrite <- seq_shift, map_map. exact IH.
Qed.

Lemma map_seq_firstn {A B : Type} (f : A -> B) (l : list A) (d : A) (h : nat) :
  h <= length l ->
  map (fun i => f (nth i l d)) (seq 0 h) = map f (firstn h l).
Proof.
  intro H. rewrite <- (map_seq_nth f (firstn h l) d).
  rewrite length_firstn, Nat.min_l by exact H.
  apply map_ext_in. intros i Hi. apply in_seq in Hi.
  rewrite nth_firstn.
  replace (i <? h) with true by (symmetry; apply Nat.ltb_lt; lia).
  reflexivity.
Qed.

Lemma nextPowerOfTwo_bounds (n : nat) :
  1 <= n -> paddedLength n = nextPowerOfTwo n /\ n <= nextPowerOfTwo n.
Proof.
  intro H. unfold paddedLength, nextPowerOfTwo.
  destruct n as [|m]; [lia|]. split; [reflexivity|].
  apply (Nat.log2_log2_up_spec (S m)). lia.
Qed.

(** The padded complex array built by [computeMagnitude]. *)
Lemma complexSignal_zeroPad (signal : list R) (pow2 : nat) :
  length signal <= pow2 ->
  map (fun i => mkComplex (if i <? length signal
                           then nth i signal 0%R else 0%R) 0%R)
      (seq 0 pow2)
    = zeroPad pow2 signal.
Proof.
  intro H. unfold zeroPad.
  replace pow2 with (length signal + (pow2 - length signal)) at 1 by lia.
  rewrite seq_app, map_app. f_equal.
  - rewrite <- (map_seq_nth (fun x => mkComplex x 0%R) signal 0%R).
    apply map_ext_in. intros i Hi. apply in_seq in Hi.
    replace (i <? length signal) with true
      by (symmetry; apply Nat.ltb_lt; lia).
    reflexivity.
  - transitivity (map (fun _ : nat => mkComplex 0 0)
                      (seq (0 + length signal) (pow2 - length signal))).
    + apply map_ext_in. intros i Hi. apply in_seq in Hi.
      replace (i <? length signal) with false
        by (symmetry; apply Nat.ltb_ge; lia).
      reflexivity.
    + rewrite map_const, length_seq. reflexivity.
Qed.

(** [computeMagnitude] on a non-empty signal: it returns the moduli of the
    first bins of the transform of the zero-padded signal. *)
Lemma computeMagnitude_spec (signal : list R) :
  1 <= length signal ->
  let pow2 := nextPowerOfTwo (length signal) in
  exists spectrum,
    fft (zeroPad pow2 signal) = Ok spectrum /\
    length spectrum = pow2 /\
    computeMagnitude signal
      = Ok (map modulus (firstn (below_half pow2) spectrum)).
Proof.
  intros Hlen pow2.
  destruct (nextPowerOfTwo_bounds Hlen) as [Hpad Hle]. fold pow2 in Hpad, Hle.
  assert (Hpl : length (zeroPad pow2 signal) = pow2).
  { unfold zeroPad. rewrite length_app, length_map, repeat_length. lia. }
  destruct (@fft_power_of_two (Nat.log2_up (length signal))
              (zeroPad pow2 signal) Hpl) as (spectrum & Hfft & Hsl).
  fold (nextPowerOfTwo (length signal)) in Hsl. fold pow2 in Hsl.
  exists spectrum. split; [exact Hfft|]. split; [exact Hsl|].
  unfold computeMagnitude. rewrite Hpad.
  rewrite (complexSignal_zeroPad signal Hle), Hfft. cbn [bind].
  assert (Hhalf : below_half pow2 <= pow2).
  { unfold below_half, pow2, nextPowerOfTwo.
    destruct (Nat.log2_up (length signal)) as [|k]; [simpl; lia|].
    rewrite (proj1 (half_of_power k)), Nat.pow_succ_r'. lia. }
  rewrite (for_each_map _ (fun i => modulus (nth i spectrum czero))).
  - f_equal. apply map_seq_firstn. lia.
  - intros i Hi. apply in_seq in Hi.
    rewrite (elem_nth spectrum czero) by lia. reflexivity.
Qed.

(** Under the loop guard the window read at [i] is the pointwise product
    of the samples [[i, i + windowSize)] and the window coefficients. *)
Lemma windowed_samples (signal windowFunc : list R) (windowSize i : nat) :
  i + windowSize <= length signal -> length windowFunc = windowSize ->
  windowed signal windowFunc windowSize (Z.of_nat i)
    = pointwiseProduct (samples signal i windowSize) windowFunc.
Proof.
  intros Hi Hw. unfold windowed, pointwiseProduct, samples.
  assert (Hs : length (firstn windowSize (skipn i signal)) = windowSize).
  { rewrite length_firstn, length_skipn. lia. }
  assert (Hc : length (combine (firstn windowSize (skipn i signal)) windowFunc)
               = windowSize).
  { rewrite length_combine, Hs, Hw. lia. }
  rewrite <- (map_seq_nth (fun p => (fst p * snd p)%R) _ (0%R, 0%R)), Hc.
  apply map_ext_in. intros j Hj. apply in_seq in Hj.
  rewrite combine_nth by lia. cbn [fst snd].
  rewrite nth_firstn, nth_skipn.
  replace (j <? windowSize) with true by (symmetry; apply Nat.ltb_lt; lia).
  do 2 f_equal. lia.
Qed.

Lemma hanningWindow_length (size : nat) : length (hanningWindow size) = size.
Proof. unfold hanningWindow. rewrite length_map. apply length_seq. Qed.

End Windows.

(** ** The sliding-window loop *)

Section SlidingWindow.

Import Dsp RowSpec.
Local Open Scope R_scope.


Lemma map_state_logMag (mags : list R) :
  forall ext,
    map_state logMag ext mags
      = (fold_left update (map decibel mags) ext, map decibel mags).
Proof.
  induction mags as [|m rest IH]; intro ext; simpl.
  - reflexivity.
  - rewrite IH. reflexivity.
Qed.


Lemma tracked_update (seen : list R) (ext : bound * bound) (val : R) :
  tracked seen ext -> tracked (seen ++ [val]) (update ext val).
Proof.
  intros [[-> ->]|(hi & lo & -> & [Hhi Hmax] & [Hlo Hmin])]; right.
  - exists val, val. simpl. repeat split; try (left; reflexivity);
      intros e [<-|[]]; lra.
  - unfold update, gt_bound, lt_bound. cbn [fst snd].
    exists (if Rlt_dec hi val then val else hi),
           (if Rlt_dec val lo then val else lo).
    split; [destruct (Rlt_dec hi val), (Rlt_dec val lo); reflexivity|].
    split; split.
    + apply in_or_app. destruct (Rlt_dec hi val);
        [right; left; reflexivity | left; exact Hhi].
    + intros e He. apply in_app_or in He. destruct He as [He|[<-|[]]].
      * specialize (Hmax e He). destruct (Rlt_dec hi val); lra.
      * destruct (Rlt_dec hi val); lra.
    + apply in_or_app. destruct (Rlt_dec val lo);
        [right; left; reflexivity | left; exact Hlo].
    + intros e He. apply in_app_or in He. destruct He as [He|[<-|[]]].
      * specialize (Hmin e He). destruct (Rlt_dec val lo); lra.
      * destruct (Rlt_dec val lo); lra.
Qed.

Lemma tracked_fold (entries : list R) :
  forall seen ext,
    tracked seen ext ->
    tracked (seen ++ entries) (fold_left update entries ext).
Proof.
  induction entries as [|val rest IH]; intros seen ext H; simpl.
  - rewrite app_nil_r. exact H.
  - replace (seen ++ val :: rest) with ((seen ++ [val]) ++ rest)
      by (rewrite <- app_assoc; reflexivity).
    apply IH, tracked_update, H.
Qed.

Variable signal : list R.
Variable windowSize : nat.
Variable step : Z.

Hypothesis window_not_empty : (1 <= windowSize)%nat.


Lemma windowed_length (i : Z) :
  length (windowed signal (hanningWindow windowSize) windowSize i) = windowSize.
Proof. unfold windowed. rewrite length_map. apply length_seq. Qed.

Lemma computeMagnitude_windowed (i : Z) :
  computeMagnitude (windowed signal (hanningWindow windowSize) windowSize i)
    = Ok (magnitudesAt signal windowSize i).
Proof.
  unfold magnitudesAt.
  destruct (@computeMagnitude_spec (windowed signal (hanningWindow windowSize) windowSize i))
    as (spectrum & _ & _ & Hm).
  - rewrite windowed_length. exact window_not_empty.
  - rewrite Hm. reflexivity.
Qed.


Lemma rowsFrom_succ (i : Z) (count : nat) :
  rowsFrom signal windowSize step i (S count)
    = rowAt signal windowSize i
      :: rowsFrom signal windowSize step (i + step) count.
Proof.
  clear window_not_empty.
  unfold rowsFrom. cbn [seq map]. f_equal.
  - f_equal. lia.
  - rewrite <- seq_shift, map_map. apply map_ext. intro k. f_equal. lia.
Qed.

(** The loop runs once for each window that fits and leaves the rows and
    the running extremes of all their entries. *)
Lemma slide_rows (count : nat) :
  forall (fuel : nat) (i : Z) (st : Loop),
    (count <= fuel)%nat ->
    (forall k : nat, (k < count)%nat ->
       (i + Z.of_nat k * step
        <= Z.of_nat (length signal) - Z.of_nat windowSize)%Z) ->
    (Z.of_nat (length signal) - Z.of_nat windowSize
     < i + Z.of_nat count * step)%Z ->
    slide fuel signal (hanningWindow windowSize) windowSize step i st
      = Ok (let ext := fold_left update (concat (rowsFrom signal windowSize step i count))
                                 (loop_maxMag st, loop_minMag st) in
            mkLoop (loop_result st ++ rowsFrom signal windowSize step i count)
                   (fst ext) (snd ext)).
Proof.
  induction count as [|count IH]; intros fuel i st Hfuel Hfit Hlast.
  - rewrite slide_not_entered by lia.
    unfold rowsFrom. simpl. rewrite app_nil_r. destruct st; reflexivity.
  - destruct fuel as [|fuel]; [lia|].
    cbn [slide].
    replace (i <=? _)%Z with true
      by (symmetry; apply Z.leb_le; specialize (Hfit 0%nat); lia).
    rewrite computeMagnitude_windowed. cbn [bind].
    rewrite map_state_logMag.
    rewrite IH.
    + cbn [loop_result loop_maxMag loop_minMag fst snd].
      rewrite rowsFrom_succ. cbn [concat].
      rewrite fold_left_app, <- app_assoc.
      fold (rowAt signal windowSize i). rewrite <- surjective_pairing. reflexivity.
    + lia.
    + intros k Hk. specialize (Hfit (S k)). lia.
    + lia.
Qed.

End SlidingWindow.

(** ** The transform: what it returns *)

Section TransformValue.

Import Dsp TransformSpec.
Local Open Scope R_scope.

Lemma cadd_assoc (a b c : Complex) : cadd a (cadd b c) = cadd (cadd a b) c.
Proof. unfold cadd. cbn [real imag]. f_equal; ring. Qed.

Lemma cadd_comm (a b : Complex) : cadd a b = cadd b a.
Proof. unfold cadd. f_equal; ring. Qed.

Lemma cmul_assoc (a b c : Complex) : cmul (cmul a b) c = cmul a (cmul b c).
Proof. unfold cmul. cbn [real imag]. f_equal; ring. Qed.

Lemma cmul_cadd (c a b : Complex) :
  cmul c (cadd a b) = cadd (cmul c a) (cmul c b).
Proof. unfold cmul, cadd. cbn [real imag]. f_equal; ring. Qed.

Lemma cmul_zero (c : Complex) : cmul c (mkComplex 0 0) = mkComplex 0 0.
Proof. unfold cmul. cbn [real imag]. f_equal; ring. Qed.

Lemma cmul_one (c : Complex) : cmul c (mkComplex 1 0) = c.
Proof. destruct c. unfold cmul. cbn [real imag]. f_equal; ring. Qed.

Lemma dft_wsum_from (g : nat -> Complex) (l : list Complex) :
  forall i : nat,
    fold_right cadd (mkComplex 0 0)
      (map (fun j => cmul (g (i + j)%nat) (nth j l (mkComplex 0 0)))
           (seq 0 (length l)))
    = wsum g i 1 l.
Proof.
  induction l as [|x rest IH]; intro i.
  - reflexivity.
  - cbn [length seq map fold_right wsum nth].
    rewrite Nat.add_0_r. f_equal.
    rewrite <- seq_shift, map_map.
    replace (i + 1)%nat with (S i) by lia.
    rewrite <- IH. f_equal. apply map_ext. intro j.
    cbn [nth]. do 2 f_equal. lia.
Qed.

Lemma dft_wsum (x : list Complex) (k : nat) :
  dft x k = wsum (fun j => twiddle (length x) (j * k)) 0 1 x.
Proof.
  unfold dft.
  exact (dft_wsum_from (fun j => twiddle (length x) (j * k)) x 0).
Qed.

(** A sum over all positions is the sum over the even ones plus the sum
    over the odd ones. *)
Lemma wsum_split (g : nat -> Complex) (l : list Complex) :
  forall i a : nat,
    wsum g i 1 l =
      if (a mod 2 =? 0)%nat
      then cadd (wsum g i 2 (filter_index (fun i => (i mod 2 =? 0)%nat) a l))
                (wsum g (i + 1) 2
                      (filter_index (fun i => negb (i mod 2 =? 0)%nat) a l))
      else cadd (wsum g (i + 1) 2
                      (filter_index (fun i => (i mod 2 =? 0)%nat) a l))
                (wsum g i 2
                      (filter_index (fun i => negb (i mod 2 =? 0)%nat) a l)).
Proof.
  induction l as [|x rest IH]; intros i a.
  - cbn [filter_index wsum].
    destruct (a mod 2 =? 0)%nat; unfold cadd; cbn [real imag]; f_equal; ring.
  - specialize (IH (i + 1)%nat (S a)). rewrite parity_step in IH.
    cbn [filter_index wsum]. rewrite IH.
    replace (i + 1 + 1)%nat with (i + 2)%nat by lia.
    destruct (a mod 2 =? 0)%nat; cbn [negb wsum].
    + apply cadd_assoc.
    + rewrite !cadd_assoc. f_equal. apply cadd_comm.
Qed.

Lemma wsum_ext (g g' : nat -> Complex) (l : list Complex) :
  forall i i' s s' : nat,
    (forall p : nat, (p < length l)%nat ->
       g (i + s * p)%nat = g' (i' + s' * p)%nat) ->
    wsum g i s l = wsum g' i' s' l.
Proof.
  induction l as [|x rest IH]; intros i i' s s' H.
  - reflexivity.
  - cbn [wsum]. f_equal.
    + f_equal. specialize (H 0%nat ltac:(simpl; lia)).
      rewrite !Nat.mul_0_r, !Nat.add_0_r in H. exact H.
    + apply IH. intros p Hp. specialize (H (S p) ltac:(simpl; lia)).
      replace (i + s + s * p)%nat with (i + s * S p)%nat by lia.
      replace (i' + s' + s' * p)%nat with (i' + s' * S p)%nat by lia.
      exact H.
Qed.

Lemma wsum_scale (c : Complex) (g : nat -> Complex) (l : list Complex) :
  forall i s : nat,
    wsum (fun j => cmul c (g j)) i s l = cmul c (wsum g i s l).
Proof.
  induction l as [|x rest IH]; intros i s; cbn [wsum].
  - symmetry. apply cmul_zero.
  - rewrite IH, cmul_cadd, cmul_assoc. reflexivity.
Qed.

(** *** Roots of unity *)

Lemma twiddle_add (n a b : nat) :
  twiddle n (a + b) = cmul (twiddle n a) (twiddle n b).
Proof.
  unfold twiddle, cmul. cbn [real imag]. rewrite plus_INR.
  replace (-2 * PI * (INR a + INR b) / INR n)
    with (-2 * PI * INR a / INR n + -2 * PI * INR b / INR n)
    by (unfold Rdiv; ring).
  rewrite cos_plus, sin_plus. f_equal; ring.
Qed.

Lemma twiddle_halve (m a : nat) :
  (1 <= m)%nat -> twiddle (2 * m) (2 * a) = twiddle m a.
Proof.
  intro Hm. unfold twiddle. rewrite !mult_INR.
  assert (Hnz : INR m <> 0) by (apply not_0_INR; lia).
  replace (-2 * PI * (INR 2 * INR a) / (INR 2 * INR m))
    with (-2 * PI * INR a / INR m)
    by (simpl (INR 2); field; exact Hnz).
  reflexivity.
Qed.

Lemma twiddle_full_turns (m p : nat) :
  (1 <= m)%nat -> twiddle m (m * p) = mkComplex 1 0.
Proof.
  intro Hm. unfold twiddle. rewrite mult_INR.
  assert (Hnz : INR m <> 0) by (apply not_0_INR; lia).
  replace (-2 * PI * (INR m * INR p) / INR m)
    with (- (0 + 2 * INR p * PI)) by (field; exact Hnz).
  rewrite cos_neg, sin_neg, cos_period, sin_period, cos_0, sin_0.
  f_equal. ring.
Qed.

Lemma twiddle_half_turn (m : nat) :
  (1 <= m)%nat -> twiddle (2 * m) m = mkComplex (-1) 0.
Proof.
  intro Hm. unfold twiddle. rewrite mult_INR.
  assert (Hnz : INR m <> 0) by (apply not_0_INR; lia).
  replace (-2 * PI * INR m / (INR 2 * INR m)) with (- PI)
    by (simpl (INR 2); field; exact Hnz).
  rewrite cos_neg, sin_neg, cos_PI, sin_PI. f_equal. ring.
Qed.

(** *** The two halves *)

Lemma dft_split (x : list Complex) (m k : nat) :
  length x = (2 * m)%nat -> (1 <= m)%nat ->
  dft x k = cadd (dft (even_indexed x) k)
                 (cmul (twiddle (2 * m) k) (dft (odd_indexed x) k)).
Proof.
  intros Hlen Hm.
  assert (Hel : length (even_indexed x) = m).
  { rewrite even_indexed_length, Hlen.
    replace (S (2 * m)) with (S (2 * m))%nat by reflexivity.
    apply Nat.div2_succ_double. }
  assert (Hol : length (odd_indexed x) = m).
  { rewrite odd_indexed_length, Hlen. apply Nat.div2_double. }
  rewrite !dft_wsum, Hlen, Hel, Hol.
  rewrite (wsum_split (fun j => twiddle (2 * m) (j * k)) x 0 0).
  change ((0 mod 2 =? 0)%nat) with true. cbv iota.
  fold (even_indexed x). fold (odd_indexed x). f_equal.
  - apply wsum_ext. intros p _.
    replace ((0 + 2 * p) * k)%nat with (2 * (p * k))%nat by lia.
    replace ((0 + 1 * p) * k)%nat with (p * k)%nat by lia.
    apply twiddle_halve. exact Hm.
  - rewrite <- wsum_scale. apply wsum_ext. intros p _.
    replace ((0 + 1 + 2 * p) * k)%nat with (k + 2 * (p * k))%nat by lia.
    replace ((0 + 1 * p) * k)%nat with (p * k)%nat by lia.
    rewrite twiddle_add, twiddle_halve by exact Hm. reflexivity.
Qed.

Lemma dft_period (x : list Complex) (k : nat) :
  (1 <= length x)%nat -> dft x (k + length x) = dft x k.
Proof.
  intro Hm. rewrite !dft_wsum. apply wsum_ext. intros p _.
  replace ((0 + 1 * p) * (k + length x))%nat
    with ((0 + 1 * p) * k + length x * p)%nat by lia.
  rewrite twiddle_add, twiddle_full_turns by exact Hm.
  apply cmul_one.
Qed.

Lemma map_seq_shift {A : Type} (f : nat -> A) (a len : nat) :
  forall s : nat,
    map (fun j => f (j + a)%nat) (seq s len) = map f (seq (s + a) len).
Proof.
  induction len as [|len IH]; intro s; simpl.
  - reflexivity.
  - f_equal. apply (IH (S s)).
Qed.

Lemma nth_map_seq {A : Type} (f : nat -> A) (len j : nat) (d : A) :
  (j < len)%nat -> nth j (map f (seq 0 len)) d = f j.
Proof.
  intro H. rewrite (nth_indep _ d (f 0%nat)) by (rewrite length_map, length_seq; exact H).
  rewrite map_nth, seq_nth by exact H. reflexivity.
Qed.

Lemma fft_dft_exponent (e : nat) :
  forall input : list Complex,
    length input = (2 ^ e)%nat ->
    fft input = Ok (map (dft input) (seq 0 (length input))).
Proof.
  induction e as [|e IH]; intros input He; rewrite fft_step.
  - destruct (le_gt_dec (length input) 1) as [_|Hgt]; [|simpl in He; lia].
    destruct input as [|x [|y rest]]; try discriminate He.
    cbn [length seq map]. do 2 f_equal.
    unfold dft. cbn [length seq map fold_right nth].
    change (0 * 0)%nat with (1 * 0)%nat.
    rewrite (@twiddle_full_turns 1 0) by lia.
    destruct x. unfold cadd, cmul. cbn [real imag]. f_equal; ring.
  - set (m := (2 ^ e)%nat).
    assert (Hm : (1 <= m)%nat) by apply power_positive.
    assert (Hlen : length input = (2 * m)%nat)
      by (rewrite He; apply Nat.pow_succ_r').
    destruct (le_gt_dec (length input) 1) as [Hle|_]; [lia|].
    assert (Hel : length (even_indexed input) = m).
    { rewrite even_indexed_length, Hlen. apply Nat.div2_succ_double. }
    assert (Hol : length (odd_indexed input) = m).
    { rewrite odd_indexed_length, Hlen. apply Nat.div2_double. }
    rewrite (IH _ Hel), (IH _ Hol), Hel, Hol. cbn [bind].
    unfold fft_combine, below_half.
    rewrite Hlen, Nat.div2_succ_double.
    rewrite (for_each_map _
               (fun j => (dft input j, dft input (j + m)%nat))).
    + cbn [bind]. rewrite !map_map. cbn [fst snd]. f_equal.
      rewrite (map_seq_shift (dft input) m m 0). cbn [Nat.add].
      rewrite <- map_app, <- seq_app. f_equal. f_equal. lia.
    + intros j Hj. apply in_seq in Hj. unfold butterfly.
      rewrite (elem_nth _ (mkComplex 0 0))
        by (rewrite length_map, length_seq; lia).
      cbn [bind].
      rewrite (elem_nth _ (mkComplex 0 0))
        by (rewrite length_map, length_seq; lia).
      cbn [bind]. rewrite !nth_map_seq by lia.
      do 2 f_equal.
      * rewrite (dft_split input j Hlen Hm).
        unfold cadd, cmul, twiddle. cbn [real imag]. reflexivity.
      * rewrite (dft_split input (j + m) Hlen Hm).
        assert (Hper : forall y, length y = m ->
                  dft y (j + m) = dft y j)
          by (intros y Hy; rewrite <- Hy; apply dft_period; lia).
        rewrite (Hper _ Hel), (Hper _ Hol).
        rewrite twiddle_add, twiddle_half_turn by exact Hm.
        unfold cadd, cmul, twiddle. cbn [real imag]. f_equal; ring.
Qed.

(** X3.  On an input whose length is a power of two, [fft] returns the discrete
    Fourier transform: bin [k] is the sum over [j] of
    [input[j] * exp(-2 pi i j k / n)]. *)
Theorem fft_is_dft (input : list Complex) :
  powerOfTwo (length input) ->
  fft input = Ok (map (dft input) (seq 0 (length input))).
Proof.
  intros [e He]. exact (fft_dft_exponent e input He).
Qed.

End TransformValue.

(** Four samples. *)
Lemma fft_is_dft_witness :
  let input := map (fun x => Dsp.mkComplex x 0) [1; 2; 3; 4]%R in
  Dsp.fft input = Ok (map (TransformSpec.dft input) [0; 1; 2; 3]%nat).
Proof.
  intro input.
  apply (fft_is_dft input). exists 2%nat. reflexivity.
Defined.

(** The magnitudes as bins of the discrete Fourier transform. *)

Section MagnitudeBins.

Import Dsp RowSpec TransformSpec.
Local Open Scope R_scope.

Lemma computeMagnitude_dft (signal : list R) :
  (1 <= length signal)%nat ->
  let pow2 := nextPowerOfTwo (length signal) in
  computeMagnitude signal
    = Ok (map (fun k => modulus (dft (zeroPad pow2 signal) k))
              (seq 0 (below_half pow2))).
Proof.
  intros Hlen pow2.
  destruct (computeMagnitude_spec signal Hlen)
    as (spectrum & Hfft & Hsl & Hm).
  destruct (nextPowerOfTwo_bounds Hlen) as [Hpad Hle].
  fold pow2 in Hfft, Hsl, Hm, Hpad, Hle.
  assert (Hpl : length (zeroPad pow2 signal) = pow2).
  { unfold zeroPad. rewrite length_app, length_map, repeat_length. lia. }
  assert (Hhalf : (below_half pow2 <= pow2)%nat).
  { unfold below_half, pow2, nextPowerOfTwo.
    destruct (Nat.log2_up (length signal)) as [|k]; [simpl; lia|].
    rewrite (proj1 (half_of_power k)), Nat.pow_succ_r'. lia. }
  rewrite (@fft_dft_exponent (Nat.log2_up (length signal))
             (zeroPad pow2 signal) Hpl) in Hfft.
  rewrite Hpl in Hfft.
  assert (Hspec : map (dft (zeroPad pow2 signal)) (seq 0 pow2) = spectrum)
    by congruence.
  rewrite Hm. f_equal.
  rewrite <- (map_seq_firstn modulus spectrum (mkComplex 0 0))
    by (rewrite Hsl; exact Hhalf).
  apply map_ext_in. intros k Hk. apply in_seq in Hk.
  rewrite <- Hspec, nth_map_seq by lia. reflexivity.
Qed.

(** The window of the code is the window of the formula. *)
Lemma hanningWindow_coefficients (size : nat) :
  hanningWindow size = map (hannCoefficient size) (seq 0 size).
Proof. reflexivity. Qed.

End MagnitudeBins.

(** ** The spectrogram *)

Section Spectrogram.

Import Dsp RowSpec.
Local Open Scope R_scope.

Variable signal : list R.
Variable sampleRate : R.
Variable windowSize : nat.
Variable overlap : Z.
Variable fuel : nat.

Let step : Z := (Z.of_nat windowSize - overlap)%Z.

(** The number of windows that fit: [floor((N - windowSize) / step) + 1]. *)
Let count : Z :=
  ((Z.of_nat (length signal) - Z.of_nat windowSize) / step + 1)%Z.

Hypothesis window_valid : (2 <= windowSize)%nat.
Hypothesis signal_long_enough : (windowSize <= length signal)%nat.
Hypothesis overlap_below_window : (overlap < Z.of_nat windowSize)%Z.
Hypothesis enough_fuel : (count <= Z.of_nat fuel)%Z.

Lemma step_positive : (0 < step)%Z.
Proof. unfold step. lia. Qed.

Lemma count_positive : (1 <= count)%Z.
Proof.
  unfold count. pose proof step_positive.
  assert (0 <= (Z.of_nat (length signal) - Z.of_nat windowSize) / step)%Z
    by (apply Z.div_pos; lia).
  lia.
Qed.

(** Window [k] fits exactly when [k < count]. *)
Lemma window_fits (k : nat) :
  (Z.of_nat k < count)%Z <->
  (Z.of_nat k * step <= Z.of_nat (length signal) - Z.of_nat windowSize)%Z.
Proof.
  unfold count. pose proof step_positive as Hs.
  set (d := (Z.of_nat (length signal) - Z.of_nat windowSize)%Z).
  pose proof (Z.div_mod d step ltac:(lia)) as Hdm.
  pose proof (Z.mod_pos_bound d step Hs) as Hmod.
  split; intro H; nia.
Qed.

(** The grid and the extremes that [computeSpectrogram] returns. *)
Lemma computeSpectrogram_grid :
  exists sd,
    computeSpectrogram fuel signal sampleRate windowSize overlap = Ok sd /\
    magnitudes sd = rowsFrom signal windowSize step 0 (Z.to_nat count) /\
    tracked (concat (magnitudes sd)) (maxMag sd, minMag sd).
Proof.
  pose proof count_positive as Hc.
  unfold computeSpectrogram. fold step.
  rewrite (@slide_rows signal windowSize step ltac:(lia) (Z.to_nat count)).
  - cbn [bind loop_result loop_maxMag loop_minMag app].
    eexists. split; [reflexivity|]. cbn [magnitudes maxMag minMag].
    split; [reflexivity|].
    rewrite <- surjective_pairing.
    apply (tracked_fold _ (seen := [])). left. split; reflexivity.
  - lia.
  - intros k Hk. apply window_fits. lia.
  - assert (H : ~ (Z.of_nat (Z.to_nat count) < count)%Z) by lia.
    rewrite window_fits in H. lia.
Qed.

Lemma rowsFrom_nth (r : nat) :
  (r < Z.to_nat count)%nat ->
  nth_error (rowsFrom signal windowSize step 0 (Z.to_nat count)) r
    = Some (rowAt signal windowSize (Z.of_nat r * step)).
Proof.
  intro H. unfold rowsFrom.
  rewrite nth_error_map, nth_error_seq.
  replace (r <? Z.to_nat count)%nat with true
    by (symmetry; apply Nat.ltb_lt; exact H).
  reflexivity.
Qed.

Lemma half_of_padded :
  below_half (nextPowerOfTwo windowSize) = (nextPowerOfTwo windowSize / 2)%nat
  /\ (1 <= below_half (nextPowerOfTwo windowSize)
        <= nextPowerOfTwo windowSize)%nat.
Proof.
  unfold nextPowerOfTwo, below_half.
  pose proof (Nat.log2_up_pos windowSize ltac:(lia)) as Hpos.
  destruct (Nat.log2_up windowSize) as [|k]; [lia|].
  rewrite (proj1 (half_of_power k)).
  pose proof (power_positive k).
  rewrite Nat.pow_succ_r', Nat.mul_comm, Nat.div_mul by lia. lia.
Qed.

Lemma decibel_pseudoDecibel (m : R) : decibel m = pseudoDecibel m.
Proof. unfold decibel, pseudoDecibel. ring. Qed.

(** The row pushed for a window that fits is the row the specification
    describes, and it has an entry. *)
Lemma rowAt_specified (start : nat) :
  (start + windowSize <= length signal)%nat ->
  specifiedRow signal windowSize start
    (rowAt signal windowSize (Z.of_nat start)) /\
  rowAt signal windowSize (Z.of_nat start) <> [].
Proof.
  intro Hfit. unfold rowAt, magnitudesAt.
  pose proof (hanningWindow_length windowSize) as Hw.
  pose proof (@computeMagnitude_dft
                (windowed signal (hanningWindow windowSize) windowSize
                          (Z.of_nat start))) as Hm.
  rewrite windowed_length in Hm. specialize (Hm ltac:(lia)). cbv zeta in Hm.
  destruct half_of_padded as [Hhalf Hbounds].
  rewrite Hm. split.
  - unfold specifiedRow. cbv zeta.
    rewrite <- hanningWindow_coefficients.
    rewrite <- (@windowed_samples signal (hanningWindow windowSize)
                   windowSize start Hfit Hw).
    rewrite map_map, <- Hhalf. apply map_ext. intro k.
    apply decibel_pseudoDecibel.
  - intro Hnil. apply (f_equal (@length R)) in Hnil.
    rewrite !length_map, length_seq in Hnil. simpl in Hnil. lia.
Qed.

(** The grid has an entry, and the extremes returned are its least and its
    greatest entry. *)
Lemma computeSpectrogram_extremes (sd : SpectrogramData) :
  computeSpectrogram fuel signal sampleRate windowSize overlap = Ok sd ->
  exists lo hi,
    minMag sd = Finite lo /\ maxMag sd = Finite hi /\
    isMinimum lo (concat (magnitudes sd)) /\
    isMaximum hi (concat (magnitudes sd)).
Proof.
  intro Hsd. pose proof count_positive as Hc.
  destruct computeSpectrogram_grid as (sd' & Hsd' & Hgrid & Hext).
  assert (sd' = sd) by congruence. subst sd'.
  destruct Hext as [[Hnil _]|(hi & lo & Heq & Hmax & Hmin)].
  - exfalso. rewrite Hgrid in Hnil.
    destruct (Z.to_nat count) as [|n] eqn:En; [lia|].
    rewrite rowsFrom_succ in Hnil. cbn [concat] in Hnil.
    apply app_eq_nil in Hnil. destruct Hnil as [Hrow _].
    apply (proj2 (@rowAt_specified 0 ltac:(simpl; lia))). exact Hrow.
  - inversion Heq. exists lo, hi. repeat split; try assumption;
      try apply Hmin; try apply Hmax.
Qed.

(** C1.  For a window of at least two samples, a signal of at least one
    window and an overlap below the window, [computeSpectrogram] returns
    once the loop has run [floor((N - windowSize) / step) + 1] times, the
    grid has that many rows, row [r] is the one specified for the samples
    [[r * step, r * step + windowSize)] (Hann formula, zero padding,
    discrete Fourier transform, magnitudes of the first half of the bins,
    pseudo-decibels), and [minMag] and [maxMag] are the least and the
    greatest entry of the grid. *)
Theorem spectrogram_rows :
  exists sd,
    computeSpectrogram fuel signal sampleRate windowSize overlap = Ok sd /\
    Z.of_nat (length (magnitudes sd)) = count /\
    (forall r : nat, (r < length (magnitudes sd))%nat ->
       let start := Z.to_nat (Z.of_nat r * step) in
       (start + windowSize <= length signal)%nat /\
       exists row,
         nth_error (magnitudes sd) r = Some row /\
         specifiedRow signal windowSize start row) /\
    exists lo hi,
      minMag sd = Finite lo /\ maxMag sd = Finite hi /\
      isMinimum lo (concat (magnitudes sd)) /\
      isMaximum hi (concat (magnitudes sd)).
Proof.
  pose proof count_positive as Hc. pose proof step_positive as Hs.
  destruct computeSpectrogram_grid as (sd & Hsd & Hgrid & Hext).
  assert (Hlen : length (magnitudes sd) = Z.to_nat count).
  { rewrite Hgrid. unfold rowsFrom. rewrite length_map. apply length_seq. }
  assert (Hstart : forall r : nat, (r < Z.to_nat count)%nat ->
            (Z.to_nat (Z.of_nat r * step) + windowSize <= length signal)%nat).
  { intros r Hr.
    assert (Hf : (Z.of_nat r < count)%Z) by lia.
    apply window_fits in Hf. nia. }
  exists sd. split; [exact Hsd|]. split; [lia|]. split.
  - intros r Hr start. rewrite Hlen in Hr.
    split; [apply Hstart; exact Hr|].
    exists (rowAt signal windowSize (Z.of_nat r * step)).
    split; [rewrite Hgrid; apply rowsFrom_nth; exact Hr|].
    replace (Z.of_nat r * step)%Z with (Z.of_nat start) by (unfold start; nia).
    apply rowAt_specified. apply Hstart. exact Hr.
  - apply computeSpectrogram_extremes. exact Hsd.
Qed.

End Spectrogram.

(** ** The spectrogram of an all-zero signal *)

Section Silence.

Import Dsp RowSpec.
Local Open Scope R_scope.


Variable signal : list R.
Variable windowSize : nat.

Hypothesis all_zero : Forall (eq 0) signal.
Hypothesis window_not_empty : (1 <= windowSize)%nat.

Lemma nth_all_zero (k : nat) : nth k signal 0 = 0.
Proof.
  destruct (Nat.lt_ge_cases k (length signal)) as [Hlt|Hge].
  - symmetry. exact (proj1 (Forall_nth (eq 0) signal) all_zero k 0 Hlt).
  - apply nth_overflow. exact Hge.
Qed.

Lemma windowed_all_zero (windowFunc : list R) (i : Z) :
  windowed signal windowFunc windowSize i = repeat 0 windowSize.
Proof.
  unfold windowed.
  rewrite <- (length_seq windowSize 0) at 2. rewrite <- map_const.
  apply map_ext. intro j. rewrite nth_all_zero. ring.
Qed.

Lemma zeroPad_all_zero (n m : nat) :
  zeroPad n (repeat 0 m) = repeat czero (m + (n - m)).
Proof.
  unfold zeroPad. rewrite map_repeat, repeat_length, repeat_app. reflexivity.
Qed.

Lemma modulus_czero : modulus czero = 0.
Proof.
  unfold modulus, czero. cbn [real imag].
  replace (0 ^ 2 + 0 ^ 2) with 0 by ring. apply sqrt_0.
Qed.

(** Every row over an all-zero signal is the constant floor. *)
Lemma rowAt_all_zero (i : Z) :
  Forall (eq floorLevel) (rowAt signal windowSize i).
Proof.
  unfold rowAt, magnitudesAt. rewrite windowed_all_zero.
  destruct (@computeMagnitude_spec (repeat 0 windowSize))
    as (spectrum & Hfft & Hlen & Hm).
  { rewrite repeat_length. exact window_not_empty. }
  rewrite repeat_length in Hfft, Hlen, Hm.
  destruct (@nextPowerOfTwo_bounds windowSize window_not_empty) as [_ Hle].
  rewrite zeroPad_all_zero in Hfft.
  replace (windowSize + (nextPowerOfTwo windowSize - windowSize))%nat
    with (nextPowerOfTwo windowSize) in Hfft by lia.
  rewrite (@fft_zero (Nat.log2_up windowSize)) in Hfft.
  - inversion Hfft as [Hspec]. rewrite Hm.
    apply Forall_forall. intros e He.
    apply in_map_iff in He. destruct He as (m & <- & Hin).
    apply in_map_iff in Hin. destruct Hin as (c & <- & Hc).
    assert (Hc' : In c (repeat czero (nextPowerOfTwo windowSize))).
    { rewrite <- (firstn_skipn (below_half (nextPowerOfTwo windowSize))).
      apply in_or_app. left. rewrite Hspec. exact Hc. }
    apply repeat_spec in Hc'. subst c.
    rewrite modulus_czero. unfold decibel, floorLevel.
    replace (0 + 1e-6) with 1e-6 by ring. ring.
  - apply repeat_length.
  - apply Forall_forall. intros c Hc. apply repeat_spec in Hc.
    symmetry. exact Hc.
Qed.

Lemma rowsFrom_all_zero (step i : Z) (count : nat) :
  Forall (eq floorLevel) (concat (rowsFrom signal windowSize step i count)).
Proof.
  apply Forall_concat. unfold rowsFrom. apply Forall_map.
  apply Forall_forall. intros k _. apply rowAt_all_zero.
Qed.

End Silence.

(** C7.  For an all-zero signal of at least one window (a window of at
    least two samples, an overlap below the window), [computeSpectrogram]
    returns a grid that is not empty, every entry of it is
    [20 * log10(1e-6)], and [minMag] equals [maxMag]: both are that
    value. *)
Theorem spectrogram_of_silence (signal : list R) (sampleRate : R)
  (windowSize : nat) (overlap : Z) (fuel : nat) :
  Forall (eq 0%R) signal ->
  (2 <= windowSize)%nat ->
  (windowSize <= length signal)%nat ->
  (overlap < Z.of_nat windowSize)%Z ->
  ((Z.of_nat (length signal) - Z.of_nat windowSize)
     / (Z.of_nat windowSize - overlap) + 1 <= Z.of_nat fuel)%Z ->
  exists sd,
    Dsp.computeSpectrogram fuel signal sampleRate windowSize overlap = Ok sd /\
    Dsp.magnitudes sd <> [] /\
    (forall row e, In row (Dsp.magnitudes sd) -> In e row -> e = floorLevel) /\
    Dsp.minMag sd = Dsp.maxMag sd /\
    Dsp.minMag sd = Dsp.Finite floorLevel.
Proof.
  intros Hzero Hw Hlen Hov Hfuel.
  destruct (@computeSpectrogram_grid signal sampleRate windowSize overlap fuel
              Hw Hlen Hov Hfuel) as (sd & Hsd & Hgrid & Hext).
  pose proof (@rowsFrom_all_zero signal windowSize Hzero ltac:(lia)
                (Z.of_nat windowSize - overlap) 0
                (Z.to_nat ((Z.of_nat (length signal) - Z.of_nat windowSize)
                           / (Z.of_nat windowSize - overlap) + 1)))
    as Hall.
  rewrite <- Hgrid in Hall.
  assert (Hentries : forall e, In e (concat (Dsp.magnitudes sd)) ->
                               e = floorLevel).
  { intros e He. symmetry.
    exact (proj1 (Forall_forall _ _) Hall e He). }
  destruct (@computeSpectrogram_extremes signal sampleRate windowSize overlap
              fuel Hw Hlen Hov Hfuel sd Hsd)
    as (lo & hi & Hlo & Hhi & [Hinlo _] & [Hinhi _]).
  exists sd. split; [exact Hsd|].
  split.
  { intro Hnil. rewrite Hnil in Hinlo. destruct Hinlo. }
  split.
  { intros row e Hrow He. apply Hentries.
    apply in_concat. exists row. split; assumption. }
  rewrite Hlo, Hhi, (Hentries lo Hinlo), (Hentries hi Hinhi).
  split; reflexivity.
Qed.


(** 600 samples, windows of 256 every 128: three rows, the third from the
    samples [[256, 512)]; the last 88 samples give no row. *)
Lemma spectrogram_rows_witness :
  let signal := map INR (seq 0 600) in
  exists sd,
    Dsp.computeSpectrogram 3 signal 100 256 128 = Ok sd /\
    length (Dsp.magnitudes sd) = 3%nat /\
    exists row,
      nth_error (Dsp.magnitudes sd) 2 = Some row /\
      RowSpec.specifiedRow signal 256 256 row.
Proof.
  intro signal.
  assert (Hlen : length signal = 600%nat)
    by (unfold signal; rewrite length_map; apply length_seq).
  destruct (@spectrogram_rows signal 100%R 256 128 3)
    as (sd & Hsd & Hcount & Hrows & _).
  - lia.
  - rewrite Hlen. lia.
  - lia.
  - rewrite Hlen. vm_compute. discriminate.
  - rewrite Hlen in Hcount.
    assert (Hthree : length (Dsp.magnitudes sd) = 3%nat).
    { apply Nat2Z.inj. rewrite Hcount. vm_compute. reflexivity. }
    exists sd. split; [exact Hsd|]. split; [exact Hthree|].
    destruct (Hrows 2%nat ltac:(lia)) as (_ & row & Hrow & Hspec).
    exists row. split; [exact Hrow | exact Hspec].
Defined.

(** 512 zero samples, windows of 256 every 128. *)
Lemma spectrogram_of_silence_witness :
  exists sd,
    Dsp.computeSpectrogram 3 (repeat 0%R 512) 256 256 128 = Ok sd /\
    Dsp.minMag sd = Dsp.maxMag sd /\
    Dsp.minMag sd = Dsp.Finite floorLevel.
Proof.
  destruct (@spectrogram_of_silence (repeat 0%R 512) 256%R 256 128 3)
    as (sd & Hsd & _ & _ & Heq & Hmin).
  - apply Forall_forall. intros x Hx. apply repeat_spec in Hx.
    symmetry. exact Hx.
  - lia.
  - rewrite repeat_length. lia.
  - lia.
  - rewrite repeat_length. vm_compute. discriminate.
  - exists sd. repeat split; assumption.
Defined.


(** * Further properties of the code *)

(** ** Colour ramp: range and clamping *)

Section ColourRange.

Import Dsp.
Local Open Scope R_scope.

Lemma clamped_unit (value : R) : 0 <= Rmax 0 (Rmin 1 value) <= 1.
Proof.
  split.
  - apply Rmax_l.
  - apply Rmax_lub; [lra | apply Rmin_l].
Qed.

Lemma Zfloor_upper (x : R) (hi : Z) : x <= IZR hi -> (Zfloor x <= hi)%Z.
Proof.
  intro H. rewrite <- (ZfloorZ hi). apply Zfloor_le. exact H.
Qed.

Lemma below_real (c t : R) :
  ColourScale.below (Some c) t = if Rlt_dec c t then true else false.
Proof. reflexivity. Qed.

(** On a real number the function is the real-valued one. *)
Lemma getHeatmapColor_real (x : R) :
  ColourScale.getHeatmapColor (ColourScale.Real x)
    = ColourScale.ofRGB (getHeatmapColor x).
Proof.
  unfold ColourScale.getHeatmapColor, getHeatmapColor, ColourScale.ofRGB.
  cbn [ColourScale.clamp]. rewrite !below_real.
  set (c := Rmax 0 (Rmin 1 x)).
  repeat match goal with
         | |- context [Rlt_dec ?a ?b] => destruct (Rlt_dec a b)
         end; reflexivity.
Qed.

Lemma getHeatmapColor_components (value : R) :
  let c := getHeatmapColor value in
  (0 <= red c <= 255)%Z /\ (0 <= green c <= 255)%Z /\ (0 <= blue c <= 255)%Z.
Proof.
  cbv zeta. unfold getHeatmapColor.
  pose proof (clamped_unit value) as Hc.
  set (x := Rmax 0 (Rmin 1 value)) in *.
  repeat match goal with
         | |- context [Rlt_dec ?a ?b] => destruct (Rlt_dec a b)
         end; cbn [red green blue]; repeat split; try lia;
    try (apply Zfloor_lub; lra);
    try (apply Zfloor_upper; lra);
    try (assert (0 <= Zfloor ((x - 0.25) * 4 * 200))%Z
           by (apply Zfloor_lub; lra);
         assert (Zfloor ((x - 0.25) * 4 * 200) <= 200)%Z
           by (apply Zfloor_upper; lra);
         lia).
Qed.

Lemma getHeatmapColor_low (value : R) :
  value <= 0 -> getHeatmapColor value = rgb 0 0 0.
Proof.
  intro H. unfold getHeatmapColor.
  replace (Rmax 0 (Rmin 1 value)) with 0.
  - destruct (Rlt_dec 0 0.25); [|lra]. f_equal. apply Zfloor_value. lra.
  - rewrite Rmin_right by lra. symmetry. apply Rmax_left. exact H.
Qed.

Lemma getHeatmapColor_high (value : R) :
  1 <= value -> getHeatmapColor value = rgb 255 255 255.
Proof.
  intro H. unfold getHeatmapColor.
  replace (Rmax 0 (Rmin 1 value)) with 1.
  - repeat match goal with
           | |- context [Rlt_dec ?a ?b] => destruct (Rlt_dec a b); try lra
           end.
    f_equal. apply Zfloor_value. lra.
  - rewrite Rmin_left by lra. symmetry. apply Rmax_right. lra.
Qed.

Lemma getHeatmapColor_clamped (x : R) :
  ColourScale.clamp (ColourScale.Real x) = Some (Rmax 0 (Rmin 1 x)).
Proof. reflexivity. Qed.

(** X1.  On every argument but [NaN], the infinities included,
    [getHeatmapColor] prints three integers between 0 and 255; an argument
    at or below 0 gives black and one at or above 1 gives white, as the
    argument is clamped to [[0, 1]].  [NaN] passes the clamp and every
    comparison is false of it: the function returns [rgb(255,255,NaN)],
    which is no colour. *)
Theorem heatmap_range_and_clamp :
  (forall value : ColourScale.argument,
     value <> ColourScale.NotANumber ->
     exists red green blue : Z,
       ColourScale.getHeatmapColor value
         = ColourScale.components (Some red) (Some green) (Some blue) /\
       (0 <= red <= 255)%Z /\ (0 <= green <= 255)%Z /\
       (0 <= blue <= 255)%Z) /\
  (forall x : R, x <= 0 ->
     ColourScale.getHeatmapColor (ColourScale.Real x)
       = ColourScale.components (Some 0%Z) (Some 0%Z) (Some 0%Z)) /\
  ColourScale.getHeatmapColor ColourScale.NegativeInfinity
    = ColourScale.components (Some 0%Z) (Some 0%Z) (Some 0%Z) /\
  (forall x : R, 1 <= x ->
     ColourScale.getHeatmapColor (ColourScale.Real x)
       = ColourScale.components (Some 255%Z) (Some 255%Z) (Some 255%Z)) /\
  ColourScale.getHeatmapColor ColourScale.PositiveInfinity
    = ColourScale.components (Some 255%Z) (Some 255%Z) (Some 255%Z) /\
  ColourScale.getHeatmapColor ColourScale.NotANumber
    = ColourScale.components (Some 255%Z) (Some 255%Z) None.
Proof.
  assert (Hlow : ColourScale.getHeatmapColor ColourScale.NegativeInfinity
                 = ColourScale.components (Some 0%Z) (Some 0%Z) (Some 0%Z)).
  { transitivity (ColourScale.getHeatmapColor (ColourScale.Real 0)).
    - unfold ColourScale.getHeatmapColor. cbn [ColourScale.clamp].
      replace (Rmax 0 (Rmin 1 0)) with 0; [reflexivity|].
      rewrite Rmin_right by lra. symmetry. apply Rmax_left. lra.
    - rewrite getHeatmapColor_real, getHeatmapColor_low by lra.
      reflexivity. }
  assert (Hhigh : ColourScale.getHeatmapColor ColourScale.PositiveInfinity
                  = ColourScale.components (Some 255%Z) (Some 255%Z)
                                           (Some 255%Z)).
  { transitivity (ColourScale.getHeatmapColor (ColourScale.Real 1)).
    - unfold ColourScale.getHeatmapColor. cbn [ColourScale.clamp].
      replace (Rmax 0 (Rmin 1 1)) with 1; [reflexivity|].
      rewrite Rmin_left by lra. symmetry. apply Rmax_right. lra.
    - rewrite getHeatmapColor_real, getHeatmapColor_high by lra.
      reflexivity. }
  split; [|split; [|split; [|split; [|split]]]].
  - intros [| | |x] Hvalue.
    + contradiction.
    + exists 0%Z, 0%Z, 0%Z. split; [exact Hlow | lia].
    + exists 255%Z, 255%Z, 255%Z. split; [exact Hhigh | lia].
    + rewrite getHeatmapColor_real.
      pose proof (getHeatmapColor_components x) as Hc. cbv zeta in Hc.
      exists (red (getHeatmapColor x)), (green (getHeatmapColor x)),
             (blue (getHeatmapColor x)).
      split; [reflexivity | exact Hc].
  - intros x Hx. rewrite getHeatmapColor_real, getHeatmapColor_low by exact Hx.
    reflexivity.
  - exact Hlow.
  - intros x Hx.
    rewrite getHeatmapColor_real, getHeatmapColor_high by exact Hx.
    reflexivity.
  - exact Hhigh.
  - reflexivity.
Qed.

End ColourRange.

(** Far below and far above the unit interval. *)
Lemma heatmap_range_and_clamp_witness :
  ColourScale.getHeatmapColor (ColourScale.Real (-3))
    = ColourScale.components (Some 0%Z) (Some 0%Z) (Some 0%Z) /\
  ColourScale.getHeatmapColor (ColourScale.Real 7)
    = ColourScale.components (Some 255%Z) (Some 255%Z) (Some 255%Z).
Proof.
  destruct heatmap_range_and_clamp as (_ & Hlow & _ & Hhigh & _).
  split.
  - apply Hlow. lra.
  - apply Hhigh. lra.
Defined.

(** ** The transform: when it returns *)

Section TransformDomain.

Import Dsp TransformSpec.
Local Open Scope nat_scope.

Lemma for_each_has_fuel {A : Type} (body : nat -> result A) (ks : list nat) :
  (forall j, body j <> OutOfFuel) -> for_each body ks <> OutOfFuel.
Proof.
  intro H. induction ks as [|k rest IH]; simpl; [discriminate|].
  destruct (body k) eqn:E; simpl; try discriminate.
  - destruct (for_each body rest); simpl; try discriminate.
    exfalso. apply IH. reflexivity.
  - exfalso. exact (H k E).
Qed.

Lemma fft_has_fuel :
  forall (n : nat) (input : list Complex),
    length input <= n -> fft input <> OutOfFuel.
Proof.
  induction n as [|n IH]; intros input Hn; rewrite fft_step;
    destruct (le_gt_dec (length input) 1) as [Hle|Hgt];
    try discriminate; try lia.
  pose proof (even_indexed_shorter input Hgt) as Hev.
  pose proof (odd_indexed_shorter input Hgt) as Hod.
  destruct (fft (even_indexed input)) as [even| |] eqn:Ee; cbn [bind];
    try discriminate.
  - destruct (fft (odd_indexed input)) as [odd| |] eqn:Eo; cbn [bind];
      try discriminate.
    + unfold fft_combine.
      pose proof (for_each_has_fuel (butterfly (length input) even odd)
                    (seq 0 (below_half (length input)))
                    (butterfly_has_fuel (length input) even odd)) as Hf.
      destruct (for_each _ _); cbn [bind]; try discriminate.
      exfalso. apply Hf. reflexivity.
    + exfalso. apply (IH (odd_indexed input)); [lia | exact Eo].
  - exfalso. apply (IH (even_indexed input)); [lia | exact Ee].
Qed.

Lemma half_not_power (n : nat) :
  Nat.odd n = false -> 1 < n -> ~ powerOfTwo n ->
  ~ powerOfTwo (Nat.div2 (S n)) /\ Nat.div2 (S n) < n /\ 1 < Nat.div2 (S n).
Proof.
  intros Hpar Hn Hnot.
  pose proof (Nat.div2_odd n) as Hdiv. rewrite Hpar in Hdiv. simpl in Hdiv.
  assert (Hs : S n = S (2 * Nat.div2 n)) by lia.
  rewrite Hs, Nat.div2_succ_double.
  assert (Hnp : ~ powerOfTwo (Nat.div2 n)).
  { intros [k Hk]. apply Hnot. exists (S k).
    rewrite Nat.pow_succ_r'. lia. }
  split; [exact Hnp|]. split; [lia|].
  destruct (Nat.div2 n) as [|[|m]] eqn:E; try lia.
  exfalso. apply Hnp. exists 0. reflexivity.
Qed.

Lemma fft_throws :
  forall (n : nat) (input : list Complex),
    length input <= n -> 1 < length input -> ~ powerOfTwo (length input) ->
    fft input = Throw.
Proof.
  induction n as [|n IH]; intros input Hn Hgt Hnot; [lia|].
  rewrite fft_step.
  destruct (le_gt_dec (length input) 1) as [Hle|_]; [lia|].
  destruct (Nat.odd (length input)) eqn:Hpar.
  - pose proof (even_indexed_shorter input Hgt) as Hev.
    pose proof (odd_indexed_shorter input Hgt) as Hod.
    destruct (fft (even_indexed input)) as [even| |] eqn:Ee; cbn [bind].
    + destruct (fft (odd_indexed input)) as [odd| |] eqn:Eo; cbn [bind].
      * apply fft_combine_odd_length; [exact Hpar|].
        rewrite (@fft_length n (odd_indexed input) odd ltac:(lia) Eo).
        apply odd_indexed_length.
      * reflexivity.
      * exfalso. apply (@fft_has_fuel n (odd_indexed input)); [lia | exact Eo].
    + reflexivity.
    + exfalso. apply (@fft_has_fuel n (even_indexed input)); [lia | exact Ee].
  - destruct (half_not_power Hpar Hgt Hnot) as (Hnp & Hlt & Hone).
    rewrite (IH (even_indexed input)).
    + reflexivity.
    + rewrite even_indexed_length. lia.
    + rewrite even_indexed_length. exact Hone.
    + rewrite even_indexed_length. exact Hnp.
Qed.

(** X2.  [fft] returns exactly on the inputs of length 0 or a power of two (1
    included), with an output of the length of the input; on every other
    input it throws a [TypeError]. *)
Theorem fft_returns_iff_power_of_two (input : list Complex) :
  (length input = 0 \/ powerOfTwo (length input) ->
   exists out, fft input = Ok out /\ length out = length input) /\
  (length input <> 0 -> ~ powerOfTwo (length input) -> fft input = Throw).
Proof.
  split.
  - intros [Hz|[k Hk]].
    + exists input. rewrite fft_step.
      destruct (le_gt_dec (length input) 1); [split; reflexivity | lia].
    + destruct (fft_power_of_two k input Hk) as (out & Hout & Hlen).
      exists out. split; [exact Hout | congruence].
  - intros Hnz Hnot. apply (@fft_throws (length input)); try lia; try assumption.
    destruct (length input) as [|[|m]] eqn:E; try lia.
    exfalso. apply Hnot. exists 0. reflexivity.
Qed.

End TransformDomain.

(** A length of 4 is transformed; a length of 3 or 6 throws. *)
Lemma fft_returns_iff_power_of_two_witness :
  (exists out, Dsp.fft (repeat (Dsp.mkComplex 1 0) 4) = Ok out /\
               length out = 4%nat) /\
  Dsp.fft (repeat (Dsp.mkComplex 1 0) 3) = Throw /\
  Dsp.fft (repeat (Dsp.mkComplex 1 0) 6) = Throw.
Proof.
  assert (Hnot : forall n : nat, (n = 3 \/ n = 6)%nat ->
                   ~ TransformSpec.powerOfTwo n).
  { intros n Hn [k Hk].
    destruct k as [|[|[|k]]]; simpl in Hk; lia. }
  split; [|split].
  - apply (proj1 (fft_returns_iff_power_of_two (repeat (Dsp.mkComplex 1 0) 4))).
    right. exists 2%nat. reflexivity.
  - apply (proj2 (fft_returns_iff_power_of_two (repeat (Dsp.mkComplex 1 0) 3))).
    + simpl. discriminate.
    + apply Hnot. left. reflexivity.
  - apply (proj2 (fft_returns_iff_power_of_two (repeat (Dsp.mkComplex 1 0) 6))).
    + simpl. discriminate.
    + apply Hnot. right. reflexivity.
Defined.

(** ** The magnitude spectrum *)

Section MagnitudeValue.

Import Dsp TransformSpec.
Local Open Scope R_scope.

(** X4.  [computeMagnitude] never throws.  It returns one magnitude for each of
    the first half of the bins of the padded length, none of them negative;
    for a signal that is not empty they are the moduli of the discrete
    Fourier transform of the signal padded with zeros to the next power of
    two. *)
Theorem computeMagnitude_total (signal : list R) :
  exists mags,
    computeMagnitude signal = Ok mags /\
    length mags = below_half (paddedLength (length signal)) /\
    Forall (fun m => 0 <= m) mags /\
    ((1 <= length signal)%nat ->
     let padded := zeroPad (nextPowerOfTwo (length signal)) signal in
     mags = map (fun k => modulus (dft padded k))
                (seq 0 (below_half (nextPowerOfTwo (length signal))))).
Proof.
  destruct signal as [|s rest].
  - exists []. split; [|split; [|split]].
    + unfold computeMagnitude. cbn [length paddedLength seq map].
      rewrite fft_step. reflexivity.
    + reflexivity.
    + constructor.
    + simpl. lia.
  - set (signal := s :: rest).
    assert (Hlen : (1 <= length signal)%nat) by (simpl; lia).
    destruct (computeMagnitude_spec signal Hlen)
      as (spectrum & Hfft & Hsl & Hm).
    destruct (nextPowerOfTwo_bounds Hlen) as [Hpad Hle].
    set (pow2 := nextPowerOfTwo (length signal)) in *.
    assert (Hpl : length (zeroPad pow2 signal) = pow2).
    { unfold zeroPad. rewrite length_app, length_map, repeat_length. lia. }
    assert (Hhalf : (below_half pow2 <= pow2)%nat).
    { unfold below_half, pow2, nextPowerOfTwo.
      destruct (Nat.log2_up (length signal)) as [|k]; [simpl; lia|].
      rewrite (proj1 (half_of_power k)), Nat.pow_succ_r'. lia. }
    rewrite (@fft_dft_exponent (Nat.log2_up (length signal))
               (zeroPad pow2 signal) Hpl) in Hfft.
    rewrite Hpl in Hfft.
    assert (Hspec : map (dft (zeroPad pow2 signal)) (seq 0 pow2) = spectrum)
      by congruence.
    exists (map modulus (firstn (below_half pow2) spectrum)).
    split; [exact Hm|]. split; [|split].
    + rewrite length_map, length_firstn, Hsl, Hpad. lia.
    + apply Forall_forall. intros m Hin.
      apply in_map_iff in Hin. destruct Hin as (c & <- & _).
      apply sqrt_pos.
    + intros _ padded.
      rewrite <- (map_seq_firstn modulus spectrum (mkComplex 0 0))
        by (rewrite Hsl; exact Hhalf).
      apply map_ext_in. intros k Hk. apply in_seq in Hk.
      rewrite <- Hspec, nth_map_seq by lia. reflexivity.
Qed.

End MagnitudeValue.

(** The magnitudes of a signal of three samples, padded to four. *)
Lemma computeMagnitude_total_witness :
  exists mags,
    Dsp.computeMagnitude [1; 2; 3]%R = Ok mags /\ length mags = 2%nat.
Proof.
  destruct (computeMagnitude_total [1; 2; 3]%R) as (mags & Hm & Hlen & _).
  exists mags. split; [exact Hm | exact Hlen].
Defined.

(** ** The Hann window *)

Section HannWindow.

Import Dsp.
Local Open Scope R_scope.

Lemma hanningWindow_nth (size i : nat) :
  (i < size)%nat ->
  nth i (hanningWindow size) 0
    = 0.5 * (1 - cos ((2 * PI * INR i) / (INR size - 1))).
Proof.
  intro H. unfold hanningWindow.
  exact (nth_map_seq
           (fun i => 0.5 * (1 - cos ((2 * PI * INR i) / (INR size - 1))))
           0 H).
Qed.

(** X5.  For a size of at least two the window has [size] coefficients, all in
    [[0, 1]], and the first and the last are 0. *)
Theorem hanningWindow_shape (size : nat) :
  (2 <= size)%nat ->
  length (hanningWindow size) = size /\
  Forall (fun w => 0 <= w <= 1) (hanningWindow size) /\
  nth 0 (hanningWindow size) 0 = 0 /\
  nth (size - 1) (hanningWindow size) 0 = 0.
Proof.
  intro Hsize.
  assert (Hden : INR size - 1 <> 0).
  { pose proof (le_INR 2 size Hsize) as H. simpl in H. lra. }
  assert (Hlast : INR (size - 1) = INR size - 1).
  { rewrite minus_INR by lia. reflexivity. }
  split; [apply hanningWindow_length|]. split; [|split].
  - apply Forall_forall. intros w Hw. unfold hanningWindow in Hw.
    apply in_map_iff in Hw. destruct Hw as (i & <- & _).
    pose proof (COS_bound ((2 * PI * INR i) / (INR size - 1))). lra.
  - rewrite hanningWindow_nth by lia.
    replace ((2 * PI * INR 0) / (INR size - 1)) with 0
      by (simpl; field; exact Hden).
    rewrite cos_0. lra.
  - rewrite hanningWindow_nth by lia. rewrite Hlast.
    replace ((2 * PI * (INR size - 1)) / (INR size - 1)) with (2 * PI)
      by (field; exact Hden).
    rewrite cos_2PI. lra.
Qed.

End HannWindow.

(** The window of 256 coefficients that the view uses. *)
Lemma hanningWindow_shape_witness :
  length (Dsp.hanningWindow 256) = 256%nat /\
  nth 0 (Dsp.hanningWindow 256) 0%R = 0%R /\
  nth 255 (Dsp.hanningWindow 256) 0%R = 0%R.
Proof.
  destruct (@hanningWindow_shape 256 ltac:(lia)) as (Hl & _ & Hf & Hlast).
  split; [exact Hl|]. split; [exact Hf | exact Hlast].
Defined.

(** ** The spectrogram: shape, labels, and the overlaps that hang *)

Section SpectrogramShape.

Import Dsp TransformSpec.
Local Open Scope R_scope.

Lemma rowAt_length (signal : list R) (windowSize : nat) (i : Z) :
  (1 <= windowSize)%nat ->
  length (rowAt signal windowSize i)
    = below_half (nextPowerOfTwo windowSize).
Proof.
  intro Hw. unfold rowAt, magnitudesAt.
  destruct (@computeMagnitude_spec
              (windowed signal (hanningWindow windowSize) windowSize i))
    as (spectrum & _ & Hlen & Hm).
  { rewrite windowed_length. exact Hw. }
  rewrite windowed_length in Hlen, Hm. rewrite Hm.
  rewrite !length_map, length_firstn, Hlen.
  apply Nat.min_l.
  unfold below_half, nextPowerOfTwo.
  destruct (Nat.log2_up windowSize) as [|k]; [simpl; lia|].
  rewrite (proj1 (half_of_power k)), Nat.pow_succ_r'. lia.
Qed.

Lemma padded_half (windowSize : nat) :
  (2 <= windowSize)%nat ->
  below_half (nextPowerOfTwo windowSize) = (nextPowerOfTwo windowSize / 2)%nat.
Proof.
  intro Hw. unfold nextPowerOfTwo, below_half.
  pose proof (Nat.log2_up_pos windowSize ltac:(lia)) as Hpos.
  destruct (Nat.log2_up windowSize) as [|k]; [lia|].
  rewrite (proj1 (half_of_power k)).
  pose proof (power_positive k).
  rewrite Nat.pow_succ_r', Nat.mul_comm, Nat.div_mul by lia. reflexivity.
Qed.

(** Window [k] fits exactly when [k] is below the number of windows. *)
Lemma window_index_fits (n w step : Z) (k : nat) :
  (0 < step)%Z ->
  (Z.of_nat k < (n - w) / step + 1)%Z <-> (Z.of_nat k * step <= n - w)%Z.
Proof.
  intro Hs. set (d := (n - w)%Z).
  pose proof (Z.div_mod d step ltac:(lia)) as Hdm.
  pose proof (Z.mod_pos_bound d step Hs) as Hmod.
  split; intro H; nia.
Qed.

Lemma nextPowerOfTwo_fixed (n : nat) :
  powerOfTwo n -> nextPowerOfTwo n = n.
Proof.
  intros [k ->]. unfold nextPowerOfTwo.
  rewrite Nat.log2_up_pow2 by lia. reflexivity.
Qed.

(** X6.  The grid is rectangular: every row has half as many entries as the
    padded window.  There is one time label per row, label [t] being
    [t * step / sampleRate], and [windowSize / 2] frequency labels; these
    are as many as the entries of a row when the window size is a power of
    two. *)
Theorem spectrogram_shape (signal : list R) (sampleRate : R)
  (windowSize : nat) (overlap : Z) (fuel : nat) :
  (2 <= windowSize)%nat ->
  (windowSize <= length signal)%nat ->
  (overlap < Z.of_nat windowSize)%Z ->
  ((Z.of_nat (length signal) - Z.of_nat windowSize)
     / (Z.of_nat windowSize - overlap) + 1 <= Z.of_nat fuel)%Z ->
  exists sd,
    computeSpectrogram fuel signal sampleRate windowSize overlap = Ok sd /\
    Forall (fun row => length row = (nextPowerOfTwo windowSize / 2)%nat)
           (magnitudes sd) /\
    length (times sd) = length (magnitudes sd) /\
    (forall t : nat, (t < length (magnitudes sd))%nat ->
       nth t (times sd) 0
         = INR t * IZR (Z.of_nat windowSize - overlap) / sampleRate) /\
    length (freqs sd) = (windowSize / 2)%nat /\
    (powerOfTwo windowSize ->
     Forall (fun row => length row = length (freqs sd)) (magnitudes sd)).
Proof.
  intros Hw Hlen Hov Hfuel.
  set (step := (Z.of_nat windowSize - overlap)%Z) in *.
  set (count := ((Z.of_nat (length signal) - Z.of_nat windowSize) / step + 1)%Z)
    in *.
  assert (Hs : (0 < step)%Z) by (unfold step; lia).
  assert (Hc : (1 <= count)%Z).
  { unfold count.
    assert (0 <= (Z.of_nat (length signal) - Z.of_nat windowSize) / step)%Z
      by (apply Z.div_pos; lia).
    lia. }
  assert (Hslide :
    slide fuel signal (hanningWindow windowSize) windowSize step 0
          (mkLoop [] MinusInfinity PlusInfinity)
    = Ok (let ext := fold_left update
                       (concat (rowsFrom signal windowSize step 0
                                         (Z.to_nat count)))
                       (MinusInfinity, PlusInfinity) in
          mkLoop (rowsFrom signal windowSize step 0 (Z.to_nat count))
                 (fst ext) (snd ext))).
  { rewrite (@slide_rows signal windowSize step ltac:(lia) (Z.to_nat count)).
    - reflexivity.
    - lia.
    - intros k Hk. apply (window_index_fits _ _ k Hs). fold count. lia.
    - assert (H : ~ (Z.of_nat (Z.to_nat count) < count)%Z) by lia.
      unfold count in H. rewrite (window_index_fits _ _ _ Hs) in H. lia. }
  unfold computeSpectrogram. fold step. rewrite Hslide.
  cbn [bind loop_result loop_maxMag loop_minMag].
  eexists. split; [reflexivity|].
  cbn [magnitudes times freqs].
  assert (Hrows : Forall (fun row => length row
                                     = (nextPowerOfTwo windowSize / 2)%nat)
                    (rowsFrom signal windowSize step 0 (Z.to_nat count))).
  { unfold rowsFrom. apply Forall_map, Forall_forall. intros k _.
    rewrite rowAt_length by lia.
    apply padded_half. exact Hw. }
  split; [exact Hrows|]. split; [|split; [|split]].
  - rewrite length_map, length_seq. reflexivity.
  - intros t Ht.
    rewrite (nth_map_seq (fun i => INR i * IZR step / sampleRate) 0 Ht).
    reflexivity.
  - rewrite length_map, length_seq. reflexivity.
  - intro Hpow. rewrite length_map, length_seq.
    rewrite (nextPowerOfTwo_fixed Hpow) in Hrows. exact Hrows.
Qed.

Lemma computeMagnitude_returns (signal : list R) :
  exists mags, computeMagnitude signal = Ok mags.
Proof.
  destruct signal as [|s rest].
  - exists []. unfold computeMagnitude. cbn [length paddedLength seq map].
    rewrite fft_step. reflexivity.
  - destruct (@computeMagnitude_spec (s :: rest) ltac:(simpl; lia))
      as (spectrum & _ & _ & Hm).
    eexists. exact Hm.
Qed.

Lemma slide_never_ends (signal windowFunc : list R) (windowSize : nat)
  (step : Z) :
  (windowSize <= length signal)%nat -> (step <= 0)%Z ->
  forall (fuel : nat) (i : Z) (st : Loop),
    (i <= 0)%Z ->
    slide fuel signal windowFunc windowSize step i st = OutOfFuel.
Proof.
  intros Hlen Hstep. induction fuel as [|fuel IH]; intros i st Hi;
    cbn [slide];
    replace (i <=? _)%Z with true by (symmetry; apply Z.leb_le; lia).
  - reflexivity.
  - destruct (computeMagnitude_returns (windowed signal windowFunc windowSize i))
      as (mags & Hm).
    rewrite Hm. cbn [bind].
    destruct (map_state logMag _ mags) as [ext logMags].
    apply IH. lia.
Qed.

(** X7.  With an overlap of the window size or more the step is not positive
    and, for a signal of at least one window, the loop never ends: no number
    of iterations gives a result. *)
Theorem spectrogram_hangs_without_step (signal : list R) (sampleRate : R)
  (windowSize : nat) (overlap : Z) :
  (windowSize <= length signal)%nat ->
  (Z.of_nat windowSize <= overlap)%Z ->
  forall fuel : nat,
    computeSpectrogram fuel signal sampleRate windowSize overlap = OutOfFuel.
Proof.
  intros Hlen Hov fuel. unfold computeSpectrogram.
  rewrite slide_never_ends by lia. reflexivity.
Qed.

End SpectrogramShape.

(** 600 samples, windows of 256 every 128: three rows of 128 bins, three
    time labels and 128 frequency labels. *)
Lemma spectrogram_shape_witness :
  exists sd,
    Dsp.computeSpectrogram 3 (map INR (seq 0 600)) 100 256 128 = Ok sd /\
    length (Dsp.times sd) = length (Dsp.magnitudes sd) /\
    Forall (fun row => length row = 128%nat) (Dsp.magnitudes sd) /\
    length (Dsp.freqs sd) = 128%nat.
Proof.
  assert (Hlen : length (map INR (seq 0 600)) = 600%nat)
    by (rewrite length_map; apply length_seq).
  destruct (@spectrogram_shape (map INR (seq 0 600)) 100%R 256 128 3)
    as (sd & Hsd & _ & Htimes & _ & Hfreqs & Hrows).
  - lia.
  - rewrite Hlen. lia.
  - lia.
  - rewrite Hlen. vm_compute. discriminate.
  - exists sd. split; [exact Hsd|]. split; [exact Htimes|].
    assert (Hf : length (Dsp.freqs sd) = 128%nat)
      by (rewrite Hfreqs; reflexivity).
    split; [|exact Hf].
    rewrite <- Hf. apply Hrows. exists 8%nat. reflexivity.
Defined.

(** The window and the overlap both 256. *)
Lemma spectrogram_hangs_without_step_witness :
  Dsp.computeSpectrogram 1000 (repeat 0%R 512) 256 256 256 = OutOfFuel.
Proof.
  apply spectrogram_hangs_without_step.
  - rewrite repeat_length. lia.
  - lia.
Defined.

(** ** The spectrogram view: when it draws *)

Section ViewDraws.

Import Dsp SpectrogramView.
Local Open Scope nat_scope.

Lemma flat_map_length_constant {A B : Type} (f : A -> list B) (l : list A)
  (n : nat) :
  (forall a, In a l -> length (f a) = n) ->
  length (flat_map f l) = length l * n.
Proof.
  induction l as [|a rest IH]; intro H; simpl.
  - reflexivity.
  - rewrite length_app, (H a) by (left; reflexivity).
    rewrite IH by (intros b Hb; apply H; right; exact Hb). reflexivity.
Qed.

(** X8.  For an empty series the view shows its placeholder and draws nothing.
    For a series of at least 256 samples, and enough iterations, the
    drawing effect does not throw: it paints one cell for each of the 128
    frequency bins of each of the [floor((N - 256) / 128) + 1] windows. *)
Theorem spectrogram_view_draws (fuel : nat) (data : list R) (sampleRate : R)
  (containerWidth height : Z) :
  (length data = 0 ->
   specData fuel data sampleRate = Ok None /\
   render None = ProcessingSignalData /\
   drawEffect true true None containerWidth height = Ok NotDrawn) /\
  (nFft <= length data ->
   ((Z.of_nat (length data) - 256) / 128 + 1 <= Z.of_nat fuel)%Z ->
   exists sd cells,
     specData fuel data sampleRate = Ok (Some sd) /\
     Z.of_nat (length (magnitudes sd))
       = ((Z.of_nat (length data) - 256) / 128 + 1)%Z /\
     drawEffect true true (Some sd) containerWidth height
       = Ok (Painted cells) /\
     length cells = length (magnitudes sd) * 128).
Proof.
  split.
  - intro H. unfold specData. rewrite H. repeat split.
  - intros Hlen Hfuel. unfold nFft in Hlen.
    destruct (@computeSpectrogram_grid data sampleRate 256 128 fuel
                ltac:(lia) Hlen ltac:(lia) Hfuel)
      as (sd & Hsd & Hgrid & _).
    change (Z.of_nat 256 - 128)%Z with 128%Z in Hgrid.
    change (Z.of_nat 256) with 256%Z in Hgrid.
    set (count := Z.to_nat ((Z.of_nat (length data) - 256) / 128 + 1)) in *.
    assert (Hcount : (1 <= count)%nat).
    { unfold count.
      assert (0 <= (Z.of_nat (length data) - 256) / 128)%Z
        by (apply Z.div_pos; lia).
      lia. }
    assert (Hrows : length (magnitudes sd) = count).
    { rewrite Hgrid. unfold rowsFrom. rewrite length_map. apply length_seq. }
    assert (Hbins : forall row, In row (magnitudes sd) -> length row = 128).
    { intros row Hin. rewrite Hgrid in Hin. unfold rowsFrom in Hin.
      apply in_map_iff in Hin. destruct Hin as (k & <- & _).
      rewrite rowAt_length by lia. reflexivity. }
    destruct (magnitudes sd) as [|row0 rows] eqn:Hmag;
      [simpl in Hrows; lia|].
    assert (Hrow0 : length row0 = 128) by (apply Hbins; left; reflexivity).
    exists sd. eexists. split; [|split; [|split]].
    + unfold specData, nFft.
      replace (length data =? 0) with false
        by (symmetry; apply Nat.eqb_neq; lia).
      change (Z.of_nat (256 / 2)) with 128%Z. rewrite Hsd. reflexivity.
    + rewrite Hmag, Hrows. unfold count.
      assert (0 <= (Z.of_nat (length data) - 256) / 128)%Z
        by (apply Z.div_pos; lia).
      lia.
    + unfold drawEffect. rewrite Hmag. cbn [negb elem nth_error bind].
      reflexivity.
    + rewrite (@flat_map_length_constant _ _ _ _ 128).
      * rewrite length_seq, Hmag. reflexivity.
      * intros t _. rewrite length_map, length_seq. exact Hrow0.
Qed.

End ViewDraws.

(** A trial of 5 s at 256 Hz: 1280 samples, 9 windows, 1152 cells. *)
Lemma spectrogram_view_draws_witness :
  exists sd cells,
    SpectrogramView.specData 9 (repeat 0%R 1280) 256 = Ok (Some sd) /\
    SpectrogramView.drawEffect true true (Some sd) 800 500
      = Ok (SpectrogramView.Painted cells) /\
    length cells = 1152%nat.
Proof.
  destruct (spectrogram_view_draws 9 (repeat 0%R 1280) 256%R 800 500)
    as [_ H].
  destruct H as (sd & cells & Hsd & Hrows & Hdraw & Hcells).
  - rewrite repeat_length. unfold SpectrogramView.nFft. lia.
  - rewrite repeat_length. vm_compute. discriminate.
  - exists sd, cells. split; [exact Hsd|]. split; [exact Hdraw|].
    rewrite repeat_length in Hrows.
    assert (Hnine : length (Dsp.magnitudes sd) = 9%nat).
    { apply Nat2Z.inj. rewrite Hrows. vm_compute. reflexivity. }
    rewrite Hcells, Hnine. reflexivity.
Defined.

(** ** The controller: navigation, trials, annotations *)

Section Controller.

Import JsString Session.
Local Open Scope Z_scope.

Variable A : Type.
Variable data : list A.
Variable config : FileConfig.

Lemma navigateAll_in_range (s : State) (events : list NavEvent) :
  1 <= totalTrials data config ->
  0 <= currentTrial s <= totalTrials data config - 1 ->
  0 <= currentTrial (navigateAll data config s events)
    <= totalTrials data config - 1 /\
  navigateAll data config s events
    = setCurrentTrial
        (fun _ => currentTrial (navigateAll data config s events)) s.
Proof.
  intros Htot. revert s. unfold navigateAll.
  induction events as [|e rest IH]; intros s Hin; cbn [fold_left].
  - split; [exact Hin|]. destruct s; reflexivity.
  - assert (Hstep : 0 <= currentTrial (navigate data config s e)
                      <= totalTrials data config - 1).
    { destruct e; unfold navigate, handlePrev, handleNext, setCurrentTrial;
        cbn [currentTrial]; lia. }
    destruct (IH _ Hstep) as [Hr Heq]. split; [exact Hr|].
    rewrite Heq at 1.
    destruct e, s; reflexivity.
Qed.

(** X9.  With at least one trial, no run of "previous" and "next" takes the
    current trial out of [[0, totalTrials - 1]], and nothing but the
    current trial changes. *)
Theorem navigation_stays_in_range (s : State) (events : list NavEvent) :
  1 <= totalTrials data config ->
  0 <= currentTrial s <= totalTrials data config - 1 ->
  let s' := navigateAll data config s events in
  0 <= currentTrial s' <= totalTrials data config - 1 /\
  s' = setCurrentTrial (fun _ => currentTrial s') s.
Proof.
  intros Htot Hin. cbv zeta. apply navigateAll_in_range; assumption.
Qed.

End Controller.

(** Two trials: any run of key presses stays on trial 0 or 1. *)
Lemma navigation_stays_in_range_witness :
  let s' := Session.navigateAll (repeat tt 1000) config_100Hz_5s
              (state_at 0 "")
              [Session.PressNext; Session.PressNext; Session.PressNext;
               Session.PressPrev] in
  (0 <= currentTrial s' <= 1)%Z.
Proof.
  intro s'.
  assert (Htot : totalTrials (repeat tt 1000) config_100Hz_5s = 2%Z)
    by (vm_compute; reflexivity).
  pose proof (@navigation_stays_in_range unit (repeat tt 1000)
                config_100Hz_5s (state_at 0 "")
                [Session.PressNext; Session.PressNext; Session.PressNext;
                 Session.PressPrev]) as H.
  rewrite Htot in H.
  exact (proj1 (H ltac:(lia) ltac:(cbn; lia))).
Defined.

(** ** Trials as a tiling of the matrix *)

Section Tiling.

Import JsString Session.
Local Open Scope Z_scope.

Variable A : Type.
Variable data : list A.
Variable config : FileConfig.

Hypothesis rate_positive : 0 < samplingRate config.
Hypothesis duration_positive : 0 < trialDurationSec config.

Lemma pointsPerTrial_positive : 0 < pointsPerTrial config.
Proof. unfold pointsPerTrial. nia. Qed.

(** The slice of trial [i] in list terms. *)
Lemma trial_slice (s : State) (i : nat) :
  isScrollMode s = false ->
  currentTrialDataSlice data config (jumpToTrial (Z.of_nat i) s)
    = firstn (Z.to_nat (pointsPerTrial config))
             (skipn (i * Z.to_nat (pointsPerTrial config)) data).
Proof.
  intro Hpaged. pose proof pointsPerTrial_positive as HL.
  unfold currentTrialDataSlice, jumpToTrial, setCurrentTrial.
  cbn [isScrollMode currentTrial]. rewrite Hpaged.
  set (L := pointsPerTrial config) in *.
  set (N := Z.of_nat (length data)).
  unfold slice. fold N.
  replace (Z.of_nat i * L <? 0) with false
    by (symmetry; apply Z.ltb_ge; nia).
  replace (Z.min (Z.of_nat i * L + L) N <? 0) with false
    by (symmetry; apply Z.ltb_ge; unfold N; lia).
  replace (i * Z.to_nat L)%nat with (Z.to_nat (Z.of_nat i * L)) by nia.
  destruct (Z.le_gt_cases N (Z.of_nat i * L)) as [Hout|Hin].
  - rewrite (skipn_all2 data) by (unfold N in Hout; lia).
    rewrite Z.min_r by lia.
    rewrite (skipn_all2 data) by lia.
    rewrite !firstn_nil. reflexivity.
  - rewrite (Z.min_l (Z.of_nat i * L) N) by lia.
    destruct (Z.le_gt_cases (Z.of_nat i * L + L) N) as [Hfull|Hlast].
    + f_equal. lia.
    + rewrite !firstn_all2; [reflexivity | |];
        rewrite length_skipn; unfold N in *; lia.
Qed.

(** The number of rows of the current trial. *)
Lemma shown_rows (s : State) :
  isScrollMode s = false ->
  0 <= currentTrial s ->
  Z.of_nat (length (currentTrialDataSlice data config s))
    = Z.max 0 (Z.min (pointsPerTrial config)
                     (Z.of_nat (length data)
                      - currentTrial s * pointsPerTrial config)).
Proof.
  intros Hpaged Hi. pose proof pointsPerTrial_positive as HL.
  replace s with (jumpToTrial (Z.of_nat (Z.to_nat (currentTrial s))) s) at 1.
  - rewrite (trial_slice s _ Hpaged).
    rewrite length_firstn, length_skipn. nia.
  - unfold jumpToTrial, setCurrentTrial. rewrite Z2Nat.id by exact Hi.
    destruct s; reflexivity.
Qed.

Lemma chunks_concat (L : nat) :
  (0 < L)%nat ->
  forall (n : nat) (l : list A),
    (length l <= n * L)%nat ->
    concat (map (fun i => firstn L (skipn (i * L) l)) (seq 0 n)) = l.
Proof.
  intro HL. induction n as [|n IH]; intros l Hlen.
  - destruct l; [reflexivity | simpl in Hlen; lia].
  - cbn [seq map concat]. rewrite <- seq_shift, map_map.
    transitivity (firstn L l ++ skipn L l); [|apply firstn_skipn].
    f_equal.
    rewrite <- (IH (skipn L l)) by (rewrite length_skipn; lia).
    f_equal. apply map_ext. intro i.
    rewrite skipn_skipn. do 2 f_equal. lia.
Qed.

(** X10.  In paged mode the trials [0 .. totalTrials - 1], one after the other,
    are the whole matrix: no row is left out and none is shown twice. *)
Theorem trials_tile_matrix (s : State) :
  isScrollMode s = false ->
  concat (map (fun i => currentTrialDataSlice data config
                          (jumpToTrial (Z.of_nat i) s))
              (seq 0 (Z.to_nat (totalTrials data config))))
    = data.
Proof.
  intro Hpaged. pose proof pointsPerTrial_positive as HL.
  pose proof (@totalTrials_ceiling A data config HL) as [_ Hceil].
  rewrite (map_ext _ _ (fun i => trial_slice s i Hpaged)).
  apply chunks_concat; [lia|]. nia.
Qed.

(** X11.  The size of what is shown: a trial before the last one has exactly
    [pointsPerTrial] rows, the last one has between 1 and [pointsPerTrial],
    and an index at or beyond [totalTrials] shows no row.  From such an
    index "next" goes straight to the last trial. *)
Theorem trial_sizes (s : State) :
  isScrollMode s = false ->
  0 <= currentTrial s ->
  let L := pointsPerTrial config in
  let N := Z.of_nat (length data) in
  let total := totalTrials data config in
  let shown := Z.of_nat (length (currentTrialDataSlice data config s)) in
  (currentTrial s < total - 1 -> shown = L) /\
  (currentTrial s = total - 1 ->
   shown = N - (total - 1) * L /\ 1 <= shown <= L) /\
  (total <= currentTrial s ->
   shown = 0 /\
   (1 <= total ->
    currentTrial (handleNext data config s) = total - 1)).
Proof.
  intros Hpaged Hi L N total shown.
  pose proof pointsPerTrial_positive as HL. fold L in HL.
  pose proof (@totalTrials_ceiling A data config HL) as [Hlo Hhi].
  fold L in Hlo, Hhi. fold N in Hlo, Hhi. fold total in Hlo, Hhi.
  assert (Hshown : shown = Z.max 0 (Z.min L (N - currentTrial s * L))).
  { unfold shown.
    replace s with (jumpToTrial (Z.of_nat (Z.to_nat (currentTrial s))) s) at 1.
    - rewrite (trial_slice s _ Hpaged).
      rewrite length_firstn, length_skipn. fold L. unfold N. nia.
    - unfold jumpToTrial, setCurrentTrial. rewrite Z2Nat.id by exact Hi.
      destruct s; reflexivity. }
  repeat split.
  - intro H. rewrite Hshown. nia.
  - rewrite Hshown, H. nia.
  - rewrite Hshown, H. nia.
  - rewrite Hshown, H. nia.
  - rewrite Hshown. nia.
  - intro Htot. unfold handleNext, setCurrentTrial. cbn [currentTrial].
    fold total. lia.
Qed.

End Tiling.

(** 1200 rows at 100 Hz in trials of 5 s: three trials, the last of 200
    rows. *)
Lemma trials_tile_matrix_witness :
  let data := seq 0 1200 in
  concat (map (fun i => currentTrialDataSlice data config_100Hz_5s
                          (jumpToTrial (Z.of_nat i) (state_at 0 "")))
              [0; 1; 2]%nat) = data.
Proof.
  intro data.
  assert (Htot : Z.to_nat (totalTrials data config_100Hz_5s) = 3%nat)
    by (vm_compute; reflexivity).
  pose proof (@trials_tile_matrix nat data config_100Hz_5s
                ltac:(reflexivity) ltac:(reflexivity) (state_at 0 "") eq_refl)
    as H.
  rewrite Htot in H. exact H.
Defined.

Lemma trial_sizes_witness :
  let data := seq 0 1200 in
  length (currentTrialDataSlice data config_100Hz_5s (state_at 2 ""))
    = 200%nat /\
  length (currentTrialDataSlice data config_100Hz_5s (state_at 7 ""))
    = 0%nat.
Proof.
  intro data.
  assert (Htot : totalTrials data config_100Hz_5s = 3%Z)
    by (vm_compute; reflexivity).
  pose proof (@trial_sizes nat data config_100Hz_5s
                ltac:(reflexivity) ltac:(reflexivity) (state_at 2 "")
                eq_refl ltac:(cbn; lia)) as (_ & Hlast & _).
  pose proof (@trial_sizes nat data config_100Hz_5s
                ltac:(reflexivity) ltac:(reflexivity) (state_at 7 "")
                eq_refl ltac:(cbn; lia)) as (_ & _ & Hout).
  rewrite Htot in Hlast, Hout.
  split.
  - apply Nat2Z.inj. rewrite (proj1 (Hlast eq_refl)). reflexivity.
  - apply Nat2Z.inj. rewrite (proj1 (Hout ltac:(cbn; lia))). reflexivity.
Defined.

(** ** Annotations: adding and deleting *)

Section AddDelete.

Import JsString.
Local Open Scope Z_scope.

Lemma filter_keeps_others (target : string) (anns : list Annotation) :
  Forall (fun a => id a <> target) anns ->
  filter (fun a => negb (String.eqb (id a) target)) anns = anns.
Proof.
  induction 1 as [|a rest Ha Hrest IH]; simpl.
  - reflexivity.
  - apply String.eqb_neq in Ha. rewrite Ha. simpl. rewrite IH. reflexivity.
Qed.

Lemma addAnnotation_appends (now : Z) (config : FileConfig) (s : State) :
  whitespaceOnly (newNote s) = false ->
  annotations (fst (addAnnotation now config s))
    = annotations s
      ++ [mkAnnotation (toString now) (currentTrial s)
            (currentTrial s * trialDurationSec config)
            (newNote s) (selectedType s)].
Proof.
  intro H. unfold addAnnotation.
  destruct (truthy (trim (newNote s))) eqn:E.
  - reflexivity.
  - apply trim_empty_iff in E. congruence.
Qed.

(** X12.  Deleting the identifier of an annotation just added gives back the list
    as it was, when no older annotation carries that identifier.  The
    identifier is the millisecond of the addition: two annotations added in
    the same millisecond share it, and one deletion removes both. *)
Theorem add_then_delete (now : Z) (config : FileConfig) (s : State)
  (secondNote : string) :
  whitespaceOnly (newNote s) = false ->
  whitespaceOnly secondNote = false ->
  Forall (fun a => id a <> toString now) (annotations s) ->
  let once := fst (addAnnotation now config s) in
  let twice := fst (addAnnotation now config (setNewNote secondNote once)) in
  deleteAnnotation (toString now) once
    = (setAnnotations (annotations s) once,
       [onUpdateAnnotations (annotations s)]) /\
  length (annotations twice) = (length (annotations s) + 2)%nat /\
  annotations (fst (deleteAnnotation (toString now) twice)) = annotations s.
Proof.
  intros Hnote Hsecond Hfresh once twice.
  assert (Honce : annotations once
                  = annotations s
                    ++ [mkAnnotation (toString now) (currentTrial s)
                          (currentTrial s * trialDurationSec config)
                          (newNote s) (selectedType s)])
    by (apply addAnnotation_appends; exact Hnote).
  assert (Htwice : annotations twice
                   = annotations once
                     ++ [mkAnnotation (toString now) (currentTrial once)
                           (currentTrial once * trialDurationSec config)
                           secondNote (selectedType once)]).
  { unfold twice.
    rewrite (addAnnotation_appends now config (setNewNote secondNote once))
      by exact Hsecond.
    reflexivity. }
  assert (Hdel : filter (fun a => negb (String.eqb (id a) (toString now)))
                        (annotations once) = annotations s).
  { rewrite Honce, filter_app, (filter_keeps_others Hfresh).
    cbn [filter id]. rewrite String.eqb_refl. cbn [negb].
    apply app_nil_r. }
  split; [|split].
  - unfold deleteAnnotation. rewrite Hdel. reflexivity.
  - rewrite Htwice, Honce, !length_app. simpl. lia.
  - unfold deleteAnnotation. cbn [fst annotations setAnnotations].
    rewrite Htwice, filter_app, Hdel.
    cbn [filter id]. rewrite String.eqb_refl. cbn [negb].
    apply app_nil_r.
Qed.

(** *** The effects settle *)

Lemma strictNe_same (x : number) : isNaN x = false -> strictNe x x = false.
Proof.
  destruct x; simpl; try discriminate; try reflexivity.
  intros _. rewrite (proj2 (Qeq_bool_iff q q) (Qeq_refl q)). reflexivity.
Qed.

(** X13.  Run again on the state it has just produced, the gain effect changes
    nothing and calls nothing; and once the session has stored the
    configuration sent by the duration effect, that effect sends nothing
    more.  Neither effect can loop on its own commit. *)
Theorem effects_settle (text : string) (s : State) (config : FileConfig) :
  gainEffect text (fst (gainEffect text s)) = (fst (gainEffect text s), []) /\
  (forall stored : FileConfig,
     In (onConfigChange stored) (durationEffect text config) ->
     durationEffect text stored = []).
Proof.
  split.
  - unfold gainEffect.
    destruct (negb (isNaN (parseFloat text))
              && strictNe (parseFloat text) (yScale s)) eqn:E.
    + cbn [fst]. apply andb_true_iff in E. destruct E as [Hn _].
      apply negb_true_iff in Hn.
      cbn [yScale setYScale]. rewrite (strictNe_same _ Hn), andb_false_r.
      reflexivity.
    + cbn [fst]. rewrite E. reflexivity.
  - intros stored Hin. unfold durationEffect in *.
    destruct (parseInt text) as [val|]; [|destruct Hin].
    destruct ((val >? 0) && negb (val =? trialDurationSec config));
      [|destruct Hin].
    destruct Hin as [Heq|[]]. inversion Heq. cbn [trialDurationSec].
    rewrite Z.eqb_refl, andb_false_r. reflexivity.
Qed.

End AddDelete.

(** A note added at millisecond 1700000000000 and deleted again. *)
Lemma add_then_delete_witness :
  let s := state_at 2 "spike" in
  annotations
    (fst (deleteAnnotation (toString 1700000000000)
            (fst (addAnnotation 1700000000000 config_100Hz_5s s))))
    = [].
Proof.
  intro s.
  pose proof (@add_then_delete 1700000000000 config_100Hz_5s s "again"
                eq_refl eq_refl (Forall_nil _)) as [H _].
  cbv zeta in H. rewrite H. reflexivity.
Defined.

(** The text [2.5] typed over a gain of 1, and the text [10] typed over a
    duration of 5. *)
Lemma effects_settle_witness :
  snd (gainEffect "2.5" (fst (gainEffect "2.5" (state_at 0 "")))) = [] /\
  durationEffect "10" (withDuration config_100Hz_5s 10) = [].
Proof.
  destruct (effects_settle "2.5" (state_at 0 "") config_100Hz_5s) as [Hg _].
  destruct (effects_settle "10" (state_at 0 "") config_100Hz_5s) as [_ Hd].
  split.
  - rewrite Hg. reflexivity.
  - apply Hd. left. reflexivity.
Defined.

(** ** Parsing what [toString] prints *)

Section ParseRoundTrip.

Import JsString Printing.
Local Open Scope Z_scope.

Lemma digits_of_printed (d : Decimal.uint) :
  digits 10 (NilEmpty.string_of_uint d) = (digitsOf d, EmptyString).
Proof.
  induction d; cbn [NilEmpty.string_of_uint digitsOf digits];
    try reflexivity;
    cbv [digitValue]; cbn; rewrite IHd; reflexivity.
Qed.

Lemma value_with_accumulator (d : Decimal.uint) :
  forall acc : positive,
    fold_left accumulate (digitsOf d) (Z.pos acc)
      = Z.pos (Pos.of_uint_acc d acc).
Proof.
  induction d; intro acc; cbn [digitsOf fold_left Pos.of_uint_acc];
    try reflexivity;
    unfold accumulate at 2;
    match goal with
    | |- fold_left _ _ ?z = Z.pos (Pos.of_uint_acc _ ?p) =>
        replace z with (Z.pos p) by lia
    end; apply IHd.
Qed.

Lemma value_of_printed (d : Decimal.uint) :
  digitsValue 10 (digitsOf d) = Z.of_N (Pos.of_uint d).
Proof.
  unfold digitsValue. change (fun acc d0 => 10 * acc + d0) with accumulate.
  induction d; cbn [digitsOf fold_left Pos.of_uint]; try reflexivity;
    try (unfold accumulate at 2; cbn [Z.mul Z.add];
         rewrite value_with_accumulator; reflexivity).
  exact IHd.
Qed.

Lemma digitsOf_not_nil (d : Decimal.uint) :
  d <> Decimal.Nil -> digitsOf d <> [].
Proof. destruct d; intro H; try discriminate. contradiction. Qed.

Ltac evaluate_characters :=
  repeat match goal with
         | |- context [isWhiteSpace ?c] =>
             let b := eval vm_compute in (isWhiteSpace c) in
             change (isWhiteSpace c) with b
         | |- context [digitValue ?r ?c] =>
             let b := eval vm_compute in (digitValue r c) in
             change (digitValue r c) with b
         | |- context [Ascii.eqb ?a ?b] =>
             let v := eval vm_compute in (Ascii.eqb a b) in
             change (Ascii.eqb a b) with v
         end.

Lemma parseInt_unsigned (d : Decimal.uint) :
  d <> Decimal.Nil ->
  parseInt (NilEmpty.string_of_uint d) = Some (digitsValue 10 (digitsOf d)) /\
  parseInt (String "-" (NilEmpty.string_of_uint d))
    = Some (- digitsValue 10 (digitsOf d)).
Proof.
  intro Hnil.
  destruct d as [|d|d|d|d|d|d|d|d|d|d];
    [contradiction | destruct d as [|d|d|d|d|d|d|d|d|d|d] | ..];
    unfold parseInt;
    cbn [NilEmpty.string_of_uint trimStart digitsOf];
    evaluate_characters; cbv beta iota zeta;
    evaluate_characters; cbv beta iota zeta;
    cbn [digits orb]; evaluate_characters; cbv beta iota zeta;
    cbn [digits]; evaluate_characters; cbv beta iota zeta;
    rewrite ?digits_of_printed; cbv beta iota zeta.
  all: split; reflexivity.
Qed.

(** Decimal digits, printed and read. *)
Lemma parseInt_of_decimal (m : Z) : parseInt (toString m) = Some m.
Proof.
  unfold toString. destruct m as [|p|p]; cbn [Z.to_int].
  - reflexivity.
  - pose proof (Unsigned.to_uint_nonnil p) as Hnil.
    cbn [NilZero.string_of_int].
    replace (NilZero.string_of_uint (Pos.to_uint p))
      with (NilEmpty.string_of_uint (Pos.to_uint p))
      by (destruct (Pos.to_uint p); [contradiction | reflexivity..]).
    rewrite (proj1 (parseInt_unsigned Hnil)), value_of_printed,
      Unsigned.of_to.
    reflexivity.
  - pose proof (Unsigned.to_uint_nonnil p) as Hnil.
    cbn [NilZero.string_of_int].
    replace (NilZero.string_of_uint (Pos.to_uint p))
      with (NilEmpty.string_of_uint (Pos.to_uint p))
      by (destruct (Pos.to_uint p); [contradiction | reflexivity..]).
    rewrite (proj2 (parseInt_unsigned Hnil)), value_of_printed,
      Unsigned.of_to.
    reflexivity.
Qed.

(** X14.  [parseInt] reads back every safe integer that [toString] prints.
    So the duration field, which starts as the printed trial duration,
    sends no configuration change until it is edited, for a trial duration
    that is a safe integer. *)
Theorem parseInt_reads_toString (n : Z) (config : FileConfig)
  (anns : list Annotation) (gain : number) (gainText : string) :
  Z.abs n < 2 ^ 53 ->
  Z.abs (trialDurationSec config) < 2 ^ 53 ->
  parseInt (toString n) = Some n /\
  durationEffect (tempDuration (initialState anns gain config gainText)) config
    = [].
Proof.
  intros _ _. split; [apply parseInt_of_decimal|].
  unfold initialState, durationEffect. cbn [tempDuration].
  rewrite parseInt_of_decimal, Z.eqb_refl, andb_false_r. reflexivity.
Qed.

End ParseRoundTrip.

(** A year in seconds, and the duration field of a viewer just mounted on
    trials of 5 s. *)
Lemma parseInt_reads_toString_witness :
  JsString.parseInt (toString 31536000) = Some 31536000%Z /\
  durationEffect
    (tempDuration (initialState [] (JsString.Num 1) config_100Hz_5s "1"))
    config_100Hz_5s = [].
Proof.
  apply (@parseInt_reads_toString 31536000 config_100Hz_5s [] (JsString.Num 1)
           "1"); reflexivity.
Defined.

(** ** Parsed rows to sample matrix *)

Section ParsedData.

Import JsString DataParser.
Local Open Scope Z_scope.

Lemma orZero_not_NaN (val : number) : isNaN (orZero val) = false.
Proof. destruct val; reflexivity. Qed.

(** The loop over the cells, in closed form: the first
    [max(1, expectedChannels)] cells from [skipCols] on. *)
Lemma collect_closed (row : list string) (expectedChannels : Z) :
  forall (js : list Z) (numRow : list number),
    (length numRow < Z.to_nat (Z.max 1 expectedChannels))%nat ->
    numRow = [] \/ Z.of_nat (length numRow) < expectedChannels ->
    collect row expectedChannels js numRow
      = numRow
        ++ map (fun j => orZero (parseCell row j))
               (firstn (Z.to_nat (Z.max 1 expectedChannels) - length numRow) js).
Proof.
  set (m := Z.to_nat (Z.max 1 expectedChannels)).
  induction js as [|j rest IH]; intros numRow Hlt Hacc.
  - rewrite firstn_nil. simpl. rewrite app_nil_r. reflexivity.
  - cbn [collect]. rewrite length_app. cbn [length].
    destruct (Z.of_nat (length numRow + 1) >=? expectedChannels) eqn:E.
    + assert (Hone : (m - length numRow = 1)%nat).
      { apply Z.geb_le in E. unfold m in *.
        destruct Hacc as [->|Hacc]; simpl in *; lia. }
      rewrite Hone. reflexivity.
    + assert (Hge : ~ (expectedChannels <= Z.of_nat (length numRow + 1))).
      { intro H. apply Z.geb_le in H. congruence. }
      rewrite IH.
      * rewrite length_app. cbn [length].
        replace (m - length numRow)%nat
          with (S (m - (length numRow + 1)))%nat by (unfold m in *; lia).
        cbn [firstn map]. rewrite <- app_assoc. reflexivity.
      * rewrite length_app. cbn [length]. unfold m. lia.
      * right. rewrite length_app. cbn [length]. lia.
Qed.

Lemma columnsFrom_length (skipCols : Z) (len : nat) :
  length (columnsFrom skipCols len) = Z.to_nat (Z.of_nat len - skipCols).
Proof. unfold columnsFrom. rewrite length_map. apply length_seq. Qed.

Lemma timeRows_cons (row : list string) (rest : list (list string))
  (skipCols expectedChannels : Z) :
  timeRows (row :: rest) skipCols expectedChannels
    = timeRows [row] skipCols expectedChannels
      ++ timeRows rest skipCols expectedChannels.
Proof. unfold timeRows. cbn [flat_map]. rewrite app_nil_r. reflexivity. Qed.

(** One output row of the rows-are-time branch. *)
Lemma timeRows_row (row : list string) (skipCols expectedChannels : Z) :
  skipCols < Z.of_nat (length row) ->
  timeRows [row] skipCols expectedChannels
    = [map (fun j => orZero (parseCell row j))
           (firstn (Z.to_nat (Z.max 1 expectedChannels))
                   (columnsFrom skipCols (length row)))].
Proof.
  intro H. unfold timeRows. cbn [flat_map].
  replace (Z.of_nat (length row) <=? skipCols) with false
    by (symmetry; apply Z.leb_gt; exact H).
  rewrite collect_closed by (simpl; try lia; left; reflexivity).
  cbn [length app]. rewrite Nat.sub_0_r.
  rewrite length_map, length_firstn, columnsFrom_length.
  replace (0 <? _)%nat with true by (symmetry; apply Nat.ltb_lt; lia).
  rewrite app_nil_r. reflexivity.
Qed.

(** X15.  No value of the matrix is [NaN], in either orientation: what does not
    parse is stored as 0.  With rows as time every output row has a value
    and at most [max(1, expectedChannels)] of them; with rows as channels
    every output row has one value per channel row read. *)
Theorem processFullData_values (rawRows : list (list string))
  (skipRows skipCols expectedChannels : Z) (orientation : Viewer.DataOrientation) :
  let result :=
    processFullData rawRows skipRows skipCols expectedChannels orientation in
  Forall (Forall (fun v => isNaN v = false)) result /\
  match orientation with
  | Viewer.RowsAreTime =>
      Forall (fun numRow =>
                1 <= Z.of_nat (length numRow) <= Z.max 1 expectedChannels)
             result /\
      (length result <= length rawRows)%nat
  | Viewer.RowsAreChannels =>
      let channelRows :=
        Viewer.slice rawRows skipRows (skipRows + expectedChannels) in
      Forall (fun numRow => length numRow = length channelRows) result /\
      match channelRows with
      | [] => result = []
      | firstRow :: _ =>
          Z.of_nat (length result)
            = Z.max 0 (Z.of_nat (length firstRow) - skipCols)
      end
  end.
Proof.
  cbv zeta. destruct orientation; cbn [processFullData].
  - set (dataRows := Viewer.slice rawRows skipRows (Z.of_nat (length rawRows))).
    assert (Hshort : (length dataRows <= length rawRows)%nat).
    { unfold dataRows, Viewer.slice.
      rewrite length_firstn, length_skipn. lia. }
    assert (Hrows : forall rows,
              Forall (fun numRow =>
                        Forall (fun v => isNaN v = false) numRow /\
                        1 <= Z.of_nat (length numRow)
                          <= Z.max 1 expectedChannels)
                     (timeRows rows skipCols expectedChannels) /\
              (length (timeRows rows skipCols expectedChannels)
               <= length rows)%nat).
    { induction rows as [|row rest [IHv IHl]].
      - split; [constructor | simpl; lia].
      - rewrite timeRows_cons.
        destruct (Z.le_gt_cases (Z.of_nat (length row)) skipCols) as [Hs|Hl].
        + replace (timeRows [row] skipCols expectedChannels)
            with (@nil (list number)).
          * cbn [app]. split; [exact IHv | simpl; lia].
          * unfold timeRows. cbn [flat_map].
            replace (Z.of_nat (length row) <=? skipCols) with true
              by (symmetry; apply Z.leb_le; exact Hs).
            reflexivity.
        + rewrite timeRows_row by lia. cbn [app]. split.
          * constructor; [|exact IHv]. split.
            -- apply Forall_map, Forall_forall. intros j _.
               apply orZero_not_NaN.
            -- rewrite length_map, length_firstn, columnsFrom_length. lia.
          * simpl. lia. }
    destruct (Hrows dataRows) as [Hv Hl].
    split; [|split].
    + eapply Forall_impl; [|exact Hv]. intros numRow [H _]. exact H.
    + eapply Forall_impl; [|exact Hv]. intros numRow [_ H]. exact H.
    + lia.
  - set (channelRows := Viewer.slice rawRows skipRows (skipRows + expectedChannels)).
    split.
    + unfold channelRowsToTime. destruct channelRows as [|firstRow others];
        [constructor|].
      destruct (_ <=? 0); [constructor|].
      apply Forall_map, Forall_forall. intros t _.
      apply Forall_map, Forall_forall. intros rowData _.
      cbv zeta. destruct (_ <? _); [apply orZero_not_NaN | reflexivity].
    + unfold channelRowsToTime.
      destruct channelRows as [|firstRow others].
      * split; [apply Forall_nil | reflexivity].
      * destruct (Z.of_nat (length firstRow) - skipCols <=? 0) eqn:E.
        -- apply Z.leb_le in E. split; [constructor | simpl; lia].
        -- apply Z.leb_gt in E. split.
           ++ apply Forall_map, Forall_forall. intros t _.
              apply length_map.
           ++ rewrite length_map, length_seq. lia.
Qed.

Lemma nth_error_seq_from_zero (n t : nat) :
  (t < n)%nat -> nth_error (seq 0 n) t = Some t.
Proof.
  intro H. rewrite (nth_error_nth' _ 0%nat) by (rewrite length_seq; exact H).
  rewrite seq_nth by exact H. reflexivity.
Qed.

Lemma slice_to_the_end (A : Type) (arr : list A) (start count : Z) :
  0 <= start ->
  Z.of_nat (length (Viewer.slice arr start (Z.of_nat (length arr)))) <= count ->
  Viewer.slice arr start (start + count)
    = Viewer.slice arr start (Z.of_nat (length arr)).
Proof.
  unfold Viewer.slice. cbv zeta. intros Hs.
  rewrite !length_firstn, !length_skipn.
  replace (start <? 0) with false by (symmetry; apply Z.ltb_ge; lia).
  replace (Z.of_nat (length arr) <? 0) with false
    by (symmetry; apply Z.ltb_ge; lia).
  intro H.
  replace (start + count <? 0) with false by (symmetry; apply Z.ltb_ge; lia).
  f_equal. lia.
Qed.

Lemma timeRows_rectangular (w : nat) (skipCols expectedChannels : Z) :
  skipCols < Z.of_nat w ->
  Z.of_nat w - skipCols <= Z.max 1 expectedChannels ->
  forall table : list (list string),
    Forall (fun row => length row = w) table ->
    timeRows table skipCols expectedChannels
      = map (fun row => map (fun j => orZero (parseCell row j))
                            (columnsFrom skipCols w))
            table.
Proof.
  intros Hw Hfit. induction table as [|row rest IH]; intro Hall.
  - reflexivity.
  - inversion Hall as [|? ? Hrow Hrest]; subst.
    rewrite timeRows_cons, timeRows_row by lia.
    rewrite IH by exact Hrest. cbn [app map].
    rewrite firstn_all2 by (rewrite columnsFrom_length; lia).
    reflexivity.
Qed.

Lemma channelRowsToTime_rectangular (w : nat) (skipCols : Z)
  (table : list (list string)) :
  skipCols < Z.of_nat w ->
  table <> [] ->
  Forall (fun row => length row = w) table ->
  channelRowsToTime table skipCols
    = map (fun t => map (fun row => orZero (parseCell row (Z.of_nat t + skipCols)))
                        table)
          (seq 0 (Z.to_nat (Z.of_nat w - skipCols))).
Proof.
  intros Hw Hne Hall. unfold channelRowsToTime.
  destruct table as [|firstRow others] eqn:Et; [congruence|].
  rewrite <- Et in *. 
  assert (Hfirst : length firstRow = w).
  { rewrite Et in Hall. inversion Hall; assumption. }
  rewrite Hfirst.
  replace (Z.of_nat w - skipCols <=? 0) with false
    by (symmetry; apply Z.leb_gt; lia).
  apply map_ext_in. intros t Ht. apply in_seq in Ht.
  apply map_ext_in. intros row Hrow.
  rewrite Forall_forall in Hall. rewrite (Hall row Hrow).
  replace (Z.of_nat t + skipCols <? Z.of_nat w) with true
    by (symmetry; apply Z.ltb_lt; lia).
  reflexivity.
Qed.

(** X16.  The two orientations are transposes of each other.  For a table whose
    rows (after the skipped ones) all have [w] cells, more than [skipCols],
    and which fits [expectedChannels] both ways, the value at time [t] and
    channel [ch] of the rows-are-channels reading is the value at row [ch]
    and position [t] of the rows-are-time reading: the number parsed from
    cell [skipCols + t] of row [ch], or 0 where that cell is not a
    number. *)
Theorem orientations_are_transposes (rawRows : list (list string))
  (skipRows skipCols expectedChannels : Z) (w : nat)
  (ch t : nat) (row : list string) :
  let table := Viewer.slice rawRows skipRows (Z.of_nat (length rawRows)) in
  0 <= skipRows ->
  Forall (fun row => length row = w) table ->
  skipCols < Z.of_nat w ->
  Z.of_nat (length table) <= expectedChannels ->
  Z.of_nat w - skipCols <= expectedChannels ->
  nth_error table ch = Some row ->
  Z.of_nat t < Z.of_nat w - skipCols ->
  exists asTime asChannels : list number,
    nth_error (processFullData rawRows skipRows skipCols expectedChannels
                 Viewer.RowsAreTime) ch = Some asTime /\
    nth_error (processFullData rawRows skipRows skipCols expectedChannels
                 Viewer.RowsAreChannels) t = Some asChannels /\
    nth_error asTime t = Some (orZero (parseCell row (skipCols + Z.of_nat t))) /\
    nth_error asChannels ch = nth_error asTime t.
Proof.
  intros table Hs Hall Hw Hrows Hcols Hrow Ht.
  assert (Hne : table <> []).
  { intro E. rewrite E in Hrow. destruct ch; discriminate. }
  cbn [processFullData]. fold table.
  rewrite slice_to_the_end by (fold table; lia). fold table.
  rewrite (@timeRows_rectangular w) by (try exact Hall; lia).
  rewrite (@channelRowsToTime_rectangular w) by assumption.
  eexists. eexists. split; [|split; [|split]].
  - rewrite nth_error_map, Hrow. reflexivity.
  - rewrite nth_error_map.
    rewrite nth_error_seq_from_zero by lia. reflexivity.
  - rewrite nth_error_map. unfold columnsFrom. rewrite nth_error_map.
    rewrite nth_error_seq_from_zero by lia. reflexivity.
  - rewrite nth_error_map, Hrow.
    rewrite nth_error_map. unfold columnsFrom. rewrite nth_error_map.
    rewrite nth_error_seq_from_zero by lia.
    cbn [option_map]. do 3 f_equal. lia.
Qed.

Lemma orientations_are_transposes_witness :
  let rawRows :=
    [["time"; "c1"; "c2"]; ["0"; "1.5"; "x"]; ["1"; "-2"; "3"]]%string in
  exists asTime asChannels : list number,
    nth_error (processFullData rawRows 1 1 2 Viewer.RowsAreTime) 1
      = Some asTime /\
    nth_error (processFullData rawRows 1 1 2 Viewer.RowsAreChannels) 0
      = Some asChannels /\
    nth_error asTime 0
      = Some (orZero (parseCell ["1"; "-2"; "3"]%string (1 + Z.of_nat 0))) /\
    nth_error asChannels 1 = nth_error asTime 0.
Proof.
  cbv zeta.
  apply (@orientations_are_transposes
           [["time"; "c1"; "c2"]; ["0"; "1.5"; "x"]; ["1"; "-2"; "3"]]%string
           1 1 2 3 1 0 ["1"; "-2"; "3"]%string).
  - lia.
  - vm_compute. repeat constructor.
  - lia.
  - vm_compute. discriminate.
  - lia.
  - reflexivity.
  - lia.
Defined.

End ParsedData.

(** ** What the visualisation area shows *)

Section Display.

Import JsString Session Dsp SpectrogramView.
Local Open Scope Z_scope.

Variable data : list (list R).
Variable config : FileConfig.

Hypothesis rate_positive : 0 < samplingRate config.
Hypothesis duration_positive : 0 < trialDurationSec config.

(** X17.  Paging never reaches the "no data" message.  From a trial in range,
    in the raw paged view, any run of "previous" and "next" ends on a
    waveform: the rows of the trial reached, at least one, drawn at full
    width with the unchanged gain and starting at
    [currentTrial * trialDurationSec] seconds. *)
Theorem paging_shows_a_waveform (s : State) (events : list NavEvent) :
  viewMode s = raw ->
  isScrollMode s = false ->
  0 <= currentTrial s <= totalTrials data config - 1 ->
  let s' := navigateAll data config s events in
  exists rows : list (list R),
    visualizationContent data config s'
      = Waveform rows None (yScale s)
                 (currentTrial s' * trialDurationSec config) /\
    rows <> [] /\
    rows = firstn (Z.to_nat (pointsPerTrial config))
                  (skipn (Z.to_nat (currentTrial s' * pointsPerTrial config))
                         data).
Proof.
  intros Hraw Hpaged Hin s'.
  pose proof (@pointsPerTrial_positive config rate_positive duration_positive) as HL.
  pose proof (@totalTrials_ceiling _ data config HL) as [Hlo Hhi].
  destruct (@navigateAll_in_range _ data config s events ltac:(lia) Hin)
    as [Hin' Hframe].
  fold s' in Hin', Hframe.
  assert (Hraw' : viewMode s' = raw) by (rewrite Hframe; exact Hraw).
  assert (Hpaged' : isScrollMode s' = false) by (rewrite Hframe; exact Hpaged).
  assert (Hgain : yScale s' = yScale s) by (rewrite Hframe; reflexivity).
  pose proof (@shown_rows _ data config rate_positive duration_positive
                s' Hpaged' ltac:(lia)) as Hshown.
  set (rows := currentTrialDataSlice data config s') in *.
  assert (Hpos : (0 < length rows)%nat) by nia.
  exists rows. split; [|split].
  - unfold visualizationContent. rewrite Hraw'. fold rows.
    replace (0 <? length rows)%nat with true
      by (symmetry; apply Nat.ltb_lt; exact Hpos).
    rewrite Hpaged', Hgain. reflexivity.
  - intro E. rewrite E in Hpos. simpl in Hpos. lia.
  - unfold rows.
    replace s' with (jumpToTrial (Z.of_nat (Z.to_nat (currentTrial s'))) s')
      at 1.
    + rewrite (@trial_slice _ data config rate_positive duration_positive
                 s' _ Hpaged').
      do 2 f_equal. nia.
    + unfold jumpToTrial, setCurrentTrial. rewrite Z2Nat.id by lia.
      destruct s'; reflexivity.
Qed.

(** X18.  With fewer than 256 rows per trial the spectrogram view fails on every
    trial in range: the series handed to the component has between 1 and
    [pointsPerTrial] values, the transform returns an empty grid, and the
    drawing effect throws. *)
Theorem small_trials_break_spectrogram (s : State) (fuel : nat)
  (containerWidth height : Z) :
  pointsPerTrial config < 256 ->
  viewMode s = spectrogram ->
  isScrollMode s = false ->
  0 <= currentTrial s <= totalTrials data config - 1 ->
  exists (series : list R) (sd : SpectrogramData),
    visualizationContent data config s
      = SpectrogramOf series (samplingRate config) /\
    1 <= Z.of_nat (length series) <= pointsPerTrial config /\
    specData fuel series (IZR (samplingRate config)) = Ok (Some sd) /\
    render (Some sd) = CanvasWithLegend /\
    drawEffect true true (Some sd) containerWidth height = Throw.
Proof.
  intros Hsmall Hmode Hpaged Hin.
  pose proof (@pointsPerTrial_positive config rate_positive duration_positive) as HL.
  pose proof (@totalTrials_ceiling _ data config HL) as [Hlo Hhi].
  pose proof (@shown_rows _ data config rate_positive duration_positive
                s Hpaged ltac:(lia)) as Hshown.
  set (series := spectrogramDataSeries data config s).
  assert (Hlen : length series = length (currentTrialDataSlice data config s)).
  { unfold series, spectrogramDataSeries. rewrite Hmode. apply length_map. }
  assert (Hrange : 1 <= Z.of_nat (length series) <= pointsPerTrial config)
    by (rewrite Hlen; nia).
  destruct (@computeSpectrogram_short fuel series (IZR (samplingRate config))
              nFft (Z.of_nat (nFft / 2)))
    as (sd & Hsd & Hgrid & _).
  { unfold nFft. lia. }
  exists series, sd. repeat split; try lia.
  - unfold visualizationContent. rewrite Hmode. fold series.
    replace (0 <? length series)%nat with true
      by (symmetry; apply Nat.ltb_lt; lia).
    reflexivity.
  - unfold specData.
    replace (length series =? 0)%nat with false
      by (symmetry; apply Nat.eqb_neq; lia).
    rewrite Hsd. reflexivity.
  - unfold drawEffect. rewrite Hgrid. reflexivity.
Qed.

End Display.

(** 1200 rows at 100 Hz in trials of 5 s: after three times "next" and
    once "previous" a waveform is shown. *)
Lemma paging_shows_a_waveform_witness :
  let data := repeat [0%R] 1200 in
  let s' := Session.navigateAll data config_100Hz_5s (state_at 0 "")
              [Session.PressNext; Session.PressNext; Session.PressNext;
               Session.PressPrev] in
  exists rows : list (list R),
    Session.visualizationContent data config_100Hz_5s s'
      = Session.Waveform rows None (JsString.Num 1)
          (currentTrial s' * trialDurationSec config_100Hz_5s)%Z /\
    rows <> [] /\
    rows = firstn (Z.to_nat (pointsPerTrial config_100Hz_5s))
             (skipn (Z.to_nat (currentTrial s'
                               * pointsPerTrial config_100Hz_5s)%Z)
                    data).
Proof.
  intro data.
  assert (Htot : totalTrials data config_100Hz_5s = 3%Z)
    by (vm_compute; reflexivity).
  apply (@paging_shows_a_waveform data config_100Hz_5s
           ltac:(reflexivity) ltac:(reflexivity) (state_at 0 "")).
  - reflexivity.
  - reflexivity.
  - rewrite Htot. cbn. lia.
Defined.

(** Trials of 200 rows: the spectrogram of the second trial throws. *)
Lemma small_trials_break_spectrogram_witness :
  let data := repeat [0%R] 500 in
  exists (series : list R) (sd : Dsp.SpectrogramData),
    Session.visualizationContent data Sample2.config_100Hz_2s
      (Sample2.spectrogram_at 1)
      = Session.SpectrogramOf series 100 /\
    SpectrogramView.drawEffect true true (Some sd) 800 500 = Throw.
Proof.
  intro data.
  assert (Htot : totalTrials data Sample2.config_100Hz_2s = 3%Z)
    by (vm_compute; reflexivity).
  destruct (@small_trials_break_spectrogram data Sample2.config_100Hz_2s
              ltac:(reflexivity) ltac:(reflexivity)
              (Sample2.spectrogram_at 1) 0 800 500)
    as (series & sd & Hshow & _ & _ & _ & Hthrow).
  - reflexivity.
  - reflexivity.
  - reflexivity.
  - rewrite Htot. cbn. lia.
  - exists series, sd. split; assumption.
Defined.

(** ** Every tick of the time axis *)

Section AxisTicks.

Import Canvas.
Local Open Scope Z_scope.

(** At a positive rate a second at or beyond the last sample is not
    before the end of the slice. *)
Lemma beyond_data_not_before_end (totalPoints samplingRate sec : Z) :
  0 < samplingRate ->
  totalPoints <= sec * samplingRate ->
  Qltb (inject_Z sec) (inject_Z totalPoints / inject_Z samplingRate) = false.
Proof.
  intros Hrate H. unfold Qltb. apply negb_false_iff, Qle_bool_iff.
  apply Qle_shift_div_r.
  - change 0%Q with (inject_Z 0). rewrite <- Zlt_Qlt. exact Hrate.
  - rewrite <- inject_Z_mult, <- Zle_Qle. exact H.
Qed.

Lemma no_step_left (x interval : Z) :
  1 <= interval -> x < interval -> Z.to_nat (x / interval) = 0%nat.
Proof.
  intros Hint Hx. destruct (Z.le_gt_cases 0 x) as [Hpos|Hneg].
  - rewrite Z.div_small by lia. reflexivity.
  - pose proof (Z.div_lt_upper_bound x interval 0 ltac:(lia) ltac:(lia)).
    lia.
Qed.

Lemma tickLoop_complete (totalPoints samplingRate : Z) (startTime : Q)
  (interval : Z) :
  1 <= interval -> 1 <= totalPoints -> 0 < samplingRate ->
  let totalTime := (inject_Z totalPoints / inject_Z samplingRate)%Q in
  forall (fuel : nat) (sec : Z),
    0 <= sec ->
    Qceiling totalTime - sec < Z.of_nat fuel ->
    exists ticks,
      tickLoop fuel totalPoints samplingRate totalTime startTime interval sec
        = Ok ticks /\
      map tick_sec ticks
        = map (fun k => sec + Z.of_nat k * interval)
              (seq 0 (Z.to_nat ((Qceiling totalTime - sec + interval)
                                / interval))) /\
      Forall (fun tk =>
                tick_index tk
                  = Z.min (tick_sec tk * samplingRate) (totalPoints - 1) /\
                0 <= tick_index tk <= totalPoints - 1)
             ticks.
Proof.
  intros Hint Hpts Hrate totalTime.
  induction fuel as [|fuel IH]; intros sec Hsec Hfuel.
  - simpl. replace (sec <=? Qceiling totalTime) with false
      by (symmetry; apply Z.leb_gt; lia).
    exists []. split; [reflexivity|]. split; [|constructor].
    rewrite no_step_left by lia. reflexivity.
  - cbn [tickLoop]. destruct (sec <=? Qceiling totalTime) eqn:E.
    + apply Z.leb_le in E.
      destruct (IH (sec + interval)) as (rest & Hrest & Hsecs & Hall);
        [lia | lia |].
      rewrite Hrest. cbn [bind].
      assert (Hskip : (sec * samplingRate >=? totalPoints)
                      && Qltb (inject_Z sec) totalTime = false).
      { destruct (sec * samplingRate >=? totalPoints) eqn:Eb; [|reflexivity].
        apply Z.geb_le in Eb. cbn [andb].
        apply beyond_data_not_before_end; assumption. }
      rewrite Hskip.
      eexists. split; [reflexivity|]. split.
      * cbn [map tick_sec]. rewrite Hsecs.
        replace (Qceiling totalTime - sec + interval)
          with ((Qceiling totalTime - sec) + 1 * interval) by lia.
        rewrite Z.div_add by lia.
        replace (Qceiling totalTime - (sec + interval) + interval)
          with (Qceiling totalTime - sec) by lia.
        assert (Hq : 0 <= (Qceiling totalTime - sec) / interval)
          by (apply Z.div_pos; lia).
        rewrite Z2Nat.inj_add by lia.
        change (Z.to_nat 1) with 1%nat. rewrite Nat.add_1_r.
        cbn [seq map]. f_equal; [lia|].
        rewrite <- seq_shift, map_map. apply map_ext. intro k. lia.
      * constructor; [|exact Hall]. cbn [tick_index tick_sec].
        split; [reflexivity|]. nia.
    + apply Z.leb_gt in E.
      exists []. split; [reflexivity|]. split; [|constructor].
      rewrite no_step_left by lia. reflexivity.
Qed.

(** X19.  No second is skipped.  For a slice that is not empty, at a positive
    rate, the axis has a tick at every multiple of the interval from 0 to
    [ceil(totalTime)]; each is drawn at its own sample, or at the last
    sample where its second lies at or beyond the end of the slice, so
    never outside the plot. *)
Theorem ticks_cover_axis (totalPoints : nat) (samplingRate : Z)
  (startTime : Q) (fuel : nat) :
  (1 <= totalPoints)%nat ->
  0 < samplingRate ->
  let totalTime :=
    (inject_Z (Z.of_nat totalPoints) / inject_Z samplingRate)%Q in
  let interval := tickInterval totalTime in
  Qceiling totalTime < Z.of_nat fuel ->
  exists ticks,
    timeAxis fuel totalPoints samplingRate startTime = Ok ticks /\
    map tick_sec ticks
      = map (fun k => Z.of_nat k * interval)
            (seq 0 (Z.to_nat (Qceiling totalTime / interval) + 1)) /\
    Forall (fun tk =>
              tick_index tk
                = Z.min (tick_sec tk * samplingRate)
                        (Z.of_nat totalPoints - 1) /\
              0 <= tick_index tk <= Z.of_nat totalPoints - 1)
           ticks.
Proof.
  intros Hpts Hrate totalTime interval Hfuel.
  pose proof (tickInterval_positive totalTime) as Hint. fold interval in Hint.
  assert (Hpos : (0 < totalTime)%Q).
  { unfold totalTime. apply Qlt_shift_div_l.
    - change 0%Q with (inject_Z 0). rewrite <- Zlt_Qlt. exact Hrate.
    - rewrite Qmult_0_l. change 0%Q with (inject_Z 0).
      rewrite <- Zlt_Qlt. lia. }
  assert (Hceil : 0 <= Qceiling totalTime).
  { pose proof (Qle_ceiling totalTime) as H.
    assert (Hc : (inject_Z 0 < inject_Z (Qceiling totalTime))%Q)
      by (eapply Qlt_le_trans; [exact Hpos | exact H]).
    rewrite <- Zlt_Qlt in Hc. lia. }
  unfold timeAxis.
  replace (totalPoints =? 0)%nat with false
    by (symmetry; apply Nat.eqb_neq; lia).
  fold totalTime. rewrite (proj2 (Qgtb_true totalTime 0) Hpos).
  fold interval.
  destruct (@tickLoop_complete (Z.of_nat totalPoints) samplingRate startTime
              interval Hint ltac:(lia) Hrate fuel 0 ltac:(lia) ltac:(fold totalTime; lia))
    as (ticks & Hticks & Hsecs & Hall).
  fold totalTime in Hticks, Hsecs.
  exists ticks. split; [exact Hticks|]. split; [|exact Hall].
  rewrite Hsecs.
  replace (Qceiling totalTime - 0 + interval)
    with (Qceiling totalTime + 1 * interval) by lia.
  rewrite Z.div_add by lia.
  rewrite Z2Nat.inj_add by (try apply Z.div_pos; lia).
  reflexivity.
Qed.

End AxisTicks.

(** 1200 rows at 100 Hz: 12 s, ticks at 0, 2, ..., 12 s. *)
Lemma ticks_cover_axis_witness :
  exists ticks,
    Canvas.timeAxis 20 1200 100 0 = Ok ticks /\
    map Canvas.tick_sec ticks = [0; 2; 4; 6; 8; 10; 12]%Z /\
    Forall (fun tk => (0 <= Canvas.tick_index tk <= 1199)%Z) ticks.
Proof.
  destruct (@ticks_cover_axis 1200 100 0 20 ltac:(lia) ltac:(lia)
              ltac:(vm_compute; reflexivity))
    as (ticks & Hticks & Hsecs & Hall).
  exists ticks. split; [exact Hticks|]. split.
  - exact Hsecs.
  - eapply Forall_impl; [|exact Hall]. intros tk [_ H]. exact H.
Defined.

(** ** The waveform canvas: lanes and pointer *)

Section WaveformCanvas.

Import Canvas JsString Session Waveform.
Local Open Scope Q_scope.

Lemma Qltb_false (a b : Q) : Qltb a b = false <-> b <= a.
Proof. unfold Qltb. rewrite negb_false_iff. apply Qle_bool_iff. Qed.

Lemma Qltb_true (a b : Q) : Qltb a b = true <-> a < b.
Proof.
  unfold Qltb. rewrite negb_true_iff. split; intro H.
  - apply Qnot_le_lt. intro Hle. apply Qle_bool_iff in Hle. congruence.
  - destruct (Qle_bool b a) eqn:E; [|reflexivity].
    apply Qle_bool_iff in E. exfalso. exact (Qlt_not_le _ _ H E).
Qed.

Lemma Qmax2_bounds (a b : Q) : a <= Qmax2 a b /\ b <= Qmax2 a b.
Proof.
  unfold Qmax2. destruct (Qle_bool a b) eqn:E.
  - apply Qle_bool_iff in E. split; Lqa.lra.
  - assert (b < a).
    { apply Qnot_le_lt. intro H. apply Qle_bool_iff in H. congruence. }
    split; Lqa.lra.
Qed.

(** X20.  Each channel has a lane of its own, at least 40 px high, inside the
    padded area: the canvas is made as high as that takes, whatever height
    was observed.  The lanes follow each other without gap or overlap, and
    [centerY] is the middle of lane [ch]. *)
Theorem channel_lanes (observedHeight : Q) (channelCount ch : Z) :
  (1 <= channelCount)%Z ->
  (0 <= ch < channelCount)%Z ->
  let height := finalHeight observedHeight channelCount in
  let slot := slotHeight height channelCount in
  let top := centerY height channelCount ch - slot / 2 in
  let bottom := centerY height channelCount ch + slot / 2 in
  observedHeight <= height /\
  40 <= slot /\
  top == paddingTop + inject_Z ch * slot /\
  bottom == top + slot /\
  paddingTop <= top /\
  bottom <= height - paddingBottom.
Proof.
  intros Hcount Hch height slot top bottom.
  destruct (Qmax2_bounds observedHeight (minRequiredHeight channelCount))
    as [Hobs Hmin].
  fold (finalHeight observedHeight channelCount) in Hobs, Hmin.
  fold height in Hobs, Hmin. unfold minRequiredHeight in Hmin.
  assert (Hn : 1 <= inject_Z channelCount).
  { change 1 with (inject_Z 1). rewrite <- Zle_Qle. exact Hcount. }
  assert (Hc0 : 0 <= inject_Z ch).
  { change 0 with (inject_Z 0). rewrite <- Zle_Qle. lia. }
  assert (Hc1 : inject_Z ch + 1 <= inject_Z channelCount).
  { change 1 with (inject_Z 1). rewrite <- inject_Z_plus, <- Zle_Qle. lia. }
  assert (Hslot : slot * inject_Z channelCount == height - 20 - 30).
  { unfold slot, slotHeight, usableHeight, paddingTop, paddingBottom.
    field. Lqa.lra. }
  unfold top, bottom, centerY. fold slot. unfold paddingTop, paddingBottom.
  clear top bottom. clearbody slot height.
  set (n := inject_Z channelCount) in *. set (c := inject_Z ch) in *.
  clearbody n c.
  assert (H40 : 40 <= slot) by Lqa.nra.
  assert (Hrest : 0 <= (n - c - 1) * slot)
    by (apply Qmult_le_0_compat; Lqa.lra).
  assert (Hexp : (n - c - 1) * slot == slot * n - c * slot - slot) by ring.
  rewrite Hexp in Hrest.
  repeat split; try Lqa.lra; try Lqa.nra.
  - field.
  - assert (Hsum : 20 + c * slot + slot / 2 + slot / 2 == 20 + c * slot + slot)
      by field.
    rewrite Hsum. Lqa.lra.
Qed.

Lemma Qeq_bool_false (a b : Q) : ~ a == b -> Qeq_bool a b = false.
Proof.
  intro H. destruct (Qeq_bool a b) eqn:E; [|reflexivity].
  apply Qeq_bool_iff in E. contradiction.
Qed.

Lemma divide_finite (a b : Q) : ~ b == 0 -> divide a b = Num (a / b).
Proof. intro H. unfold divide. rewrite (Qeq_bool_false H). reflexivity. Qed.

Lemma divide_zero (a b : Q) :
  a == 0 -> divide a b = NaN \/ exists q, divide a b = Num q /\ q == 0.
Proof.
  intro Ha. unfold divide. rewrite (proj2 (Qeq_bool_iff a 0) Ha).
  destruct (Qeq_bool b 0); [left; reflexivity|].
  right. eexists. split; [reflexivity|]. rewrite Ha. unfold Qdiv. ring.
Qed.

Lemma inside_plot (rectWidth x : Q) :
  paddingLeft <= x -> x <= rectWidth - paddingRight ->
  Qltb x paddingLeft || Qgtb x (rectWidth - paddingRight) = false.
Proof.
  intros Hl Hr. apply orb_false_iff. split.
  - apply Qltb_false. exact Hl.
  - apply Qgtb_false. exact Hr.
Qed.

(** X21.  Inside the plot, with at least two rows, the tooltip goes to the row
    nearest to the pointer: the index is in range, the marker is drawn at
    that row's position, at most half a step from the pointer, and the
    time shown is that row's. *)
Theorem pointer_finds_nearest_row (totalPoints : nat)
  (rectWidth rectLeft clientX startTime : Q) (samplingRate : Z) :
  (2 <= totalPoints)%nat ->
  paddingLeft + paddingRight < rectWidth ->
  let x := clientX - rectLeft in
  paddingLeft <= x ->
  x <= rectWidth - paddingRight ->
  let xStep := (rectWidth - paddingLeft - paddingRight)
               / inject_Z (Z.of_nat totalPoints - 1) in
  exists index : Z,
    handleMouseMove true totalPoints rectWidth rectLeft clientX startTime
                    samplingRate
      = Shown (Num (paddingLeft + inject_Z index * xStep))
              (startTime + inject_Z index / inject_Z samplingRate)
              index /\
    (0 <= index <= Z.of_nat totalPoints - 1)%Z /\
    Qabs (x - (paddingLeft + inject_Z index * xStep)) <= xStep / 2.
Proof.
  intros Hpts Hwide x Hl Hr xStep.
  set (m := inject_Z (Z.of_nat totalPoints - 1)) in *.
  assert (Hm : 1 <= m).
  { unfold m. change 1 with (inject_Z 1). rewrite <- Zle_Qle. lia. }
  set (usable := rectWidth - paddingLeft - paddingRight) in *.
  assert (Husable : 0 < usable) by (unfold usable; Lqa.lra).
  assert (Hstep : 0 < xStep).
  { unfold xStep. apply Qlt_shift_div_l; Lqa.lra. }
  assert (Hspan : xStep * m == usable).
  { unfold xStep. field. Lqa.lra. }
  set (r := (x - paddingLeft) / xStep).
  assert (Hr_def : r * xStep == x - paddingLeft).
  { unfold r. field. Lqa.lra. }
  assert (Hr0 : 0 <= r).
  { unfold r. apply Qle_shift_div_l; Lqa.lra. }
  assert (Hr1 : r <= m).
  { unfold r. apply Qle_shift_div_r; [exact Hstep|].
    rewrite Qmult_comm, Hspan. unfold usable. Lqa.lra. }
  set (index := Qfloor (r + 1 / 2)).
  pose proof (Qfloor_le (r + 1 / 2)) as Hfl. fold index in Hfl.
  pose proof (Qlt_floor (r + 1 / 2)) as Hfu. fold index in Hfu.
  rewrite inject_Z_plus in Hfu. change (inject_Z 1) with 1 in Hfu.
  change (1 / 2) with (1 # 2) in Hfl, Hfu.
  assert (Hi0 : (0 <= index)%Z).
  { assert (H : inject_Z (-1) < inject_Z index)
      by (change (inject_Z (-1)) with (-1); Lqa.lra).
    rewrite <- Zlt_Qlt in H. lia. }
  assert (Hi1 : (index <= Z.of_nat totalPoints - 1)%Z).
  { assert (H : inject_Z index < inject_Z (Z.of_nat totalPoints - 1) + 1)
      by (fold m; Lqa.lra).
    change 1 with (inject_Z 1) in H.
    rewrite <- inject_Z_plus, <- Zlt_Qlt in H. lia. }
  exists index. split; [|split].
  - unfold handleMouseMove. cbn [negb orb].
    replace (totalPoints =? 0)%nat with false
      by (symmetry; apply Nat.eqb_neq; lia).
    cbv zeta. fold x. rewrite (inside_plot Hl Hr).
    fold usable. fold m.
    rewrite (@divide_finite usable m) by Lqa.lra.
    fold xStep. cbn [divideBy].
    rewrite (@divide_finite (x - paddingLeft) xStep) by Lqa.lra.
    fold r. fold index.
    replace (index >=? 0)%Z with true by (symmetry; apply Z.geb_le; lia).
    replace (index <? Z.of_nat totalPoints)%Z with true
      by (symmetry; apply Z.ltb_lt; lia).
    reflexivity.
  - lia.
  - apply Qabs_Qle_condition.
    assert (Hexp : x - (paddingLeft + inject_Z index * xStep)
                   == (r - inject_Z index) * xStep).
    { setoid_replace ((r - inject_Z index) * xStep)
        with (r * xStep - inject_Z index * xStep) by ring.
      rewrite Hr_def. ring. }
    rewrite Hexp.
    assert (Hhalf : xStep / 2 == (1 # 2) * xStep) by field.
    rewrite Hhalf.
    split.
    + setoid_replace (- ((1 # 2) * xStep)) with ((- (1 # 2)) * xStep) by ring.
      apply Qmult_le_compat_r; Lqa.lra.
    + apply Qmult_le_compat_r; Lqa.lra.
Qed.

(** X22.  Outside the plot the tooltip is cleared.  A slice of a single row has
    no step: inside the plot the tooltip is shown for row 0 with a marker
    position that is [NaN].  And a plot without width leaves the tooltip
    as it is. *)
Theorem pointer_edge_cases (totalPoints : nat)
  (rectWidth rectLeft clientX startTime : Q) (samplingRate : Z) :
  (1 <= totalPoints)%nat ->
  let x := clientX - rectLeft in
  let update := handleMouseMove true totalPoints rectWidth rectLeft clientX
                                startTime samplingRate in
  (x < paddingLeft \/ rectWidth - paddingRight < x -> update = Cleared) /\
  (totalPoints = 1%nat ->
   paddingLeft + paddingRight < rectWidth ->
   paddingLeft <= x -> x <= rectWidth - paddingRight ->
   update = Shown NaN (startTime + inject_Z 0 / inject_Z samplingRate) 0) /\
  (rectWidth == paddingLeft + paddingRight ->
   paddingLeft <= x -> x <= rectWidth - paddingRight ->
   update = Unchanged).
Proof.
  intros Hpts x update. unfold update, handleMouseMove. cbn [negb orb].
  replace (totalPoints =? 0)%nat with false
    by (symmetry; apply Nat.eqb_neq; lia).
  cbv zeta. fold x. split; [|split].
  - intros [H|H].
    + rewrite (proj2 (Qltb_true x paddingLeft) H). reflexivity.
    + rewrite (proj2 (Qgtb_true x (rectWidth - paddingRight)) H).
      rewrite orb_true_r. reflexivity.
  - intros -> Hwide Hl Hr. rewrite (inside_plot Hl Hr).
    change (inject_Z (Z.of_nat 1 - 1)) with 0.
    unfold divide. change (Qeq_bool 0 0) with true. cbv iota.
    rewrite (@Qeq_bool_false (rectWidth - paddingLeft - paddingRight) 0)
      by Lqa.lra.
    rewrite (proj2 (Qltb_false (rectWidth - paddingLeft - paddingRight) 0))
      by Lqa.lra.
    reflexivity.
  - intros Hflat Hl Hr. rewrite (inside_plot Hl Hr).
    assert (Hx : x - paddingLeft == 0) by Lqa.lra.
    assert (Hu : rectWidth - paddingLeft - paddingRight == 0) by Lqa.lra.
    destruct (divide_zero (inject_Z (Z.of_nat totalPoints - 1)) Hu)
      as [-> | (q & -> & Hq)]; [reflexivity|].
    cbn [divideBy].
    destruct (divide_zero q Hx) as [-> | (q' & Hq' & _)]; [reflexivity|].
    unfold divide in Hq'. rewrite (proj2 (Qeq_bool_iff q 0) Hq) in Hq'.
    rewrite (proj2 (Qeq_bool_iff _ 0) Hx) in Hq'. discriminate.
Qed.

End WaveformCanvas.

(** A canvas observed 100 px high with 8 channels is drawn 370 px high,
    with lanes of 40 px. *)
Lemma channel_lanes_witness :
  (40 <= Waveform.slotHeight (Waveform.finalHeight 100 8) 8)%Q /\
  (Waveform.centerY (Waveform.finalHeight 100 8) 8 7
   + Waveform.slotHeight (Waveform.finalHeight 100 8) 8 / 2
   <= Waveform.finalHeight 100 8 - Waveform.paddingBottom)%Q.
Proof.
  destruct (@channel_lanes 100 8 7 ltac:(lia) ltac:(lia))
    as (_ & H40 & _ & _ & _ & Hbottom).
  split; [exact H40 | exact Hbottom].
Defined.

(** 501 rows at 100 Hz on a plot 1000 px wide (2 px per row): the pointer
    at 551.4 px is nearest to row 251, 2.51 s into the slice. *)
Lemma pointer_finds_nearest_row_witness :
  exists index : Z,
    Waveform.handleMouseMove true 501 1070 0 (5514 # 10) 0 100
      = Waveform.Shown
          (JsString.Num (Waveform.paddingLeft + inject_Z index
                         * ((1070 - Waveform.paddingLeft - Waveform.paddingRight)
                            / inject_Z (Z.of_nat 501 - 1))))
          (0 + inject_Z index / inject_Z 100)
          index /\
    (0 <= index <= 500)%Z.
Proof.
  destruct (@pointer_finds_nearest_row 501 1070 0 (5514 # 10) 0 100)
    as (index & Hshown & Hrange & _).
  - lia.
  - reflexivity.
  - vm_compute. discriminate.
  - vm_compute. discriminate.
  - exists index. split; [exact Hshown | exact Hrange].
Defined.

(** A slice of one row on a plot 1000 px wide, pointer in the middle. *)
Lemma pointer_edge_cases_witness :
  Waveform.handleMouseMove true 1 1070 0 500 0 100
    = Waveform.Shown JsString.NaN (0 + inject_Z 0 / inject_Z 100) 0.
Proof.
  destruct (@pointer_edge_cases 1 1070 0 500 0 100 ltac:(lia))
    as (_ & Hsingle & _).
  apply Hsingle.
  - reflexivity.
  - reflexivity.
  - vm_compute. discriminate.
  - vm_compute. discriminate.
Defined.

(** ** The preview of the configuration step *)

Section PreviewData.

Import JsString Preview.
Local Open Scope Z_scope.

Lemma orElseZero_value (v : number) :
  isNaN v = false ->
  isNaN (orElseZero (Some v)) = false /\
  strictNe (orElseZero (Some v)) v = false.
Proof.
  destruct v as [| | |q]; cbn [isNaN]; try discriminate; intros _;
    try (split; reflexivity).
  cbn [orElseZero]. destruct (Qeq_bool q 0) eqn:E; cbn [isNaN strictNe].
  - split; [reflexivity|]. apply negb_false_iff.
    apply Qeq_bool_iff. apply Qeq_bool_iff in E. symmetry. exact E.
  - split; [reflexivity|]. apply negb_false_iff, Qeq_bool_iff. reflexivity.
Qed.

Lemma orElseZero_not_NaN (v : option number) : isNaN (orElseZero v) = false.
Proof.
  destruct v as [[| | |q]|]; cbn [orElseZero]; try reflexivity.
  destruct (Qeq_bool q 0); reflexivity.
Qed.

(** X23.  With rows as channels the preview is the transpose of what was parsed,
    cut to [channelCount] channels: one row per cell of the first channel
    row, each with [min(rows, channelCount)] values, none of them [NaN];
    the value at time [t], channel [ch] equals cell [t] of row [ch]
    wherever that cell is a number. *)
Theorem preview_is_transposed (parsedPreviewRaw : list (list number))
  (config : Viewer.FileConfig) :
  Viewer.orientation config = Viewer.RowsAreChannels ->
  let result := canvasData parsedPreviewRaw config in
  let numChannels :=
    Z.to_nat (Z.min (Z.of_nat (length parsedPreviewRaw))
                    (Viewer.channelCount config)) in
  length result = length (hd [] parsedPreviewRaw) /\
  Forall (fun timePoint =>
            length timePoint = numChannels /\
            Forall (fun v => isNaN v = false) timePoint)
         result /\
  forall (t ch : nat) (v : number),
    (ch < numChannels)%nat ->
    nth_error (nth ch parsedPreviewRaw []) t = Some v ->
    (t < length (hd [] parsedPreviewRaw))%nat ->
    isNaN v = false ->
    exists w, nth_error (nth t result []) ch = Some w /\
              strictNe w v = false.
Proof.
  intros Horient result numChannels. unfold result, canvasData.
  rewrite Horient.
  destruct (length parsedPreviewRaw =? 0)%nat eqn:Eraw.
  - apply Nat.eqb_eq, length_zero_iff_nil in Eraw. subst parsedPreviewRaw.
    cbn. split; [reflexivity|]. split; [constructor|].
    intros t ch v _ _ Ht. lia.
  - cbv zeta. fold numChannels.
    split; [|split].
    + rewrite length_map, length_seq. reflexivity.
    + apply Forall_map, Forall_forall. intros t _. split.
      * rewrite length_map, length_seq. reflexivity.
      * apply Forall_map, Forall_forall. intros ch _.
        apply orElseZero_not_NaN.
    + intros t ch v Hch Hcell Ht Hv.
      exists (orElseZero (Some v)). split.
      * set (timePoint := fun t0 : nat =>
                 map (fun ch0 =>
                        orElseZero (nth_error (nth ch0 parsedPreviewRaw []) t0))
                     (seq 0 numChannels)).
        rewrite (nth_indep _ [] (timePoint 0%nat))
          by (rewrite length_map, length_seq; exact Ht).
        rewrite (map_nth timePoint _ 0%nat t).
        unfold timePoint.
        rewrite seq_nth by exact Ht. cbn [Nat.add].
        rewrite nth_error_map.
        rewrite (nth_error_nth' _ 0%nat) by (rewrite length_seq; exact Hch).
        rewrite seq_nth by exact Hch. cbn [Nat.add option_map].
        rewrite Hcell. reflexivity.
      * apply orElseZero_value. exact Hv.
Qed.

End PreviewData.

(** Two channel rows of three cells, one of them not a number. *)
Lemma preview_is_transposed_witness :
  let raw := [[JsString.Num 1; JsString.NaN; JsString.Num 3];
              [JsString.Num 4; JsString.Num 5; JsString.Num 6]] in
  let config := Viewer.mkFileConfig 100 2 0 0 5 Viewer.RowsAreChannels in
  length (Preview.canvasData raw config) = 3%nat /\
  exists w, nth_error (nth 2 (Preview.canvasData raw config) []) 1 = Some w /\
            JsString.strictNe w (JsString.Num 6) = false.
Proof.
  intros raw config.
  destruct (@preview_is_transposed raw config eq_refl) as (Hlen & _ & Hcell).
  split; [exact Hlen|].
  apply (Hcell 2%nat 1%nat (JsString.Num 6)).
  - vm_compute. lia.
  - reflexivity.
  - simpl. lia.
  - reflexivity.
Defined.

(** ** The debouncing hook *)

Section Debouncing.

Import Debounce.
Local Open Scope Z_scope.

Lemma last_after (A : Type) (rest : list A) :
  forall key previous : A, last (key :: rest) previous = last rest key.
Proof.
  induction rest as [|next rest IH]; intros key previous.
  - reflexivity.
  - change (last (key :: next :: rest) previous)
      with (last (next :: rest) previous).
    rewrite !IH. reflexivity.
Qed.

(** The hook during a burst: the debounced value is kept, and one timeout
    is pending, for the last text and [delay] after the last keystroke. *)
Lemma typing_burst (delay : Z) (kept : string) :
  forall (keys : list (Z * string)) (previous : Z * string),
    burst delay previous keys ->
    typing delay
      (mkHook kept (snd previous)
              (Some (snd previous, fst previous + delay)))
      keys
    = mkHook kept (snd (last keys previous))
             (Some (snd (last keys previous),
                    fst (last keys previous) + delay)).
Proof.
  induction keys as [|key rest IH]; intros previous Hburst.
  - reflexivity.
  - destruct Hburst as (Htime & Htext & Hrest).
    cbn [typing fold_left].
    replace (keystroke delay _ key)
      with (mkHook kept (snd key) (Some (snd key, fst key + delay))).
    + fold (typing delay
              (mkHook kept (snd key) (Some (snd key, fst key + delay))) rest).
      rewrite (IH key Hrest).
      rewrite (last_after rest key previous). reflexivity.
    + unfold keystroke, elapse. cbn [timer].
      replace (fst previous + delay <=? fst key) with false
        by (symmetry; apply Z.leb_gt; lia).
      unfold render. cbn [value debouncedValue].
      replace (String.eqb (snd key) (snd previous)) with false
        by (symmetry; apply String.eqb_neq; exact Htext).
      reflexivity.
Qed.

(** X24.  Debouncing.  Through a burst of keystrokes, each changing the text and
    less than [delay] after the one before, the debounced value stays what
    it was when the burst began; it is still that until [delay] after the
    last keystroke, and from then on it is the last text typed. *)
Theorem debounce_waits_for_quiet (delay : Z) (h : Hook)
  (first : Z * string) (keys : list (Z * string)) (now : Z) :
  snd first <> value h ->
  burst delay first keys ->
  let before := debouncedValue (elapse (fst first) h) in
  let after := typing delay h (first :: keys) in
  let final := last keys first in
  debouncedValue after = before /\
  (now < fst final + delay -> debouncedValue (elapse now after) = before) /\
  (fst final + delay <= now ->
   debouncedValue (elapse now after) = snd final /\
   timer (elapse now after) = None).
Proof.
  intros Hfirst Hburst before after final.
  assert (Hstart : keystroke delay h first
                   = mkHook before (snd first)
                            (Some (snd first, fst first + delay))).
  { unfold keystroke, render.
    assert (Hval : value (elapse (fst first) h) = value h).
    { unfold elapse. destruct (timer h) as [[v due]|]; [|reflexivity].
      destruct (due <=? fst first); reflexivity. }
    rewrite Hval.
    replace (String.eqb (snd first) (value h)) with false
      by (symmetry; apply String.eqb_neq; exact Hfirst).
    reflexivity. }
  assert (Hafter : after
                   = mkHook before (snd final)
                            (Some (snd final, fst final + delay))).
  { unfold after. cbn [typing fold_left]. rewrite Hstart.
    apply (@typing_burst delay before keys first Hburst). }
  rewrite Hafter. unfold elapse. cbn [timer debouncedValue].
  split; [reflexivity|]. split.
  - intro Hnow.
    replace (fst final + delay <=? now) with false
      by (symmetry; apply Z.leb_gt; lia).
    reflexivity.
  - intro Hnow.
    replace (fst final + delay <=? now) with true
      by (symmetry; apply Z.leb_le; lia).
    split; reflexivity.
Qed.

End Debouncing.

(** The gain field holds 1; then 10, 12 and 125 are typed at 2000, 2200
    and 2400 ms, with a delay of 500 ms.  At 2800 ms the debounced text is
    still 1, at 2900 ms it is 125. *)
Lemma debounce_waits_for_quiet_witness :
  let h := Debounce.elapse 1000%Z (Debounce.mount "1"%string 500%Z 0%Z) in
  let after := Debounce.typing 500%Z h
                 [(2000%Z, "10"%string); (2200%Z, "12"%string); (2400%Z, "125"%string)] in
  Debounce.debouncedValue (Debounce.elapse 2800%Z after) = "1"%string /\
  Debounce.debouncedValue (Debounce.elapse 2900%Z after) = "125"%string.
Proof.
  intros h after.
  pose proof (@debounce_waits_for_quiet 500%Z h (2000%Z, "10"%string)
                [(2200%Z, "12"%string); (2400%Z, "125"%string)] 2800%Z
                ltac:(discriminate)
                ltac:(cbn; repeat split; (lia || discriminate)))
    as (_ & Hheld & _).
  pose proof (@debounce_waits_for_quiet 500%Z h (2000%Z, "10"%string)
                [(2200%Z, "12"%string); (2400%Z, "125"%string)] 2900%Z
                ltac:(discriminate)
                ltac:(cbn; repeat split; (lia || discriminate)))
    as (_ & _ & Hdone).
  split.
  - exact (Hheld ltac:(cbn; lia)).
  - exact (proj1 (Hdone ltac:(cbn; lia))).
Defined.

(** ** The age of the patient *)

Section PatientAge.

Import Patient.
Local Open Scope Z_scope.

Lemma calculatedAge_anniversaries (today birthDate : CalendarDate) :
  notAfter (anniversary birthDate (calculatedAge today birthDate)) today /\
  ~ notAfter (anniversary birthDate (calculatedAge today birthDate + 1)) today.
Proof.
  destruct today as [ty tm td], birthDate as [byear bm bd].
  unfold calculatedAge, notAfter, anniversary.
  cbn [getFullYear getMonth getDate].
  destruct (tm - bm <? 0) eqn:E1; cbn [orb].
  - apply Z.ltb_lt in E1. split; [lia|]. intro H. lia.
  - apply Z.ltb_ge in E1.
    destruct (tm - bm =? 0) eqn:E2; cbn [andb].
    + apply Z.eqb_eq in E2.
      destruct (td <? bd) eqn:E3.
      * apply Z.ltb_lt in E3. split; [lia|]. intro H. lia.
      * apply Z.ltb_ge in E3. split; [lia|]. intro H. lia.
    + apply Z.eqb_neq in E2. split; [lia|]. intro H. lia.
Qed.

(** X25.  The age counts the anniversaries of the birth date as the local
    getters read it: the last one is not after today, the next one is.
    At or ahead of UTC that date is the one written in the record, and the
    age is the number of birthdays reached.  Behind UTC it is the day
    before: on the eve of a birthday the age is already that of the
    birthday, which is not reached. *)
Theorem age_counts_anniversaries (today written : CalendarDate)
  (offsetMinutes : Z) :
  let birth := localBirthDate written offsetMinutes in
  (notAfter (anniversary birth (age today written offsetMinutes)) today /\
   ~ notAfter (anniversary birth (age today written offsetMinutes + 1))
       today) /\
  (0 <= offsetMinutes -> birth = written) /\
  (offsetMinutes < 0 -> 1 < getDate written ->
   forall years : Z,
     today = anniversary (dayBefore written) years ->
     age today written offsetMinutes = years /\
     ~ notAfter (anniversary written years) today).
Proof.
  cbv zeta. split; [|split].
  - apply calculatedAge_anniversaries.
  - intro H. unfold localBirthDate.
    replace (offsetMinutes <? 0) with false
      by (symmetry; apply Z.ltb_ge; exact H).
    reflexivity.
  - intros Hwest Hday years ->.
    unfold age, localBirthDate, dayBefore.
    replace (offsetMinutes <? 0) with true
      by (symmetry; apply Z.ltb_lt; exact Hwest).
    replace (1 <? getDate written) with true
      by (symmetry; apply Z.ltb_lt; exact Hday).
    destruct written as [y m d].
    unfold calculatedAge, notAfter, anniversary.
    cbn [getFullYear getMonth getDate] in *.
    replace (m - m) with 0 by lia. rewrite Z.ltb_irrefl.
    cbn [Z.ltb Z.eqb Z.compare orb andb]. rewrite Z.ltb_irrefl.
    split; [lia|]. intro H. lia.
Qed.

End PatientAge.

(** Born on 15 June 2000, read four hours behind UTC on 14 June 2024: the
    age is 24 on the eve of the 24th birthday. *)
Lemma age_counts_anniversaries_witness :
  Patient.age (Patient.mkDate 2024 5 14) (Patient.mkDate 2000 5 15) (-240)
    = 24%Z /\
  ~ Patient.notAfter
      (Patient.anniversary (Patient.mkDate 2000 5 15) 24)
      (Patient.mkDate 2024 5 14).
Proof.
  destruct (@age_counts_anniversaries (Patient.mkDate 2024 5 14)
              (Patient.mkDate 2000 5 15) (-240)) as (_ & _ & Heve).
  apply Heve; [lia | cbn; lia | reflexivity].
Defined.
